(** * Telegram Mini App initData validation worker

    A shallow embedding of [src/worker/src/index.js]: the request handler
    [handleValidate] together with its helpers [parseInitData],
    [buildDataCheckString], [telegramWebAppSecretKey], [hmacHex],
    [encodeUtf8], [toHex] and [timingSafeEqual], and the platform
    functions they call (HMAC-SHA256, URLSearchParams, TextEncoder,
    Number, JSON.parse).

    Conventions.
    - A JavaScript string is the list of its UTF-16 code units, each a [Z].
    - A byte array (Uint8Array) is a list of [Z] in [0, 255].
    - 32-bit words of SHA-256 are [Z] with the wrap-around written out. *)

From Stdlib Require Import ZArith String Ascii List Bool Lia Permutation Sorted.
Import ListNotations.
Local Open Scope Z_scope.

(* ================================================================== *)
(** * Part I: definitions                                              *)
(* ================================================================== *)

(** ** JavaScript strings *)

Definition jsstring := list Z.

(** [str "abc"] is the JavaScript string literal ["abc"]. *)
Definition str (s : string) : jsstring :=
  map (fun c => Z.of_N (N_of_ascii c)) (list_ascii_of_string s).

(** The text of [s] with each apostrophe standing for a double quote, to
    write JSON texts. *)
Definition quoted (s : string) : jsstring :=
  map (fun c => if c =? 39 then 34 else c) (str s).

(** [a === b] on strings. *)
Fixpoint str_eqb (a b : jsstring) : bool :=
  match a, b with
  | [], [] => true
  | x :: a', y :: b' => (x =? y) && str_eqb a' b'
  | _, _ => false
  end.

(** [a < b] on strings: lexicographic on code units. *)
Fixpoint str_ltb (a b : jsstring) : bool :=
  match a, b with
  | _, [] => false
  | [], _ :: _ => true
  | x :: a', y :: b' =>
      if x <? y then true else if y <? x then false else str_ltb a' b'
  end.

(** [s.charCodeAt(i)].  Out of range JavaScript answers NaN, which the
    bit operators of [timingSafeEqual] read as 0. *)
Definition charCodeAt (s : jsstring) (i : nat) : Z := nth i s 0.

(** [parts.join(sep)]. *)
Fixpoint join (sep : jsstring) (parts : list jsstring) : jsstring :=
  match parts with
  | [] => []
  | [p] => p
  | p :: rest => p ++ sep ++ join sep rest
  end.

(** [s.padStart(n, "0")]. *)
Definition padStart0 (n : nat) (s : jsstring) : jsstring :=
  repeat 48 (n - length s) ++ s.

(** ** SHA-256 and HMAC (the [crypto.subtle] calls of the worker) *)

Module SHA256.

Definition w32 (x : Z) : Z := x mod 2 ^ 32.
Definition add32 (x y : Z) : Z := w32 (x + y).
Definition rotr (n x : Z) : Z :=
  Z.lor (Z.shiftr x n) (w32 (Z.shiftl x (32 - n))).
Definition shr (n x : Z) : Z := Z.shiftr x n.
Definition not32 (x : Z) : Z := Z.lxor x 0xffffffff.

Definition Ch (x y z : Z) : Z := Z.lxor (Z.land x y) (Z.land (not32 x) z).
Definition Maj (x y z : Z) : Z :=
  Z.lxor (Z.lxor (Z.land x y) (Z.land x z)) (Z.land y z).
Definition bsig0 (x : Z) : Z :=
  Z.lxor (Z.lxor (rotr 2 x) (rotr 13 x)) (rotr 22 x).
Definition bsig1 (x : Z) : Z :=
  Z.lxor (Z.lxor (rotr 6 x) (rotr 11 x)) (rotr 25 x).
Definition ssig0 (x : Z) : Z :=
  Z.lxor (Z.lxor (rotr 7 x) (rotr 18 x)) (shr 3 x).
Definition ssig1 (x : Z) : Z :=
  Z.lxor (Z.lxor (rotr 17 x) (rotr 19 x)) (shr 10 x).

(** The round constants are the first 32 bits of the fractional parts of
    the cube roots of the first 64 primes, and the initial hash value
    those of the square roots of the first 8. *)
Definition is_prime (n : Z) : bool :=
  forallb (fun d => negb (n mod d =? 0))
          (map Z.of_nat (seq 2 (Z.to_nat n - 2))).

Definition primes : list Z := filter is_prime (map Z.of_nat (seq 2 310)).

Definition cube_root (n : Z) : Z :=
  fold_left (fun r b => let r' := r + 2 ^ Z.of_nat b in
                        if r' ^ 3 <=? n then r' else r)
            (rev (seq 0 36)) 0.

Definition K : list Z :=
  Eval vm_compute in map (fun p => w32 (cube_root (p * 2 ^ 96))) primes.

Definition H0 : list Z :=
  Eval vm_compute in map (fun p => w32 (Z.sqrt (p * 2 ^ 64))) (firstn 8 primes).

(** Big-endian bytes of a word and back. *)
Definition word_bytes (x : Z) : list Z :=
  [ Z.shiftr x 24 mod 256; Z.shiftr x 16 mod 256;
    Z.shiftr x 8 mod 256; x mod 256 ].

Fixpoint words_of (n : nat) (bs : list Z) : list Z :=
  match n, bs with
  | S n', b0 :: b1 :: b2 :: b3 :: rest =>
      (((b0 * 256 + b1) * 256 + b2) * 256 + b3) :: words_of n' rest
  | _, _ => []
  end.

(** Padding: the bit 1, zeros up to 56 mod 64, the bit length on 8 bytes. *)
Definition length_bytes (bits : Z) : list Z :=
  word_bytes (w32 (Z.shiftr bits 32)) ++ word_bytes (w32 bits).

Definition pad (msg : list Z) : list Z :=
  let len := Z.of_nat (length msg) in
  msg ++ [0x80] ++ repeat 0 (Z.to_nat ((55 - len) mod 64))
      ++ length_bytes (8 * len).

(** The message schedule: the 16 words of the block, then 48 derived
    words, computed over a sliding window of the last 16. *)
Fixpoint extend (n : nat) (window : list Z) : list Z :=
  match n with
  | O => []
  | S n' =>
      let w := add32 (add32 (ssig1 (nth 14 window 0)) (nth 9 window 0))
                     (add32 (ssig0 (nth 1 window 0)) (nth 0 window 0)) in
      w :: extend n' (tl window ++ [w])
  end.

Definition schedule (block : list Z) : list Z :=
  let w16 := words_of 16 block in w16 ++ extend 48 w16.

Definition round (st : list Z) (kw : Z * Z) : list Z :=
  match st with
  | [a; b; c; d; e; f; g; h] =>
      let t1 := add32 (add32 (add32 h (bsig1 e)) (Ch e f g))
                      (add32 (fst kw) (snd kw)) in
      let t2 := add32 (bsig0 a) (Maj a b c) in
      [add32 t1 t2; a; b; c; add32 d t1; e; f; g]
  | _ => st
  end.

Definition compress (h : list Z) (block : list Z) : list Z :=
  let st := fold_left round (combine K (schedule block)) h in
  map (fun p => add32 (fst p) (snd p)) (combine h st).

Fixpoint blocks (n : nat) (bs : list Z) : list (list Z) :=
  match n with
  | O => []
  | S n' => firstn 64 bs :: blocks n' (skipn 64 bs)
  end.

Definition sha256 (msg : list Z) : list Z :=
  let p := pad msg in
  flat_map word_bytes
    (fold_left compress (blocks (Nat.div (length p) 64) p) H0).

(** HMAC with SHA-256 (block size 64). *)
Definition block_key (key : list Z) : list Z :=
  let k := if (64 <? length key)%nat then sha256 key else key in
  k ++ repeat 0 (64 - length k).

Definition hmac (key msg : list Z) : list Z :=
  let k := block_key key in
  sha256 (map (Z.lxor 0x5c) k ++ sha256 (map (Z.lxor 0x36) k ++ msg)).

End SHA256.

(** ** Text encoding (TextEncoder, and the UTF-8 decoder of URLSearchParams) *)

Definition in_range (lo hi c : Z) : bool := (lo <=? c) && (c <=? hi).

(** The code points of a string: surrogate pairs are combined and a lone
    surrogate becomes U+FFFD. *)
Fixpoint code_points (s : jsstring) : list Z :=
  match s with
  | [] => []
  | c :: rest =>
      if in_range 0xD800 0xDBFF c then
        match rest with
        | d :: rest' =>
            if in_range 0xDC00 0xDFFF d
            then (0x10000 + (c - 0xD800) * 0x400 + (d - 0xDC00))
                   :: code_points rest'
            else 0xFFFD :: code_points rest
        | [] => [0xFFFD]
        end
      else if in_range 0xDC00 0xDFFF c then 0xFFFD :: code_points rest
      else c :: code_points rest
  end.

Definition utf8_bytes (cp : Z) : list Z :=
  if cp <? 0x80 then [cp]
  else if cp <? 0x800 then
    [Z.lor 0xC0 (Z.shiftr cp 6); Z.lor 0x80 (Z.land cp 0x3F)]
  else if cp <? 0x10000 then
    [Z.lor 0xE0 (Z.shiftr cp 12); Z.lor 0x80 (Z.land (Z.shiftr cp 6) 0x3F);
     Z.lor 0x80 (Z.land cp 0x3F)]
  else
    [Z.lor 0xF0 (Z.shiftr cp 18); Z.lor 0x80 (Z.land (Z.shiftr cp 12) 0x3F);
     Z.lor 0x80 (Z.land (Z.shiftr cp 6) 0x3F); Z.lor 0x80 (Z.land cp 0x3F)].

(** [new TextEncoder().encode(s)] *)
Definition encodeUtf8 (s : jsstring) : list Z :=
  flat_map utf8_bytes (code_points s).

(** The UTF-8 decoder as a state machine: the code point being built, the
    continuation bytes needed and seen, and the bounds of the next byte. *)
Record decoder := {
  dec_cp : Z; dec_needed : Z; dec_seen : Z; dec_lower : Z; dec_upper : Z
}.

Definition decoder_init : decoder :=
  {| dec_cp := 0; dec_needed := 0; dec_seen := 0;
     dec_lower := 0x80; dec_upper := 0xBF |}.

Definition decoder_lead (b : Z) : list Z * decoder :=
  if in_range 0x00 0x7F b then ([b], decoder_init)
  else if in_range 0xC2 0xDF b then
    ([], {| dec_cp := Z.land b 0x1F; dec_needed := 1; dec_seen := 0;
            dec_lower := 0x80; dec_upper := 0xBF |})
  else if in_range 0xE0 0xEF b then
    ([], {| dec_cp := Z.land b 0xF; dec_needed := 2; dec_seen := 0;
            dec_lower := if b =? 0xE0 then 0xA0 else 0x80;
            dec_upper := if b =? 0xED then 0x9F else 0xBF |})
  else if in_range 0xF0 0xF4 b then
    ([], {| dec_cp := Z.land b 0x7; dec_needed := 3; dec_seen := 0;
            dec_lower := if b =? 0xF0 then 0x90 else 0x80;
            dec_upper := if b =? 0xF4 then 0x8F else 0xBF |})
  else ([0xFFFD], decoder_init).

Definition decoder_step (st : decoder) (b : Z) : list Z * decoder :=
  if dec_needed st =? 0 then decoder_lead b
  else if negb (in_range (dec_lower st) (dec_upper st) b) then
    let (out, st') := decoder_lead b in (0xFFFD :: out, st')
  else
    let cp := Z.lor (Z.shiftl (dec_cp st) 6) (Z.land b 0x3F) in
    if dec_seen st + 1 =? dec_needed st then ([cp], decoder_init)
    else ([], {| dec_cp := cp; dec_needed := dec_needed st;
                 dec_seen := dec_seen st + 1;
                 dec_lower := 0x80; dec_upper := 0xBF |}).

Definition utf8_decode (bs : list Z) : list Z :=
  let (out, st) :=
    fold_left (fun acc b =>
                 let (o, st') := decoder_step (snd acc) b in
                 (fst acc ++ o, st'))
              bs ([], decoder_init) in
  out ++ (if dec_needed st =? 0 then [] else [0xFFFD]).

Definition utf16_units (cp : Z) : list Z :=
  if cp <? 0x10000 then [cp]
  else [0xD800 + Z.shiftr (cp - 0x10000) 10;
        0xDC00 + Z.land (cp - 0x10000) 0x3FF].

Definition decodeUtf8 (bs : list Z) : jsstring :=
  flat_map utf16_units (utf8_decode bs).

(** ** URLSearchParams *)

Definition URLSearchParams := list (jsstring * jsstring).

Definition hex_value (c : Z) : option Z :=
  if in_range 48 57 c then Some (c - 48)
  else if in_range 65 70 c then Some (c - 55)
  else if in_range 97 102 c then Some (c - 87)
  else None.

Fixpoint percent_decode (bs : list Z) : list Z :=
  match bs with
  | [] => []
  | b :: rest =>
      if b =? 37 then
        match rest with
        | h :: l :: rest' =>
            match hex_value h, hex_value l with
            | Some x, Some y => (16 * x + y) :: percent_decode rest'
            | _, _ => b :: percent_decode rest
            end
        | _ => b :: percent_decode rest
        end
      else b :: percent_decode rest
  end.

Fixpoint split_on (sep : Z) (bs : list Z) : list (list Z) :=
  match bs with
  | [] => [[]]
  | b :: rest =>
      if b =? sep then [] :: split_on sep rest
      else match split_on sep rest with
           | cur :: others => (b :: cur) :: others
           | [] => [[b]]
           end
  end.

(** The part before the first [sep], and the part after it if there is one. *)
Fixpoint cut_at (sep : Z) (bs : list Z) : list Z * option (list Z) :=
  match bs with
  | [] => ([], None)
  | b :: rest =>
      if b =? sep then ([], Some rest)
      else let (name, value) := cut_at sep rest in (b :: name, value)
  end.

Definition form_component (bs : list Z) : jsstring :=
  decodeUtf8 (percent_decode (map (fun b => if b =? 43 then 32 else b) bs)).

(** The application/x-www-form-urlencoded parser. *)
Definition urlencoded_parse (input : list Z) : URLSearchParams :=
  flat_map
    (fun bytes =>
       match bytes with
       | [] => []
       | _ =>
           let (name, value) := cut_at 61 bytes in
           [(form_component name,
             form_component (match value with Some v => v | None => [] end))]
       end)
    (split_on 38 input).

(** [new URLSearchParams(init)] for a string [init]. *)
Definition new_URLSearchParams (init : jsstring) : URLSearchParams :=
  urlencoded_parse
    (encodeUtf8 (match init with 63 :: rest => rest | _ => init end)).

(** [params.get(name)]: the value of the first pair named [name], or null. *)
Fixpoint get (params : URLSearchParams) (name : jsstring) : option jsstring :=
  match params with
  | [] => None
  | (k, v) :: rest => if str_eqb k name then Some v else get rest name
  end.

(** ** Numbers and values *)

(** A JavaScript number, by the decimal it was written as: [Num m e] is
    the double nearest to [m * 10 ^ e], [NaN] is not-a-number and
    [Inf negative] is Infinity with its sign.  (The two zeros are not
    told apart.) *)
#[warnings="-register-all"]
Inductive number :=
| Num (m e : Z)
| NaN
| Inf (negative : bool).

#[warnings="-register-all"]
Inductive value :=
| VUndefined
| VNull
| VBool (b : bool)
| VNum (n : number)
| VStr (s : jsstring)
| VArr (items : list value)
| VObj (props : list (jsstring * value)).

(** A decimal rounds to zero when it is at most 2^-1075 in magnitude. *)
Definition number_is_zero (n : number) : bool :=
  match n with
  | NaN | Inf _ => false
  | Num m e =>
      (m =? 0) || ((e <? 0) && (Z.abs m * 2 ^ 1075 <=? 10 ^ (- e)))
  end.

(** ToBoolean *)
Definition truthy (v : value) : bool :=
  match v with
  | VUndefined | VNull => false
  | VBool b => b
  | VNum NaN => false
  | VNum n => negb (number_is_zero n)
  | VStr s => negb (str_eqb s [])
  | VArr _ | VObj _ => true
  end.

(** [v.name] for a name that no prototype defines ([initData], [id],
    [first_name], ...): an own property of an object, undefined on any
    other value. *)
Fixpoint lookup (props : list (jsstring * value)) (name : jsstring) : value :=
  match props with
  | [] => VUndefined
  | (k, v) :: rest => if str_eqb k name then v else lookup rest name
  end.

Definition get_prop (v : value) (name : jsstring) : value :=
  match v with
  | VObj props => lookup props name
  | _ => VUndefined
  end.

(** Defining a property: an existing one keeps its place and takes the
    new value. *)
Fixpoint set_prop (props : list (jsstring * value)) (name : jsstring)
    (v : value) : list (jsstring * value) :=
  match props with
  | [] => [(name, v)]
  | (k, old) :: rest =>
      if str_eqb k name then (k, v) :: rest
      else (k, old) :: set_prop rest name v
  end.

(** ** Number(string) *)

Definition is_digit (c : Z) : bool := in_range 48 57 c.

(** WhiteSpace and LineTerminator code units. *)
Definition is_js_space (c : Z) : bool :=
  in_range 9 13 c || (c =? 32) || (c =? 0xA0) || (c =? 0x1680)
  || in_range 0x2000 0x200A c || (c =? 0x2028) || (c =? 0x2029)
  || (c =? 0x202F) || (c =? 0x205F) || (c =? 0x3000) || (c =? 0xFEFF).

Fixpoint trim_start (s : jsstring) : jsstring :=
  match s with
  | c :: rest => if is_js_space c then trim_start rest else s
  | [] => []
  end.

Definition trim (s : jsstring) : jsstring :=
  rev (trim_start (rev (trim_start s))).

Definition digits_value (ds : list Z) : Z :=
  fold_left (fun acc d => acc * 10 + (d - 48)) ds 0.

(** *** Doubles

    The Number value of a real: the nearest double, a tie going to the
    even significand, and Infinity from 2^1024 on.  A double is written
    [m * 2 ^ t] with [m <= 2 ^ 53] and [t >= -1074]. *)

(** [2 ^ d <= p / q], for a positive [q]. *)
Definition at_least_pow2 (p q d : Z) : bool :=
  if 0 <=? d then q * 2 ^ d <=? p else q <=? p * 2 ^ (- d).

(** The floor of the binary logarithm of [p / q], for positive [p], [q]. *)
Definition log2_floor (p q : Z) : Z :=
  let d := Z.log2 p - Z.log2 q in
  if at_least_pow2 p q d then d else d - 1.

(** The integer nearest to [n / d], a tie going to the even one. *)
Definition round_half_even (n d : Z) : Z :=
  let m := n / d in
  let r := n mod d in
  if 2 * r <? d then m
  else if d <? 2 * r then m + 1
  else if Z.even m then m else m + 1.

(** The exponent of the unit in the last place of the double nearest to
    [p / q], and its significand. *)
Definition quantum (p q : Z) : Z := Z.max (log2_floor p q - 52) (- 1074).

Definition significand (p q : Z) : Z :=
  let t := quantum p q in
  if 0 <=? t then round_half_even p (q * 2 ^ t)
  else round_half_even (p * 2 ^ (- t)) q.

(** [m / 2 ^ k] in lowest terms: the numerator and the exponent left. *)
Fixpoint reduce (k : nat) (m : Z) : Z * nat :=
  match k with
  | O => (m, O)
  | S k' => if Z.even m then reduce k' (m / 2) else (m, k)
  end.

(** The number [m * 2 ^ t], written as a decimal. *)
Definition dyadic (m t : Z) : number :=
  if 0 <=? t then
    if 2 ^ 1024 <=? m * 2 ^ t then Inf false else Num (m * 2 ^ t) 0
  else
    let (m', k) := reduce (Z.to_nat (- t)) m in
    Num (m' * 5 ^ Z.of_nat k) (- Z.of_nat k).

(** The double nearest to [p / q], for [p >= 0] and [q > 0]. *)
Definition to_double (p q : Z) : number :=
  if p =? 0 then Num 0 0 else dyadic (significand p q) (quantum p q).

Definition negate (n : number) : number :=
  match n with
  | Num m e => Num (- m) e
  | NaN => NaN
  | Inf negative => Inf (negb negative)
  end.

(** The double nearest to [m * 10 ^ e]. *)
Definition decimal_double (m e : Z) : number :=
  let n := if 0 <=? e then to_double (Z.abs m * 10 ^ e) 1
           else to_double (Z.abs m) (10 ^ (- e)) in
  if m <? 0 then negate n else n.

(** *** The grammar of numeric strings *)

(** The longest run of characters satisfying [f] at the start of [s],
    and what follows it. *)
Fixpoint span (f : Z -> bool) (s : jsstring) : jsstring * jsstring :=
  match s with
  | c :: rest =>
      if f c then let (run, after) := span f rest in (c :: run, after)
      else ([], s)
  | [] => ([], [])
  end.

(** SignedInteger: the digits of an exponent, with an optional sign. *)
Definition signed_integer (s : jsstring) : option Z :=
  let (negative, ds) :=
    match s with
    | 43 :: r => (false, r)
    | 45 :: r => (true, r)
    | _ => (false, s)
    end in
  match ds with
  | [] => None
  | _ :: _ =>
      if forallb is_digit ds
      then Some (if negative then - digits_value ds else digits_value ds)
      else None
  end.

(** StrUnsignedDecimalLiteral other than Infinity: digits with an
    optional fraction and an optional exponent part, at least one digit
    before the exponent.  The answer is the pair [(m, e)] of the value
    [m * 10 ^ e]. *)
Definition decimal_literal (s : jsstring) : option (Z * Z) :=
  let (whole, r1) := span is_digit s in
  let (fraction, r2) :=
    match r1 with
    | 46 :: r => span is_digit r
    | _ => ([], r1)
    end in
  match whole ++ fraction with
  | [] => None
  | _ :: _ =>
      let exponent :=
        match r2 with
        | [] => Some 0
        | c :: r => if (c =? 101) || (c =? 69) then signed_integer r else None
        end in
      match exponent with
      | Some x =>
          Some (digits_value (whole ++ fraction),
                x - Z.of_nat (length fraction))
      | None => None
      end
  end.

(** The value of a digit in a radix, when it is one. *)
Definition radix_digit (radix c : Z) : option Z :=
  match hex_value c with
  | Some d => if d <? radix then Some d else None
  | None => None
  end.

Fixpoint radix_value (radix : Z) (ds : jsstring) (acc : Z) : option Z :=
  match ds with
  | [] => Some acc
  | c :: rest =>
      match radix_digit radix c with
      | Some d => radix_value radix rest (acc * radix + d)
      | None => None
      end
  end.

(** The radix that a prefix letter stands for: b, o or x, in either
    case. *)
Definition radix_of (c : Z) : option Z :=
  if (c =? 98) || (c =? 66) then Some 2
  else if (c =? 111) || (c =? 79) then Some 8
  else if (c =? 120) || (c =? 88) then Some 16
  else None.

(** NonDecimalIntegerLiteral: 0b, 0o or 0x, then at least one digit of
    the radix.  The outer [None] says that [s] does not start like one. *)
Definition radix_literal (s : jsstring) : option (option Z) :=
  match s with
  | zero :: c :: ds =>
      match radix_of c with
      | Some radix =>
          if zero =? 48 then
            Some (match ds with
                  | [] => None
                  | _ :: _ => radix_value radix ds 0
                  end)
          else None
      | None => None
      end
  | _ => None
  end.

(** [Number(s)], that is StringToNumber: the text without the white
    space around it is empty (then 0), a radix literal, or an optionally
    signed Infinity or decimal literal; any other text is NaN.  The value
    is rounded to the nearest double, so that [Num m e] here is that
    double itself; an integer comes as [Num z 0].  The answer is never
    [None]. *)
Definition Number_ (s : jsstring) : option number :=
  match trim s with
  | [] => Some (Num 0 0)
  | c :: rest =>
      match radix_literal (c :: rest) with
      | Some (Some z) => Some (to_double z 1)
      | Some None => Some NaN
      | None =>
          let negative := c =? 45 in
          let body := if (c =? 43) || (c =? 45) then rest else c :: rest in
          if str_eqb body (str "Infinity") then Some (Inf negative)
          else
            match decimal_literal body with
            | Some (m, e) =>
                Some (decimal_double (if negative then - m else m) e)
            | None => Some NaN
            end
      end
  end.

(** ** JSON.parse *)

Definition is_json_ws (c : Z) : bool :=
  (c =? 32) || (c =? 9) || (c =? 10) || (c =? 13).

Fixpoint skip_ws (s : jsstring) : jsstring :=
  match s with
  | c :: rest => if is_json_ws c then skip_ws rest else s
  | [] => []
  end.

(** The character an escape letter stands for: quote, backslash, slash,
    b, f, n, r, t. *)
Definition unescape (c : Z) : option Z :=
  if c =? 34 then Some 34
  else if c =? 92 then Some 92
  else if c =? 47 then Some 47
  else if c =? 98 then Some 8
  else if c =? 102 then Some 12
  else if c =? 110 then Some 10
  else if c =? 114 then Some 13
  else if c =? 116 then Some 9
  else None.

Definition hex4 (a b c d : Z) : option Z :=
  match hex_value a, hex_value b, hex_value c, hex_value d with
  | Some x, Some y, Some z, Some w => Some (((x * 16 + y) * 16 + z) * 16 + w)
  | _, _, _, _ => None
  end.

Definition prepend (c : Z) (r : option (jsstring * jsstring))
    : option (jsstring * jsstring) :=
  match r with
  | Some (t, rest) => Some (c :: t, rest)
  | None => None
  end.

(** The characters of a string literal after its opening quote, and what
    follows the closing quote. *)
Fixpoint lex_string (s : jsstring) : option (jsstring * jsstring) :=
  match s with
  | [] => None
  | c :: r =>
      if c =? 34 then Some ([], r)
      else if c =? 92 then
        match r with
        | [] => None
        | e :: r1 =>
            if e =? 117 then
              match r1 with
              | h1 :: h2 :: h3 :: h4 :: r2 =>
                  match hex4 h1 h2 h3 h4 with
                  | Some u => prepend u (lex_string r2)
                  | None => None
                  end
              | _ => None
              end
            else
              match unescape e with
              | Some u => prepend u (lex_string r1)
              | None => None
              end
        end
      else if c <? 32 then None
      else prepend c (lex_string r)
  end.

Fixpoint span_digits (s : jsstring) : list Z * jsstring :=
  match s with
  | c :: rest =>
      if is_digit c then let (ds, r) := span_digits rest in (c :: ds, r)
      else ([], s)
  | [] => ([], [])
  end.

(** A number literal: [-? int frac? exp?]. *)
Definition lex_number (s : jsstring) : option (number * jsstring) :=
  let (neg, s1) := match s with
                   | 45 :: r => (true, r)
                   | _ => (false, s)
                   end in
  let (ip, s2) := span_digits s1 in
  match ip with
  | [] => None
  | d :: more =>
      if (d =? 48) && negb (Nat.eqb (length more) 0) then None else
      let frac := match s2 with
                  | 46 :: r =>
                      let (fp, r') := span_digits r in
                      match fp with [] => None | _ => Some (fp, r') end
                  | _ => Some ([], s2)
                  end in
      match frac with
      | None => None
      | Some (fp, s3) =>
          let ex := match s3 with
                    | c :: r =>
                        if (c =? 101) || (c =? 69) then
                          let (eneg, r1) := match r with
                                            | 45 :: r' => (true, r')
                                            | 43 :: r' => (false, r')
                                            | _ => (false, r)
                                            end in
                          let (ep, r2) := span_digits r1 in
                          match ep with
                          | [] => None
                          | _ => Some ((if eneg then -1 else 1)
                                         * digits_value ep, r2)
                          end
                        else Some (0, s3)
                    | [] => Some (0, s3)
                    end in
          match ex with
          | None => None
          | Some (e, s4) =>
              let m := digits_value (ip ++ fp) in
              Some (Num (if neg then - m else m)
                        (e - Z.of_nat (length fp)), s4)
          end
      end
  end.

Fixpoint strip_prefix (p s : jsstring) : option jsstring :=
  match p, s with
  | [], _ => Some s
  | x :: p', y :: s' => if x =? y then strip_prefix p' s' else None
  | _ :: _, [] => None
  end.

Fixpoint parse_value (fuel : nat) (s : jsstring) : option (value * jsstring) :=
  match fuel with
  | O => None
  | S f =>
      match skip_ws s with
      | [] => None
      | c :: r =>
          if c =? 123 then
            match skip_ws r with
            | 125 :: r' => Some (VObj [], r')
            | _ => parse_members f r []
            end
          else if c =? 91 then
            match skip_ws r with
            | 93 :: r' => Some (VArr [], r')
            | _ => parse_elements f r []
            end
          else if c =? 34 then
            match lex_string r with
            | Some (t, rest) => Some (VStr t, rest)
            | None => None
            end
          else
            match strip_prefix (str "true") (c :: r),
                  strip_prefix (str "false") (c :: r),
                  strip_prefix (str "null") (c :: r) with
            | Some rest, _, _ => Some (VBool true, rest)
            | _, Some rest, _ => Some (VBool false, rest)
            | _, _, Some rest => Some (VNull, rest)
            | None, None, None =>
                match lex_number (c :: r) with
                | Some (n, rest) => Some (VNum n, rest)
                | None => None
                end
            end
      end
  end
with parse_elements (fuel : nat) (s : jsstring) (acc : list value)
    : option (value * jsstring) :=
  match fuel with
  | O => None
  | S f =>
      match parse_value f s with
      | None => None
      | Some (v, rest) =>
          match skip_ws rest with
          | 44 :: rest' => parse_elements f rest' (acc ++ [v])
          | 93 :: rest' => Some (VArr (acc ++ [v]), rest')
          | _ => None
          end
      end
  end
with parse_members (fuel : nat) (s : jsstring) (acc : list (jsstring * value))
    : option (value * jsstring) :=
  match fuel with
  | O => None
  | S f =>
      match skip_ws s with
      | 34 :: r =>
          match lex_string r with
          | None => None
          | Some (k, r1) =>
              match skip_ws r1 with
              | 58 :: r2 =>
                  match parse_value f r2 with
                  | None => None
                  | Some (v, rest) =>
                      match skip_ws rest with
                      | 44 :: rest' => parse_members f rest' (set_prop acc k v)
                      | 125 :: rest' => Some (VObj (set_prop acc k v), rest')
                      | _ => None
                      end
                  end
              | _ => None
              end
          end
      | _ => None
      end
  end.

(** [JSON.parse(text)]: [None] stands for the SyntaxError it throws.  Each
    recursive call follows at least one consumed character or is followed
    by one, so twice the length of the text is fuel enough. *)
Definition JSON_parse (text : jsstring) : option value :=
  match parse_value (2 * length text + 2) text with
  | Some (v, rest) =>
      match skip_ws rest with
      | [] => Some v
      | _ :: _ => None
      end
  | None => None
  end.

(** ** The worker: [src/worker/src/index.js] *)

Definition VALID_AUTH_WINDOW : Z := 300.

Record Request := { body_text : jsstring }.

(** [env.BOT_TOKEN] is a string, or undefined when the secret is not set. *)
Record Env := { BOT_TOKEN : option jsstring }.

(** A response, by the object given to [json] (which [JSON.stringify]
    then writes out) and the status.  Headers are not modelled. *)
Record Response := { resp_body : value; resp_status : Z }.

Definition json (obj : value) (status : Z) : Response :=
  {| resp_body := obj; resp_status := status |}.

(** [cors] copies body and status and only adds headers. *)
Definition cors (resp : Response) : Response :=
  {| resp_body := resp_body resp; resp_status := resp_status resp |}.

Definition parseInitData (initData : jsstring) : URLSearchParams :=
  new_URLSearchParams initData.

(** The comparator given to [entries.sort]. *)
Definition compare_keys (a b : jsstring * jsstring) : Z :=
  if str_ltb (fst a) (fst b) then -1
  else if str_ltb (fst b) (fst a) then 1
  else 0.

(** [Array.prototype.sort] is a stable sort; with a consistent comparator
    its result is that of this insertion sort. *)
Fixpoint sort_insert {A : Type} (cmp : A -> A -> Z) (x : A) (l : list A)
    : list A :=
  match l with
  | [] => [x]
  | y :: rest =>
      if cmp x y <=? 0 then x :: l else y :: sort_insert cmp x rest
  end.

Definition Array_sort {A : Type} (cmp : A -> A -> Z) (l : list A) : list A :=
  fold_right (sort_insert cmp) [] l.

(** The loop of [buildDataCheckString]: every pair but those named hash
    is pushed, in the order of [params.entries()]. *)
Definition collect_entries (params : URLSearchParams)
    : list (jsstring * jsstring) :=
  fold_left
    (fun entries kv =>
       if str_eqb (fst kv) (str "hash") then entries else entries ++ [kv])
    params [].

Definition render_entry (kv : jsstring * jsstring) : jsstring :=
  fst kv ++ str "=" ++ snd kv.

Definition buildDataCheckString (params : URLSearchParams) : jsstring :=
  let entries := collect_entries params in
  let entries := Array_sort compare_keys entries in
  join [10] (map render_entry entries).

(** [crypto.subtle.importKey] followed by [crypto.subtle.sign("HMAC", ...)].
    (importKey refuses an empty key; the worker never passes one.) *)
Definition telegramWebAppSecretKey (botToken : jsstring) : list Z :=
  SHA256.hmac (encodeUtf8 botToken) (encodeUtf8 (str "WebAppData")).

Definition hex_digit (d : Z) : Z :=
  nth (Z.to_nat d) (str "0123456789abcdef") 0.

(** [b.toString(16)] for a byte. *)
Definition toString16 (b : Z) : jsstring :=
  if b <? 16 then [hex_digit b] else [hex_digit (b / 16); hex_digit (b mod 16)].

Definition toHex (bytes : list Z) : jsstring :=
  join [] (map (fun b => padStart0 2 (toString16 b)) bytes).

Definition hmacHex (keyBytes : list Z) (data : jsstring) : jsstring :=
  toHex (SHA256.hmac keyBytes (encodeUtf8 data)).

(** The [for] loop of [timingSafeEqual], with the positions it has read:
    [n] iterations remain, [i] is the loop variable. *)
Fixpoint compare_loop (a b : jsstring) (n i : nat) (res : Z) (seen : list nat)
    : Z * list nat :=
  match n with
  | O => (res, seen)
  | S n' =>
      compare_loop a b n' (S i)
        (Z.lor res (Z.lxor (charCodeAt a i) (charCodeAt b i)))
        (seen ++ [i])
  end.

(** [timingSafeEqual] with the list of positions its loop has read. *)
Definition timingSafeEqual_run (a b : jsstring) : bool * list nat :=
  if negb (Nat.eqb (length a) (length b)) then (false, [])
  else
    let (res, seen) := compare_loop a b (length a) 0 0 [] in
    (res =? 0, seen).

Definition timingSafeEqual (a b : jsstring) : bool :=
  fst (timingSafeEqual_run a b).

(** Truth of a string-or-null, as in [!hash] and [parsed.get("user") ? :]. *)
Definition present (s : option jsstring) : bool :=
  match s with
  | Some s => negb (str_eqb s [])
  | None => false
  end.

(** [s || d] *)
Definition or_default (s : option jsstring) (d : jsstring) : jsstring :=
  match s with
  | Some s => if str_eqb s [] then d else s
  | None => d
  end.

(** [now - a] for the integer [now] and a number [a] that is a double:
    the double nearest to the difference. *)
Definition subtract_from (now : Z) (a : number) : number :=
  match a with
  | NaN => NaN
  | Inf negative => Inf (negb negative)
  | Num m e =>
      let p := if 0 <=? e then now - m * 10 ^ e else now * 10 ^ (- e) - m in
      let q := if 0 <=? e then 1 else 10 ^ (- e) in
      if 0 <=? p then to_double p q else negate (to_double (- p) q)
  end.

(** [a > k] for a number [a] that is a double and an integer [k]; any
    comparison with NaN is false. *)
Definition greater_than (a : number) (k : Z) : bool :=
  match a with
  | NaN => false
  | Inf negative => negb negative
  | Num m e => if 0 <=? e then k <? m * 10 ^ e else k * 10 ^ (- e) <? m
  end.

(** [now - authDate > VALID_AUTH_WINDOW] *)
Definition exceeds_window (now : Z) (authDate : number) : bool :=
  greater_than (subtract_from now authDate) VALID_AUTH_WINDOW.

(** A number that is not negative. *)
Definition not_negative (n : number) : Prop :=
  match n with
  | Num m _ => 0 <= m
  | NaN => False
  | Inf negative => negative = false
  end.

(** The spacing of doubles, for a number in the form [Number_] and
    [to_double] give: the exponent is not positive, and from 256 on in
    magnitude the value is a multiple of [2 ^ -44]. *)
Definition double_grain (n : number) : Prop :=
  match n with
  | Num m e =>
      e <= 0 /\
      (256 * 10 ^ (- e) <= Z.abs m -> exists g, m * 2 ^ 44 = g * 10 ^ (- e))
  | NaN | Inf _ => True
  end.

Definition reject (code : string) (status : Z) : Response :=
  cors (json (VObj [(str "ok", VBool false); (str "error", VStr (str code))])
             status).

(** The user of an accepted payload: null, or the five listed properties. *)
Definition user_claims (user : value) : value :=
  if truthy user then
    VObj [ (str "id", get_prop user (str "id"));
           (str "first_name", get_prop user (str "first_name"));
           (str "last_name", get_prop user (str "last_name"));
           (str "username", get_prop user (str "username"));
           (str "language_code", get_prop user (str "language_code")) ]
  else VNull.

(** Lines 84 to 89: [user] is null when the field is missing or empty
    and when [JSON.parse] throws, and the parsed value otherwise. *)
Definition parse_user (field : option jsstring) : value :=
  match field with
  | None => VNull
  | Some text =>
      if str_eqb text [] then VNull
      else match JSON_parse text with
           | Some v => v
           | None => VNull
           end
  end.

(** [handleValidate] after [const parsed = parseInitData(initData)] (lines
    61 to 103), for the bot token and the parsed payload; [now] is
    [Math.floor(Date.now() / 1000)].  The answer is [None] only where
    [Number_] is, and [Number_] always answers. *)
Definition verify (botToken : jsstring) (parsed : URLSearchParams) (now : Z)
    : option Response :=
  let hash := get parsed (str "hash") in
  let authDate := Number_ (or_default (get parsed (str "auth_date")) (str "0")) in
  match hash with
  | None => Some (reject "HASH_MISSING" 400)
  | Some hash =>
      if str_eqb hash [] then Some (reject "HASH_MISSING" 400) else
      match authDate with
      | None => None
      | Some authDate =>
          if exceeds_window now authDate
          then Some (reject "DATA_EXPIRED" 401)
          else
            let dataCheckString := buildDataCheckString parsed in
            let secretKey := telegramWebAppSecretKey botToken in
            let expectedHash := hmacHex secretKey dataCheckString in
            if negb (timingSafeEqual hash expectedHash)
            then Some (reject "INVALID_SIGNATURE" 401)
            else
              let user := parse_user (get parsed (str "user")) in
              Some (cors (json (VObj [ (str "ok", VBool true);
                                       (str "user", user_claims user);
                                       (str "auth_date", VNum authDate) ])
                               200))
      end
  end.

Definition handleValidate (request : Request) (env : Env) (now : Z)
    : option Response :=
  match BOT_TOKEN env with
  | None => Some (reject "SERVER_CONFIG_ERROR" 500)
  | Some botToken =>
      if str_eqb botToken [] then Some (reject "SERVER_CONFIG_ERROR" 500) else
      match JSON_parse (body_text request) with
      | None => Some (reject "INVALID_JSON" 400)
      | Some body =>
          match get_prop body (str "initData") with
          | VStr initData =>
              if str_eqb initData []
              then Some (reject "INIT_DATA_REQUIRED" 400)
              else verify botToken (parseInitData initData) now
          | _ => Some (reject "INIT_DATA_REQUIRED" 400)
          end
      end
  end.

(** The error codes of the answers of [handleValidate]. *)
Definition error_codes : list jsstring :=
  [ str "SERVER_CONFIG_ERROR"; str "INVALID_JSON"; str "INIT_DATA_REQUIRED";
    str "HASH_MISSING"; str "DATA_EXPIRED"; str "INVALID_SIGNATURE" ].

(** What a trusted signer puts in the hash field of a payload: the
    lowercase hex HMAC-SHA256 of the canonical string under the derived
    key. *)
Definition signature (botToken : jsstring) (parsed : URLSearchParams)
    : jsstring :=
  hmacHex (telegramWebAppSecretKey botToken) (buildDataCheckString parsed).

(** The accepted response for a user value and an auth date. *)
Definition accepted (user : value) (authDate : number) : Response :=
  cors (json (VObj [ (str "ok", VBool true);
                     (str "user", user);
                     (str "auth_date", VNum authDate) ])
             200).

(** The value of [s] with the character at position [i] replaced by [c]. *)
Definition mutate (s : jsstring) (i : nat) (c : Z) : jsstring :=
  firstn i s ++ c :: skipn (S i) s.

(** The pairs of a payload named [k], in their order. *)
Definition pairs_named (k : jsstring) (l : list (jsstring * jsstring))
    : list (jsstring * jsstring) :=
  filter (fun kv => str_eqb (fst kv) k) l.

(** The pairs of a payload not named hash, in their order. *)
Definition signed_pairs (params : URLSearchParams)
    : list (jsstring * jsstring) :=
  filter (fun kv => negb (str_eqb (fst kv) (str "hash"))) params.

(** [a] does not come after [b] in the order of the comparator. *)
Definition key_le (a b : jsstring * jsstring) : Prop :=
  str_ltb (fst b) (fst a) = false.

Arguments SHA256.hmac : simpl never.
Arguments SHA256.sha256 : simpl never.
Arguments hmacHex : simpl never.
Arguments telegramWebAppSecretKey : simpl never.
Arguments buildDataCheckString : simpl never.
Arguments JSON_parse : simpl never.
Arguments Number_ : simpl never.
Arguments parseInitData : simpl never.
Arguments str : simpl never.

(** ** Sample payloads *)

Module Sample.

(** A repeated key, its two pairs in either order. *)
Definition repeated_12 : URLSearchParams :=
  parseInitData (str "a=1&a=2&hash=x").
Definition repeated_21 : URLSearchParams :=
  parseInitData (str "a=2&a=1&hash=x").

(** A pair that occurs twice, in two orders of the payload. *)
Definition twice_aba : URLSearchParams :=
  parseInitData (str "a=1&b=2&a=1&hash=x").
Definition twice_baa : URLSearchParams :=
  parseInitData (str "hash=y&b=2&a=1&a=1").

(** The bot token and environment of the examples. *)
Definition token : jsstring := str "testtoken".
Definition env : Env := {| BOT_TOKEN := Some token |}.

(** The request whose body is the JSON object with the one property
    initData, for a [raw] that needs no escaping. *)
Definition request (raw : jsstring) : Request :=
  {| body_text := quoted "{'initData':'" ++ raw ++ quoted "'}" |}.

(** A payload with the hash a signer holding [token] gives it. *)
Definition signed_raw : jsstring :=
  str "auth_date=1700000000&query_id=AA&user=%7B%22id%22%3A1%7D&hash=7d8d236aa74c0791334dcc4648406257f0493de6487e540b7a339d3fa1900150".
Definition signed : URLSearchParams := parseInitData signed_raw.

(** The same fields with the hash a signer holding the empty secret gives
    them. *)
Definition unkeyed_raw : jsstring :=
  str "auth_date=1700000000&query_id=AA&user=%7B%22id%22%3A1%7D&hash=a6182532b1c44b01d85a38fae3a97f21cead7e6a3daff4f692d6eb622b199b4f".
Definition unkeyed : URLSearchParams := parseInitData unkeyed_raw.

(** A signed payload whose auth_date has a fraction. *)
Definition halfway_raw : jsstring :=
  str "auth_date=1700000000.5&query_id=AA&hash=ec4c979f4971073b3f8c2b617ee3eb363d9ba262aa035f97a016a54e4b237e20".
Definition halfway : URLSearchParams := parseInitData halfway_raw.

(** A payload with a hash that is not its signature. *)
Definition forged_raw : jsstring :=
  str "auth_date=1700000000&query_id=AA&hash=00".
Definition forged : URLSearchParams := parseInitData forged_raw.

(** Separators only: no pair can be read from it. *)
Definition separators_raw : jsstring := str "&&&".

(** Pairs, none of them named hash. *)
Definition no_hash_raw : jsstring := str "auth_date=1700000000&query_id=AA".

(** A signed payload whose user field is not JSON. *)
Definition bad_user_raw : jsstring :=
  str "auth_date=1700000000&query_id=AA&user=%7Bbad&hash=5f8de182b760c8025e22aa4638b2a660fd0eef9e56398c32df9a07f90346bfdf".
Definition bad_user : URLSearchParams := parseInitData bad_user_raw.

(** A signed payload whose user has a property outside the five listed:
    the user field is the JSON object with id 1, first_name Ann and
    is_admin true. *)
Definition admin_raw : jsstring :=
  str "auth_date=1700000000&user=%7B%22id%22%3A1%2C%22first_name%22%3A%22Ann%22%2C%22is_admin%22%3Atrue%7D&hash=5b8e971130e1fc4af130f26f20b0f4ee4436a37150948627a8bf0b6aea0a996c".
Definition admin : URLSearchParams := parseInitData admin_raw.

(** [signed] with the first digit of its auth_date, the first field,
    turned into 0. *)
Definition tampered_date : URLSearchParams :=
  (str "auth_date", mutate (str "1700000000") 0 48) :: tl signed.

(** The fields of [signed] before and after its query_id. *)
Definition signed_before : URLSearchParams :=
  [(str "auth_date", str "1700000000")].
Definition signed_after : URLSearchParams :=
  [ (str "user", quoted "{'id':1}");
    (str "hash",
     str "7d8d236aa74c0791334dcc4648406257f0493de6487e540b7a339d3fa1900150") ].

(** Repeated keys: a, auth_date, user and hash each occur twice; the
    first hash is the signature of all the other pairs. *)
Definition repeated_raw : jsstring :=
  str "b=2&a=2&hash=df3cb5250fe955bf1d2835dc777dd021c716487e3c7a74cc172e7eee7ef87933&a=1&auth_date=1700000000&hash=00&auth_date=1&user=%7B%22id%22%3A1%7D&user=x".
Definition repeated : URLSearchParams := parseInitData repeated_raw.

End Sample.

(** ** The router: [fetch] of [src/worker/src/index.js] *)

(** The request as [fetch] reads it: [request.method], the pathname of
    [new URL(request.url)], and the request whose body [handleValidate]
    reads. *)
Record Incoming := {
  req_method : jsstring;
  req_pathname : jsstring;
  req_request : Request
}.

(** [new Response(null, { status: 204 })]: a response without a body,
    written with the body undefined. *)
Definition no_content : Response :=
  {| resp_body := VUndefined; resp_status := 204 |}.

(** [fetch(request, env)], with [now_ms] for [Date.now()].  The [catch]
    branch answers INTERNAL_SERVER_ERROR when a platform call throws; no
    call of this model does. *)
Definition fetch (request : Incoming) (env : Env) (now_ms : Z)
    : option Response :=
  if str_eqb (req_method request) (str "OPTIONS") then Some (cors no_content)
  else if str_eqb (req_pathname request) (str "/api/health") then
    Some (cors (json (VObj [ (str "ok", VBool true);
                             (str "ts", VNum (Num now_ms 0)) ]) 200))
  else if str_eqb (req_pathname request) (str "/api/validate")
          && str_eqb (req_method request) (str "POST") then
    handleValidate (req_request request) env (now_ms / 1000)
  else Some (reject "NOT_FOUND" 404).

(** ** Response headers: [json] and [cors] *)

(** A header list, in order; names are matched without regard to ASCII
    case. *)
Definition Headers := list (jsstring * jsstring).

Definition lower (c : Z) : Z := if in_range 65 90 c then c + 32 else c.

Definition same_name (a b : jsstring) : bool :=
  str_eqb (map lower a) (map lower b).

(** [headers.get(name)]: the values of the headers of that name, joined
    by a comma and a space, or null when there is none. *)
Definition Headers_get (h : Headers) (name : jsstring) : option jsstring :=
  match filter (fun kv => same_name (fst kv) name) h with
  | [] => None
  | found => Some (join (str ", ") (map snd found))
  end.

(** [headers.set(name, value)]: the first header of that name takes the
    value and the others of that name are removed; without one, the
    header is appended. *)
Fixpoint Headers_set (h : Headers) (name value : jsstring) : Headers :=
  match h with
  | [] => [(name, value)]
  | (k, v) :: rest =>
      if same_name k name
      then (k, value) :: filter (fun kv => negb (same_name (fst kv) name)) rest
      else (k, v) :: Headers_set rest name value
  end.

(** The headers [json] gives its response. *)
Definition json_headers : Headers :=
  [(str "Content-Type", str "application/json; charset=utf-8")].

(** The headers of [cors(resp)], from those of [resp]. *)
Definition cors_headers (h : Headers) : Headers :=
  let headers := h in
  let headers := Headers_set headers (str "Access-Control-Allow-Origin")
                             (str "*") in
  let headers := Headers_set headers (str "Access-Control-Allow-Methods")
                             (str "GET,POST,OPTIONS") in
  Headers_set headers (str "Access-Control-Allow-Headers")
              (str "Content-Type").

(** ** Hex strings *)

Definition is_byte (b : Z) : Prop := 0 <= b < 256.

Definition is_lower_hex (c : Z) : bool := in_range 48 57 c || in_range 97 102 c.

(** Reading a hex string back into bytes. *)
Fixpoint hex_bytes (s : jsstring) : option (list Z) :=
  match s with
  | [] => Some []
  | h :: l :: rest =>
      match hex_value h, hex_value l, hex_bytes rest with
      | Some x, Some y, Some bs => Some (16 * x + y :: bs)
      | _, _, _ => None
      end
  | _ => None
  end.

(** ** The first worker: [src/front/app.js] *)

Module MVP.

(** [toHex] as written there: a loop appending to a string. *)
Definition toHex (bytes : list Z) : jsstring :=
  fold_left (fun out b => out ++ padStart0 2 (toString16 b)) bytes [].

Definition hmacHex (keyBytes : list Z) (data : jsstring) : jsstring :=
  toHex (SHA256.hmac keyBytes (encodeUtf8 data)).

(** [Object.fromEntries(parsed.entries())]: each pair defines the
    property of its name, a later pair replacing the value of an earlier
    one.  (The order of the properties is that of first definition; the
    order JavaScript gives to integer-like names is not modelled.) *)
Definition Object_fromEntries (entries : list (jsstring * jsstring))
    : list (jsstring * value) :=
  fold_left (fun obj kv => set_prop obj (fst kv) (VStr (snd kv))) entries [].

Definition failure (message : string) (status : Z) : Response :=
  cors (json (VObj [(str "ok", VBool false); (str "error", VStr (str message))])
             status).

(** The body of the [/api/validate] branch after
    [const parsed = parseInitData(initData)] (lines 115 to 148).  Its
    [timingSafeEqual] first checks that both arguments are strings, which
    they are here, and is otherwise that of the second worker. *)
Definition validate (botToken : jsstring) (parsed : URLSearchParams)
    : option Response :=
  match get parsed (str "hash") with
  | None => Some (failure "hash missing in initData" 400)
  | Some hash =>
      if str_eqb hash [] then Some (failure "hash missing in initData" 400)
      else
        let dataCheckString := buildDataCheckString parsed in
        let secretKey := telegramWebAppSecretKey botToken in
        let expectedHash := hmacHex secretKey dataCheckString in
        if negb (timingSafeEqual hash expectedHash)
        then Some (failure "initData signature invalid" 401)
        else
          match Number_ (or_default (get parsed (str "auth_date")) (str "0"))
          with
          | None => None
          | Some authDate =>
              let user := parse_user (get parsed (str "user")) in
              Some (cors (json (VObj [ (str "ok", VBool true);
                                       (str "auth_date", VNum authDate);
                                       (str "user", user);
                                       (str "raw",
                                        VObj (Object_fromEntries parsed)) ])
                               200))
          end
  end.

(** [fetch(request, env)] of the first worker. *)
Definition fetch (request : Incoming) (env : Env) (now_ms : Z)
    : option Response :=
  if str_eqb (req_method request) (str "OPTIONS") then Some (cors no_content)
  else if str_eqb (req_pathname request) (str "/api/health") then
    Some (cors (json (VObj [ (str "ok", VBool true);
                             (str "ts", VNum (Num now_ms 0)) ]) 200))
  else if str_eqb (req_pathname request) (str "/api/validate")
          && str_eqb (req_method request) (str "POST") then
    match BOT_TOKEN env with
    | None => Some (failure "BOT_TOKEN secret is not set" 500)
    | Some botToken =>
        if str_eqb botToken []
        then Some (failure "BOT_TOKEN secret is not set" 500)
        else
          match JSON_parse (body_text (req_request request)) with
          | None => Some (failure "Invalid JSON" 400)
          | Some body =>
              match get_prop body (str "initData") with
              | VStr initData =>
                  if str_eqb initData []
                  then Some (failure "initData is required" 400)
                  else validate botToken (parseInitData initData)
              | _ => Some (failure "initData is required" 400)
              end
          end
    end
  else Some (failure "Not found" 404).

End MVP.

(** ** Further sample values *)

Module Case.

(** The answer to [Sample.signed] while it is fresh. *)
Definition signed_answer : Response :=
  accepted (VObj [ (str "id", VNum (Num 1 0));
                   (str "first_name", VUndefined);
                   (str "last_name", VUndefined);
                   (str "username", VUndefined);
                   (str "language_code", VUndefined) ])
           (Num 1700000000 0).

(** [Sample.signed] with its hash written in upper case. *)
Definition uppercase_raw : jsstring :=
  str "auth_date=1700000000&query_id=AA&user=%7B%22id%22%3A1%7D&hash=7D8D236AA74C0791334DCC4648406257F0493DE6487E540B7A339D3FA1900150".
Definition uppercase : URLSearchParams := parseInitData uppercase_raw.

(** A signed payload whose auth_date is not a number. *)
Definition undated_raw : jsstring :=
  str "auth_date=abc&query_id=AA&hash=fa0ef6cdb25738911d346a865fda47d1da03cbdb5bdcaae0d6be41040fa54aaa".
Definition undated : URLSearchParams := parseInitData undated_raw.

(** A signed payload whose user is the JSON number 5. *)
Definition number_user_raw : jsstring :=
  str "auth_date=1700000000&user=5&hash=6975c7658dbdfc90e518a3961b69fbde4d5173ebc2db8409227701efcd39c9f4".
Definition number_user : URLSearchParams := parseInitData number_user_raw.

(** The user of an answer whose parsed user has none of the five
    properties. *)
Definition empty_claims : value :=
  VObj [ (str "id", VUndefined);
         (str "first_name", VUndefined);
         (str "last_name", VUndefined);
         (str "username", VUndefined);
         (str "language_code", VUndefined) ].

(** A POST to /api/validate with [Sample.signed_raw] as initData. *)
Definition validate_call : Incoming :=
  {| req_method := str "POST";
     req_pathname := str "/api/validate";
     req_request := Sample.request Sample.signed_raw |}.

End Case.

(** ** Plain fields *)

(** A character that the query-string format does not treat specially in
    a value: ASCII, and none of ampersand, plus and percent; in a key the
    equals sign is excluded too. *)
Definition plain_value_char (c : Z) : bool :=
  in_range 0 127 c && negb (c =? 38) && negb (c =? 43) && negb (c =? 37).

Definition plain_key_char (c : Z) : bool :=
  plain_value_char c && negb (c =? 61).

Definition plain_pair (kv : jsstring * jsstring) : bool :=
  forallb plain_key_char (fst kv) && forallb plain_value_char (snd kv).

(** Whether a string starts with a question mark. *)
Definition starts_with_question (s : jsstring) : bool :=
  match s with
  | c :: _ => c =? 63
  | [] => false
  end.

(** ** Well-formed text *)

(** A Unicode scalar value: a code point that is not a surrogate. *)
Definition scalar (cp : Z) : bool :=
  in_range 0 0xD7FF cp || in_range 0xE000 0x10FFFF cp.

(** A string that is the UTF-16 form of scalar values: no lone
    surrogate. *)
Definition well_formed (s : jsstring) : Prop :=
  exists cps, Forall (fun cp => scalar cp = true) cps /\
              s = flat_map utf16_units cps.

(** One step of the fold of [utf8_decode]. *)
Definition feed (acc : list Z * decoder) (b : Z) : list Z * decoder :=
  let (o, st') := decoder_step (snd acc) b in (fst acc ++ o, st').

(** The states of the UTF-8 decoder that can be reached: the bounds of
    the next byte are continuation bytes, and the code point built so far
    can only be completed into a scalar value. *)
Definition decoder_ok (st : decoder) : Prop :=
  128 <= dec_lower st /\ dec_upper st <= 191 /\
  (dec_needed st = 0
   \/ (dec_needed st = 1 /\ dec_seen st = 0 /\ 2 <= dec_cp st <= 31)
   \/ (dec_needed st = 2 /\ dec_seen st = 0 /\ 0 <= dec_cp st <= 15 /\
       (dec_cp st = 13 -> dec_upper st <= 159))
   \/ (dec_needed st = 2 /\ dec_seen st = 1 /\ 0 <= dec_cp st <= 1023 /\
       (dec_cp st < 864 \/ 896 <= dec_cp st))
   \/ (dec_needed st = 3 /\ dec_seen st = 0 /\ 0 <= dec_cp st <= 4 /\
       (dec_cp st = 0 -> 144 <= dec_lower st) /\
       (dec_cp st = 4 -> dec_upper st <= 143))
   \/ (dec_needed st = 3 /\ dec_seen st = 1 /\ 16 <= dec_cp st <= 271)
   \/ (dec_needed st = 3 /\ dec_seen st = 2 /\ 1024 <= dec_cp st <= 17407)).

(** A pair of well-formed strings. *)
Definition well_formed_pair (kv : jsstring * jsstring) : Prop :=
  well_formed (fst kv) /\ well_formed (snd kv).

(** ** Tampered payloads *)

Module Tampered.

(** [Sample.signed_raw] with the first digit of its auth_date turned
    into 0. *)
Definition date_raw : jsstring :=
  str "auth_date=0700000000&query_id=AA&user=%7B%22id%22%3A1%7D&hash=7d8d236aa74c0791334dcc4648406257f0493de6487e540b7a339d3fa1900150".

(** [Sample.signed_raw] with the second letter of its query_id turned
    into B. *)
Definition query_raw : jsstring :=
  str "auth_date=1700000000&query_id=AB&user=%7B%22id%22%3A1%7D&hash=7d8d236aa74c0791334dcc4648406257f0493de6487e540b7a339d3fa1900150".

(** [Sample.signed_raw] with the hex digits of its percent escapes in
    lower case: another text of the same payload. *)
Definition escapes_raw : jsstring :=
  str "auth_date=1700000000&query_id=AA&user=%7b%22id%22%3a1%7d&hash=7d8d236aa74c0791334dcc4648406257f0493de6487e540b7a339d3fa1900150".

End Tampered.

(* ================================================================== *)
(** * Part II: properties                                              *)
(* ================================================================== *)

(** ** The platform functions on known values *)

Example sha256_abc :
  toHex (SHA256.sha256 (str "abc"))
  = str "ba7816bf8f01cfea414140de5dae2223b00361a396177a9cb410ff61f20015ad".
Proof. vm_compute. reflexivity. Qed.

Example hmac_rfc4231_case_2 :
  hmacHex (str "Jefe") (str "what do ya want for nothing?")
  = str "5bdcc146bf60754e6a042426089575c75a003f089d2739839dec58b964ec3843".
Proof. vm_compute. reflexivity. Qed.

Example URLSearchParams_decodes :
  new_URLSearchParams (str "?a=1&&b&=c&a=%zz+x%41&%E2%82%AC=%C0")
  = [ (str "a", str "1"); (str "b", []); ([], str "c");
      (str "a", str "%zz xA"); ([0x20AC], [0xFFFD]) ].
Proof. vm_compute. reflexivity. Qed.

Example JSON_parse_object :
  JSON_parse (quoted " { 'a' : [1, 2.50e-3, true, null, 'x\u0041'], 'a' : {} } ")
  = Some (VObj [(str "a", VObj [])])
  /\ JSON_parse (quoted "[1, 2.50e-3, 'x\u0041']")
      = Some (VArr [VNum (Num 1 0); VNum (Num 250 (-5)); VStr (str "xA")])
  /\ JSON_parse (quoted "{'id':1,}") = None.
Proof. vm_compute. repeat split. Qed.

Example Number_values :
  map Number_ [str "1700000000"; str ""; str " 12 "; str "-5"; str "abc";
               str "1.5"; str "0x1F"; str "-Infinity"; str "12abc";
               str "9007199254740993"; str "1e400"; str "17e8"]
  = [Some (Num 1700000000 0); Some (Num 0 0); Some (Num 12 0);
     Some (Num (-5) 0); Some NaN; Some (Num 15 (-1)); Some (Num 31 0);
     Some (Inf true); Some NaN; Some (Num 9007199254740992 0);
     Some (Inf false); Some (Num 1700000000 0)].
Proof. vm_compute. reflexivity. Qed.

(** The example of the specification: the signed payload is accepted at
    [now = 1700000100], with user id 1. *)
Example handleValidate_signed_request :
  handleValidate (Sample.request Sample.signed_raw) Sample.env 1700000100
  = Some (accepted (VObj [ (str "id", VNum (Num 1 0));
                           (str "first_name", VUndefined);
                           (str "last_name", VUndefined);
                           (str "username", VUndefined);
                           (str "language_code", VUndefined) ])
                   (Num 1700000000 0)).
Proof. vm_compute. reflexivity. Qed.

(** ** Strings *)

Lemma str_eqb_eq (a b : jsstring) : str_eqb a b = true <-> a = b.
Proof.
  revert b; induction a as [|x a IH]; intros [|y b]; simpl;
    try (split; [discriminate | discriminate]); try tauto.
  rewrite andb_true_iff, Z.eqb_eq, IH.
  split; [intros [-> ->]; reflexivity | intros H; inversion H; auto].
Qed.

Lemma str_eqb_refl (a : jsstring) : str_eqb a a = true.
Proof. now apply str_eqb_eq. Qed.

Lemma str_eqb_neq (a b : jsstring) : str_eqb a b = false <-> a <> b.
Proof.
  rewrite <- str_eqb_eq. destruct (str_eqb a b); split; congruence.
Qed.

Lemma str_eqb_sym (a b : jsstring) : str_eqb a b = str_eqb b a.
Proof.
  destruct (str_eqb a b) eqn:E.
  - apply str_eqb_eq in E; subst; symmetry; apply str_eqb_refl.
  - destruct (str_eqb b a) eqn:E'; [|reflexivity].
    apply str_eqb_eq in E'; subst. now rewrite str_eqb_refl in E.
Qed.

Lemma str_ltb_irrefl (a : jsstring) : str_ltb a a = false.
Proof.
  induction a as [|x a IH]; simpl; [reflexivity|].
  now rewrite Z.ltb_irrefl.
Qed.

Lemma str_ltb_asym (a b : jsstring) :
  str_ltb a b = true -> str_ltb b a = false.
Proof.
  revert b; induction a as [|x a IH]; intros [|y b]; simpl; try congruence.
  destruct (x <? y) eqn:Hxy, (y <? x) eqn:Hyx; try congruence; try lia.
  apply IH.
Qed.

Lemma str_ltb_trichotomy (a b : jsstring) :
  str_ltb a b = false -> str_ltb b a = false -> a = b.
Proof.
  revert b; induction a as [|x a IH]; intros [|y b]; simpl; try congruence.
  destruct (x <? y) eqn:Hxy, (y <? x) eqn:Hyx; try congruence.
  intros H1 H2. assert (x = y) by lia. subst. f_equal. now apply IH.
Qed.

Lemma str_ltb_trans (a b c : jsstring) :
  str_ltb a b = true -> str_ltb b c = true -> str_ltb a c = true.
Proof.
  revert b c; induction a as [|x a IH]; intros [|y b] [|z c]; simpl;
    try congruence.
  destruct (x <? y) eqn:Hxy, (y <? x) eqn:Hyx, (y <? z) eqn:Hyz,
           (z <? y) eqn:Hzy, (x <? z) eqn:Hxz, (z <? x) eqn:Hzx;
    try congruence; try lia.
  apply IH.
Qed.

(** ** timingSafeEqual *)

Lemma compare_loop_spec (a b : jsstring) (n : nat) :
  forall i res seen,
    snd (compare_loop a b n i res seen) = seen ++ seq i n /\
    (fst (compare_loop a b n i res seen) = 0 <->
     res = 0 /\
     forall j, (i <= j < i + n)%nat -> charCodeAt a j = charCodeAt b j).
Proof.
  induction n as [|n IH]; intros i res seen; simpl.
  - rewrite app_nil_r. split; [reflexivity|].
    split; [intros ->; split; [reflexivity | intros j Hj; lia] | tauto].
  - destruct (IH (S i) (Z.lor res (Z.lxor (charCodeAt a i) (charCodeAt b i)))
                 (seen ++ [i])) as [Hs Hr].
    split.
    + rewrite Hs, <- app_assoc. reflexivity.
    + rewrite Hr, Z.lor_eq_0_iff, Z.lxor_eq_0_iff. split.
      * intros [[H0 Hi] Hrest]. split; [exact H0|].
        intros j Hj. destruct (Nat.eq_dec j i) as [->|Hne]; [exact Hi|].
        apply Hrest; lia.
      * intros [H0 Hall]. repeat split; [exact H0 | apply Hall; lia |].
        intros j Hj; apply Hall; lia.
Qed.

Lemma timingSafeEqual_true_iff (a b : jsstring) :
  timingSafeEqual a b = true <-> a = b.
Proof.
  unfold timingSafeEqual, timingSafeEqual_run.
  destruct (Nat.eqb (length a) (length b)) eqn:Hlen; simpl.
  - apply Nat.eqb_eq in Hlen.
    destruct (compare_loop_spec a b (length a) 0 0 []) as [_ Hr].
    destruct (compare_loop a b (length a) 0 0 []) as [res seen]; simpl in *.
    rewrite Z.eqb_eq, Hr. split.
    + intros [_ Hall]. apply (nth_ext a b 0 0 Hlen).
      intros j Hj. apply Hall; lia.
    + intros ->. split; [reflexivity | intros; reflexivity].
  - apply Nat.eqb_neq in Hlen. split; [discriminate|].
    intros ->. now elim Hlen.
Qed.

Lemma timingSafeEqual_refl (a : jsstring) : timingSafeEqual a a = true.
Proof. now apply timingSafeEqual_true_iff. Qed.

Lemma timingSafeEqual_false_iff (a b : jsstring) :
  timingSafeEqual a b = false <-> a <> b.
Proof.
  rewrite <- timingSafeEqual_true_iff.
  destruct (timingSafeEqual a b); split; congruence.
Qed.

(** C6: [timingSafeEqual(a, b)] is true exactly when [a] and [b] are the
    same string; when the lengths differ it answers false and its loop
    reads no position; when they are equal the loop reads every position
    [0 .. a.length - 1], in order, wherever the strings differ. *)
Theorem timingSafeEqual_correct_full_scan (a b : jsstring) :
  (timingSafeEqual a b = true <-> a = b) /\
  timingSafeEqual_run a b =
    if Nat.eqb (length a) (length b)
    then (str_eqb a b, seq 0 (length a))
    else (false, []).
Proof.
  split; [apply timingSafeEqual_true_iff|].
  pose proof (timingSafeEqual_true_iff a b) as Hiff.
  unfold timingSafeEqual, timingSafeEqual_run in *.
  destruct (Nat.eqb (length a) (length b)); simpl in *; [|reflexivity].
  destruct (compare_loop_spec a b (length a) 0 0 []) as [Hs _].
  destruct (compare_loop a b (length a) 0 0 []) as [res seen]; simpl in *.
  subst seen. f_equal.
  destruct (res =? 0) eqn:E.
  - symmetry. apply str_eqb_eq. now apply Hiff.
  - symmetry. apply str_eqb_neq. intros Heq. apply Hiff in Heq. congruence.
Qed.

(** ** The canonical string *)

Lemma compare_keys_le (a b : jsstring * jsstring) :
  (compare_keys a b <=? 0) = negb (str_ltb (fst b) (fst a)).
Proof.
  unfold compare_keys.
  destruct (str_ltb (fst a) (fst b)) eqn:Hab.
  - now rewrite (str_ltb_asym _ _ Hab).
  - now destruct (str_ltb (fst b) (fst a)).
Qed.

Lemma key_le_trans (a b c : jsstring * jsstring) :
  key_le a b -> key_le b c -> key_le a c.
Proof.
  unfold key_le. intros Hba Hcb.
  destruct (str_ltb (fst c) (fst a)) eqn:Hca; [exfalso | reflexivity].
  destruct (str_ltb (fst a) (fst b)) eqn:Hab.
  - rewrite (str_ltb_trans _ _ _ Hca Hab) in Hcb. discriminate.
  - rewrite (str_ltb_trichotomy _ _ Hab Hba) in Hca. congruence.
Qed.

Lemma collect_entries_filter (params : URLSearchParams) :
  collect_entries params = signed_pairs params.
Proof.
  unfold collect_entries, signed_pairs.
  enough (H : forall acc,
             fold_left
               (fun entries kv =>
                  if str_eqb (fst kv) (str "hash") then entries
                  else entries ++ [kv]) params acc
             = acc ++ filter (fun kv => negb (str_eqb (fst kv) (str "hash")))
                             params)
    by apply (H []).
  induction params as [|kv params IH]; intros acc; simpl.
  - now rewrite app_nil_r.
  - rewrite IH. destruct (str_eqb (fst kv) (str "hash")); simpl;
      [reflexivity | now rewrite <- app_assoc].
Qed.

Lemma sort_insert_perm (x : jsstring * jsstring) l :
  Permutation (sort_insert compare_keys x l) (x :: l).
Proof.
  induction l as [|y l IH]; simpl; [reflexivity|].
  destruct (compare_keys x y <=? 0); [reflexivity|].
  rewrite IH. apply perm_swap.
Qed.

Lemma Array_sort_perm l : Permutation (Array_sort compare_keys l) l.
Proof.
  induction l as [|x l IH]; simpl; [constructor|].
  rewrite sort_insert_perm. now constructor.
Qed.

Lemma sort_insert_sorted (x : jsstring * jsstring) l :
  StronglySorted key_le l -> StronglySorted key_le (sort_insert compare_keys x l).
Proof.
  induction 1 as [|y l Hs IH Hall]; simpl.
  - repeat constructor.
  - rewrite compare_keys_le.
    destruct (str_ltb (fst y) (fst x)) eqn:Hyx; simpl.
    + constructor; [exact IH|].
      apply (Permutation_Forall (Permutation_sym (sort_insert_perm x l))).
      constructor; [|exact Hall].
      unfold key_le. now apply str_ltb_asym.
    + constructor; [now constructor|].
      constructor; [exact Hyx|].
      eapply Forall_impl; [|exact Hall].
      intros z Hz. now apply (key_le_trans x y z).
Qed.

Lemma Array_sort_sorted l : StronglySorted key_le (Array_sort compare_keys l).
Proof.
  induction l as [|x l IH]; simpl; [constructor|].
  now apply sort_insert_sorted.
Qed.

(** Stability: the sort keeps the pairs of each key in their order. *)
Lemma sort_insert_stable (k : jsstring) (x : jsstring * jsstring) l :
  pairs_named k (sort_insert compare_keys x l) = pairs_named k (x :: l).
Proof.
  induction l as [|y l IH]; [reflexivity|].
  cbn [sort_insert]. rewrite compare_keys_le.
  destruct (str_ltb (fst y) (fst x)) eqn:Hyx; simpl; [|reflexivity].
  unfold pairs_named in *. simpl in *. rewrite IH.
  destruct (str_eqb (fst y) k) eqn:Hy, (str_eqb (fst x) k) eqn:Hx;
    try reflexivity.
  apply str_eqb_eq in Hy, Hx. rewrite Hy, Hx, str_ltb_irrefl in Hyx.
  discriminate.
Qed.

Lemma Array_sort_stable (k : jsstring) l :
  pairs_named k (Array_sort compare_keys l) = pairs_named k l.
Proof.
  induction l as [|x l IH]; [reflexivity|].
  simpl Array_sort. rewrite sort_insert_stable.
  unfold pairs_named in *. simpl. now rewrite IH.
Qed.

(** Two sorted lists with the same pairs under every key are equal. *)
Lemma sorted_same_runs l1 :
  forall l2,
    StronglySorted key_le l1 -> StronglySorted key_le l2 ->
    (forall k, pairs_named k l1 = pairs_named k l2) ->
    l1 = l2.
Proof.
  assert (Hnil : forall l, (forall k, pairs_named k l = []) -> l = []).
  { intros [|y l] H; [reflexivity|].
    specialize (H (fst y)). unfold pairs_named in H. simpl in H.
    rewrite str_eqb_refl in H. discriminate. }
  assert (Hhead : forall x l y l',
             StronglySorted key_le (y :: l') ->
             pairs_named (fst x) (x :: l) = pairs_named (fst x) (y :: l') ->
             key_le y x).
  { intros x l y l' Hs H.
    assert (Hin : In x (y :: l')).
    { assert (Hin : In x (pairs_named (fst x) (y :: l'))).
      { rewrite <- H. unfold pairs_named. simpl.
        rewrite str_eqb_refl. now left. }
      unfold pairs_named in Hin. now apply filter_In in Hin. }
    destruct Hin as [->|Hin]; [apply str_ltb_irrefl|].
    apply StronglySorted_inv in Hs. destruct Hs as [_ Hall].
    rewrite Forall_forall in Hall. now apply Hall. }
  induction l1 as [|x l1 IH]; intros l2 Hs1 Hs2 Hruns.
  - symmetry. apply Hnil. intros k. now rewrite <- Hruns.
  - destruct l2 as [|y l2].
    + apply Hnil. intros k. now rewrite Hruns.
    + assert (Hk : fst x = fst y).
      { apply str_ltb_trichotomy.
        - apply (Hhead x l1 y l2 Hs2). apply Hruns.
        - apply (Hhead y l2 x l1 Hs1). symmetry. apply Hruns. }
      pose proof (Hruns (fst x)) as Hx.
      unfold pairs_named in Hx. simpl in Hx.
      rewrite <- Hk, str_eqb_refl in Hx. inversion Hx as [[Hxy Htl]].
      f_equal. apply IH.
      * now apply StronglySorted_inv in Hs1.
      * now apply StronglySorted_inv in Hs2.
      * intros k. specialize (Hruns k). unfold pairs_named in *.
        simpl in Hruns. rewrite <- Hk in Hruns.
        destruct (str_eqb (fst x) k) eqn:E.
        -- apply str_eqb_eq in E. subst k. rewrite <- Hxy in Htl. exact Htl.
        -- exact Hruns.
Qed.

(** The canonical string depends only on the pairs found under each key. *)
Lemma buildDataCheckString_runs (p q : URLSearchParams) :
  (forall k, pairs_named k (signed_pairs p) = pairs_named k (signed_pairs q)) ->
  buildDataCheckString p = buildDataCheckString q.
Proof.
  intros H. unfold buildDataCheckString. rewrite !collect_entries_filter.
  f_equal. f_equal. apply sorted_same_runs; try apply Array_sort_sorted.
  intros k. now rewrite !Array_sort_stable.
Qed.

(** With distinct keys, a key names at most one pair. *)
Lemma pairs_named_NoDup (k : jsstring) l :
  NoDup (map fst l) -> (length (pairs_named k l) <= 1)%nat.
Proof.
  induction l as [|x l IH]; simpl; intros Hnd; [lia|].
  inversion Hnd as [|? ? Hnotin Hnd']; subst.
  destruct (str_eqb (fst x) k) eqn:E; [|now apply IH].
  simpl. apply str_eqb_eq in E. subst k.
  assert (Hnil : pairs_named (fst x) l = []).
  { destruct (pairs_named (fst x) l) as [|z r] eqn:Hz; [reflexivity|].
    exfalso. apply Hnotin.
    assert (Hin : In z (pairs_named (fst x) l)) by (rewrite Hz; now left).
    unfold pairs_named in Hin. apply filter_In in Hin. destruct Hin as [Hin Hk].
    apply str_eqb_eq in Hk. rewrite <- Hk. now apply in_map. }
  rewrite Hnil. simpl. lia.
Qed.

Lemma pairs_named_perm (k : jsstring) l l' :
  Permutation l l' -> Permutation (pairs_named k l) (pairs_named k l').
Proof.
  unfold pairs_named.
  induction 1 as [|x l l' _ IH|x y l|l l' l'' _ IH1 _ IH2]; simpl.
  - constructor.
  - destruct (str_eqb (fst x) k); [now constructor | exact IH].
  - destruct (str_eqb (fst x) k), (str_eqb (fst y) k);
      try reflexivity. apply perm_swap.
  - now transitivity (filter (fun kv => str_eqb (fst kv) k) l').
Qed.

Lemma pairs_named_perm_NoDup (k : jsstring) l l' :
  Permutation l l' -> NoDup (map fst l) ->
  pairs_named k l = pairs_named k l'.
Proof.
  intros Hp Hnd. pose proof (pairs_named_perm k _ _ Hp) as Hpk.
  pose proof (pairs_named_NoDup k l Hnd) as Hlen.
  destruct (pairs_named k l) as [|x [|y r]].
  - apply Permutation_nil in Hpk. now rewrite Hpk.
  - apply Permutation_length_1_inv in Hpk. now rewrite Hpk.
  - simpl in Hlen. lia.
Qed.

(** C5, as the claim states it, fails: two payloads with the same pairs,
    where the two pairs of the repeated key [a] are swapped, have
    different canonical strings. *)
Lemma canonical_string_repeated_key_counterexample :
  Permutation (signed_pairs Sample.repeated_12)
              (signed_pairs Sample.repeated_21) /\
  buildDataCheckString Sample.repeated_12
    <> buildDataCheckString Sample.repeated_21.
Proof.
  split.
  - vm_compute. apply perm_swap.
  - vm_compute. discriminate.
Qed.

(** A list whose members are all equal is determined by its length. *)
Lemma perm_all_equal {A : Type} (a b : list A) :
  Permutation a b ->
  (forall x y, In x a -> In y a -> x = y) ->
  a = b.
Proof.
  revert b. induction a as [|x a IH]; intros b Hp Heq.
  - apply Permutation_nil in Hp. now rewrite Hp.
  - destruct b as [|y b].
    + apply Permutation_sym, Permutation_nil in Hp. discriminate.
    + assert (Hy : x = y).
      { apply Heq; [now left|].
        apply (Permutation_in _ (Permutation_sym Hp)). now left. }
      subst y. f_equal. apply IH.
      * now apply Permutation_cons_inv in Hp.
      * intros u w Hu Hw. apply Heq; now right.
Qed.

(** When a key never comes with two different values, the pairs found
    under a key are the same in any order of the payload. *)
Lemma pairs_named_perm_single_valued (k : jsstring) l l' :
  Permutation l l' ->
  (forall x y, In x l -> In y l -> fst x = fst y -> snd x = snd y) ->
  pairs_named k l = pairs_named k l'.
Proof.
  intros Hp Hv. apply perm_all_equal; [now apply pairs_named_perm|].
  intros [kx vx] [ky vy] Hx Hy. unfold pairs_named in Hx, Hy.
  apply filter_In in Hx, Hy. destruct Hx as [Hx Hkx], Hy as [Hy Hky].
  simpl in Hkx, Hky. apply str_eqb_eq in Hkx, Hky. subst kx ky.
  f_equal. now apply (Hv _ _ Hx Hy).
Qed.

(** C5, amended: two payloads with the same multiset of pairs (ignoring
    the hash field), in any order, have the same canonical string when no
    key other than hash comes with two different values (a pair may be
    repeated). *)
Theorem canonical_string_permutation_invariant (p q : URLSearchParams) :
  Permutation (signed_pairs p) (signed_pairs q) ->
  (forall x y, In x (signed_pairs p) -> In y (signed_pairs p) ->
               fst x = fst y -> snd x = snd y) ->
  buildDataCheckString p = buildDataCheckString q.
Proof.
  intros Hperm Hv. apply buildDataCheckString_runs.
  intros k. now apply pairs_named_perm_single_valued.
Qed.

Lemma canonical_string_permutation_invariant_witness :
  Permutation (signed_pairs Sample.twice_aba) (signed_pairs Sample.twice_baa) /\
  (forall x y, In x (signed_pairs Sample.twice_aba) ->
               In y (signed_pairs Sample.twice_aba) ->
               fst x = fst y -> snd x = snd y) /\
  buildDataCheckString Sample.twice_aba = buildDataCheckString Sample.twice_baa.
Proof.
  assert (Hp : Permutation (signed_pairs Sample.twice_aba)
                           (signed_pairs Sample.twice_baa)).
  { vm_compute. apply perm_swap. }
  assert (Hv : forall x y, In x (signed_pairs Sample.twice_aba) ->
                           In y (signed_pairs Sample.twice_aba) ->
                           fst x = fst y -> snd x = snd y).
  { vm_compute.
    intros x y [<-|[<-|[<-|[]]]] [<-|[<-|[<-|[]]]] H;
      solve [reflexivity | discriminate H]. }
  exact (conj Hp (conj Hv
           (canonical_string_permutation_invariant _ _ Hp Hv))).
Defined.

(** ** Repeated keys *)

Lemma get_first_named (params : URLSearchParams) (k : jsstring) :
  get params k = hd_error (map snd (pairs_named k params)).
Proof.
  induction params as [|[k' v] params IH]; simpl; [reflexivity|].
  destruct (str_eqb k' k); [reflexivity | exact IH].
Qed.

(** The verifier reads the payload through the canonical string and the
    [get] of hash, auth_date and user only. *)
Lemma verify_reads (token : jsstring) (p q : URLSearchParams) (now : Z) :
  get q (str "hash") = get p (str "hash") ->
  get q (str "auth_date") = get p (str "auth_date") ->
  get q (str "user") = get p (str "user") ->
  buildDataCheckString q = buildDataCheckString p ->
  verify token q now = verify token p now.
Proof.
  intros Hh Ha Hu Hd. unfold verify. now rewrite Hh, Ha, Hu, Hd.
Qed.

(** C10: the canonical string is made of every pair of the payload except
    those named hash, each key's pairs in their input order, sorted by
    key; [get] gives the value of the first pair of a name; and the
    verifier reads hash, auth_date and user through [get]: its answer is
    the same on any payload with the same canonical string and the same
    first hash, auth_date and user. *)
Theorem repeated_keys_policy (params : URLSearchParams) (k : jsstring)
    (token : jsstring) (now : Z) :
  buildDataCheckString params
    = join [10] (map render_entry
                     (Array_sort compare_keys (signed_pairs params))) /\
  Permutation (Array_sort compare_keys (signed_pairs params))
              (signed_pairs params) /\
  StronglySorted key_le (Array_sort compare_keys (signed_pairs params)) /\
  pairs_named k (Array_sort compare_keys (signed_pairs params))
    = pairs_named k (signed_pairs params) /\
  get params k = hd_error (map snd (pairs_named k params)) /\
  (forall q : URLSearchParams,
     get q (str "hash") = get params (str "hash") ->
     get q (str "auth_date") = get params (str "auth_date") ->
     get q (str "user") = get params (str "user") ->
     buildDataCheckString q = buildDataCheckString params ->
     verify token q now = verify token params now).
Proof.
  repeat split.
  - unfold buildDataCheckString. now rewrite collect_entries_filter.
  - apply Array_sort_perm.
  - apply Array_sort_sorted.
  - apply Array_sort_stable.
  - apply get_first_named.
  - intros q. apply verify_reads.
Qed.

Lemma repeated_keys_policy_witness :
  buildDataCheckString Sample.repeated
    = join [10] [ str "a=2"; str "a=1"; str "auth_date=1700000000";
                  str "auth_date=1"; str "b=2"; quoted "user={'id':1}";
                  str "user=x" ] /\
  get Sample.repeated (str "hash")
    = Some (signature Sample.token Sample.repeated) /\
  get Sample.repeated (str "auth_date") = Some (str "1700000000") /\
  get Sample.repeated (str "user") = Some (quoted "{'id':1}") /\
  verify Sample.token Sample.repeated 1700000100
    = Some (accepted (VObj [ (str "id", VNum (Num 1 0));
                             (str "first_name", VUndefined);
                             (str "last_name", VUndefined);
                             (str "username", VUndefined);
                             (str "language_code", VUndefined) ])
                     (Num 1700000000 0)).
Proof.
  destruct (repeated_keys_policy Sample.repeated (str "hash")
              Sample.token 1700000100) as [Hs [_ [_ [_ [Hh _]]]]].
  destruct (repeated_keys_policy Sample.repeated (str "auth_date")
              Sample.token 1700000100) as [_ [_ [_ [_ [Ha _]]]]].
  destruct (repeated_keys_policy Sample.repeated (str "user")
              Sample.token 1700000100) as [_ [_ [_ [_ [Hu _]]]]].
  rewrite Hs, Hh, Ha, Hu. vm_compute. repeat split.
Defined.

(** ** Signatures are 64 hex digits *)

Lemma round_length (st : list Z) (kw : Z * Z) :
  length st = 8%nat -> length (SHA256.round st kw) = 8%nat.
Proof.
  intros H.
  do 9 (destruct st as [|? st]; try discriminate H).
  reflexivity.
Qed.

Lemma compress_length (h block : list Z) :
  length h = 8%nat -> length (SHA256.compress h block) = 8%nat.
Proof.
  intros H. unfold SHA256.compress.
  rewrite length_map, length_combine.
  enough (Hst : forall l st, length st = 8%nat ->
                  length (fold_left SHA256.round l st) = 8%nat).
  { rewrite (Hst _ _ H), H. reflexivity. }
  induction l as [|kw l IH]; intros st Hl; simpl; [exact Hl|].
  apply IH. now apply round_length.
Qed.

Lemma sha256_length (msg : list Z) : length (SHA256.sha256 msg) = 32%nat.
Proof.
  unfold SHA256.sha256.
  generalize (SHA256.blocks (length (SHA256.pad msg) / 64) (SHA256.pad msg)).
  intros bl.
  assert (H : length (fold_left SHA256.compress bl SHA256.H0) = 8%nat).
  { assert (H0 : length SHA256.H0 = 8%nat) by reflexivity.
    revert H0. generalize SHA256.H0.
    induction bl as [|b bl IH]; intros h Hh; simpl; [exact Hh|].
    apply IH. now apply compress_length. }
  revert H. generalize (fold_left SHA256.compress bl SHA256.H0).
  intros ws Hws.
  do 9 (destruct ws as [|? ws]; try discriminate Hws).
  reflexivity.
Qed.

Lemma toHex_length (bytes : list Z) :
  length (toHex bytes) = (2 * length bytes)%nat.
Proof.
  unfold toHex.
  induction bytes as [|b bytes IH]; [reflexivity|].
  assert (Hb : length (padStart0 2 (toString16 b)) = 2%nat).
  { unfold padStart0, toString16. destruct (b <? 16); reflexivity. }
  destruct bytes as [|b' bytes].
  - simpl. rewrite Hb. reflexivity.
  - change (join [] (map (fun b0 => padStart0 2 (toString16 b0)) (b :: b' :: bytes)))
      with (padStart0 2 (toString16 b) ++ [] ++
            join [] (map (fun b0 => padStart0 2 (toString16 b0)) (b' :: bytes))).
    rewrite !length_app, Hb, IH. simpl. lia.
Qed.

Lemma hmacHex_length (key : list Z) (data : jsstring) :
  length (hmacHex key data) = 64%nat.
Proof.
  unfold hmacHex, SHA256.hmac. now rewrite toHex_length, sha256_length.
Qed.

Lemma signature_not_empty (token : jsstring) (parsed : URLSearchParams) :
  str_eqb (signature token parsed) [] = false.
Proof.
  apply str_eqb_neq. intros H.
  pose proof (hmacHex_length (telegramWebAppSecretKey token)
                             (buildDataCheckString parsed)) as Hl.
  unfold signature in H. rewrite H in Hl. discriminate Hl.
Qed.

(** ** Doubles *)

Lemma pow2_pos (n : Z) : 0 <= n -> 0 < 2 ^ n.
Proof. intros H. now apply Z.pow_pos_nonneg. Qed.

Lemma pow2_add (a b : Z) : 0 <= a -> 0 <= b -> 2 ^ (a + b) = 2 ^ a * 2 ^ b.
Proof. intros Ha Hb. now apply Z.pow_add_r. Qed.

(** [at_least_pow2 p q d] compares [2 ^ d] with [p / q], whatever the
    scaling that clears the negative exponent. *)
Lemma at_least_pow2_spec (p q d u v : Z) :
  0 <= u -> 0 <= v -> v - u = d ->
  at_least_pow2 p q d = true <-> q * 2 ^ v <= p * 2 ^ u.
Proof.
  intros Hu Hv Hd. unfold at_least_pow2.
  destruct (0 <=? d) eqn:E.
  - apply Z.leb_le in E. rewrite Z.leb_le.
    replace v with (d + u) by lia. rewrite (pow2_add d u) by lia.
    pose proof (pow2_pos u Hu). split; intros H'; nia.
  - apply Z.leb_gt in E. rewrite Z.leb_le.
    replace u with (- d + v) by lia. rewrite (pow2_add (- d) v) by lia.
    pose proof (pow2_pos v Hv). split; intros H'; nia.
Qed.

Lemma at_least_pow2_mono (p q d d' : Z) :
  0 < q -> d <= d' ->
  at_least_pow2 p q d' = true -> at_least_pow2 p q d = true.
Proof.
  intros Hq Hdd H.
  set (u := Z.max 0 (- d)).
  rewrite (at_least_pow2_spec p q d' u (u + d')) in H by lia.
  rewrite (at_least_pow2_spec p q d u (u + d)) by lia.
  replace (u + d') with ((u + d) + (d' - d)) in H by lia.
  rewrite (pow2_add (u + d) (d' - d)) in H by lia.
  pose proof (pow2_pos (d' - d) ltac:(lia)).
  pose proof (pow2_pos (u + d) ltac:(lia)).
  nia.
Qed.

Lemma log2_floor_lower (p q : Z) :
  0 < p -> 0 < q -> at_least_pow2 p q (log2_floor p q) = true.
Proof.
  intros Hp Hq. unfold log2_floor.
  destruct (at_least_pow2 p q (Z.log2 p - Z.log2 q)) eqn:E; [exact E|].
  pose proof (Z.log2_spec p Hp) as [Hpl _].
  pose proof (Z.log2_spec q Hq) as [_ Hqu].
  pose proof (Z.log2_nonneg p). pose proof (Z.log2_nonneg q).
  rewrite (at_least_pow2_spec p q _ (Z.log2 q + 1) (Z.log2 p)) by lia.
  replace (Z.succ (Z.log2 q)) with (Z.log2 q + 1) in Hqu by lia.
  pose proof (pow2_pos (Z.log2 p) ltac:(lia)).
  pose proof (pow2_pos (Z.log2 q + 1) ltac:(lia)).
  nia.
Qed.

Lemma log2_floor_upper (p q : Z) :
  0 < p -> 0 < q -> at_least_pow2 p q (log2_floor p q + 1) = false.
Proof.
  intros Hp Hq. unfold log2_floor.
  destruct (at_least_pow2 p q (Z.log2 p - Z.log2 q)) eqn:E.
  - pose proof (Z.log2_spec p Hp) as [_ Hpu].
    pose proof (Z.log2_spec q Hq) as [Hql _].
    pose proof (Z.log2_nonneg p). pose proof (Z.log2_nonneg q).
    replace (Z.succ (Z.log2 p)) with (Z.log2 p + 1) in Hpu by lia.
    destruct (at_least_pow2 p q (Z.log2 p - Z.log2 q + 1)) eqn:E'; [|reflexivity].
    rewrite (at_least_pow2_spec p q _ (Z.log2 q) (Z.log2 p + 1)) in E' by lia.
    pose proof (pow2_pos (Z.log2 p + 1) ltac:(lia)).
    pose proof (pow2_pos (Z.log2 q) ltac:(lia)).
    nia.
  - now replace (Z.log2 p - Z.log2 q - 1 + 1) with (Z.log2 p - Z.log2 q) by lia.
Qed.

(** [p / q] against a power of two on either side of its logarithm. *)
Lemma log2_floor_below (p q d u v : Z) :
  0 < p -> 0 < q -> log2_floor p q < d ->
  0 <= u -> 0 <= v -> v - u = d ->
  p * 2 ^ u < q * 2 ^ v.
Proof.
  intros Hp Hq Hd Hu Hv Huv.
  destruct (at_least_pow2 p q d) eqn:E.
  - apply (at_least_pow2_mono p q (log2_floor p q + 1) d Hq) in E; [|lia].
    rewrite log2_floor_upper in E by assumption. discriminate.
  - destruct (Z.lt_ge_cases (p * 2 ^ u) (q * 2 ^ v)) as [H|H]; [exact H|].
    apply (at_least_pow2_spec p q d u v Hu Hv Huv) in H. congruence.
Qed.

Lemma log2_floor_above (p q d u v : Z) :
  0 < p -> 0 < q -> d <= log2_floor p q ->
  0 <= u -> 0 <= v -> v - u = d ->
  q * 2 ^ v <= p * 2 ^ u.
Proof.
  intros Hp Hq Hd Hu Hv Huv.
  apply (at_least_pow2_spec p q d u v Hu Hv Huv).
  apply (at_least_pow2_mono p q d (log2_floor p q) Hq Hd).
  now apply log2_floor_lower.
Qed.

(** Rounding to the nearest integer. *)
Lemma round_half_even_bounds (n d : Z) :
  0 < d ->
  (2 * round_half_even n d - 1) * d <= 2 * n <= (2 * round_half_even n d + 1) * d.
Proof.
  intros Hd. unfold round_half_even.
  pose proof (Z.div_mod n d ltac:(lia)) as Hdm.
  pose proof (Z.mod_pos_bound n d Hd) as Hr.
  destruct (2 * (n mod d) <? d) eqn:E1; [apply Z.ltb_lt in E1; nia|].
  apply Z.ltb_ge in E1.
  destruct (d <? 2 * (n mod d)) eqn:E2; [apply Z.ltb_lt in E2; nia|].
  apply Z.ltb_ge in E2.
  destruct (Z.even (n / d)); nia.
Qed.

Lemma round_half_even_le (n d c : Z) :
  0 < d -> n <= c * d -> round_half_even n d <= c.
Proof.
  intros Hd H. pose proof (round_half_even_bounds n d Hd). nia.
Qed.

Lemma round_half_even_ge (n d c : Z) :
  0 < d -> c * d <= n -> c <= round_half_even n d.
Proof.
  intros Hd H. pose proof (round_half_even_bounds n d Hd). nia.
Qed.

(** Above an even integer [k]: the quotient must pass [k + 1/2]. *)
Lemma round_half_even_above_even (n d k : Z) :
  0 < d -> Z.even k = true ->
  k < round_half_even n d <-> (2 * k + 1) * d < 2 * n.
Proof.
  intros Hd Hk. unfold round_half_even.
  pose proof (Z.div_mod n d ltac:(lia)) as Hdm.
  pose proof (Z.mod_pos_bound n d Hd) as Hr.
  assert (Hcases : n / d < k \/ n / d = k \/ k < n / d) by lia.
  destruct (2 * (n mod d) <? d) eqn:E1.
  { apply Z.ltb_lt in E1. split; intros H; nia. }
  apply Z.ltb_ge in E1.
  destruct (d <? 2 * (n mod d)) eqn:E2.
  { apply Z.ltb_lt in E2. split; intros H; nia. }
  apply Z.ltb_ge in E2.
  destruct (Z.even (n / d)) eqn:E3.
  - split; intros H; nia.
  - destruct Hcases as [Hc|[Hc|Hc]].
    + split; intros H; nia.
    + rewrite Hc in E3. congruence.
    + split; intros H; nia.
Qed.

(** Cancelling the factors of two keeps the value: [m' * 2 ^ k = m * 2 ^ k']
    for the [k'] left of [k]. *)
Lemma reduce_spec (k : nat) (m : Z) :
  let (m', k') := reduce k m in
  (k' <= k)%nat /\
  m = m' * 2 ^ Z.of_nat (k - k') /\
  (k' <> O -> Z.even m' = false) /\
  (0 <= m -> 0 <= m').
Proof.
  revert m. induction k as [|k IH]; intros m; cbn [reduce].
  - repeat split; auto; simpl; lia.
  - destruct (Z.even m) eqn:E.
    + specialize (IH (m / 2)). destruct (reduce k (m / 2)) as [m' k'].
      destruct IH as [Hle [Hm [Hodd Hpos]]].
      assert (H2 : m = 2 * (m / 2)).
      { apply Zeven_bool_iff, Zeven_div2 in E. now rewrite <- Z.div2_div. }
      repeat split; [lia | | exact Hodd |].
      * replace (Z.of_nat (S k - k')) with (Z.of_nat (k - k') + 1) by lia.
        rewrite (pow2_add (Z.of_nat (k - k')) 1) by lia.
        change (2 ^ 1) with 2. lia.
      * intros H0. apply Hpos. apply Z.div_pos; lia.
    + repeat split; [lia | | auto | auto].
      rewrite Nat.sub_diag. simpl. lia.
Qed.

Lemma pow10_split (k : Z) : 0 <= k -> 10 ^ k = 2 ^ k * 5 ^ k.
Proof. intros H. now rewrite <- Z.pow_mul_l. Qed.

Lemma pow5_pos (k : Z) : 0 <= k -> 0 < 5 ^ k.
Proof. intros H. now apply Z.pow_pos_nonneg. Qed.

Lemma pow10_pos (k : Z) : 0 <= k -> 0 < 10 ^ k.
Proof. intros H. now apply Z.pow_pos_nonneg. Qed.

Lemma ltb_iff (a b c d : Z) : (a < b <-> c < d) -> (a <? b) = (c <? d).
Proof.
  intros H. destruct (a <? b) eqn:A, (c <? d) eqn:B; try reflexivity;
    rewrite ?Z.ltb_lt, ?Z.ltb_ge in A, B; lia.
Qed.

(** Comparing [m * 2 ^ t] with an integer. *)
Lemma greater_than_dyadic_neg (m t k : Z) :
  t < 0 ->
  greater_than (dyadic m t) k = (k * 2 ^ (- t) <? m).
Proof.
  intros Ht. unfold dyadic.
  destruct (0 <=? t) eqn:E; [apply Z.leb_le in E; lia|].
  pose proof (reduce_spec (Z.to_nat (- t)) m) as Hr.
  destruct (reduce (Z.to_nat (- t)) m) as [m' k'].
  destruct Hr as [Hle [Hm [_ _]]].
  unfold greater_than.
  assert (Ht' : - t = Z.of_nat k' + Z.of_nat (Z.to_nat (- t) - k')) by lia.
  rewrite Ht'. rewrite (pow2_add (Z.of_nat k')) by lia.
  pose proof (pow2_pos (Z.of_nat k') ltac:(lia)) as H2.
  pose proof (pow2_pos (Z.of_nat (Z.to_nat (- t) - k')) ltac:(lia)) as H2'.
  pose proof (pow5_pos (Z.of_nat k') ltac:(lia)) as H5.
  revert Hm H2'. generalize (2 ^ Z.of_nat (Z.to_nat (- t) - k')).
  intros r Hm Hr. subst m.
  destruct (0 <=? - Z.of_nat k') eqn:E'.
  - apply Z.leb_le in E'. assert (Hk : k' = O) by lia. subst k'.
    simpl Z.of_nat. change (- 0) with 0.
    change (5 ^ 0) with 1. change (10 ^ 0) with 1. change (2 ^ 0) with 1.
    apply ltb_iff. nia.
  - rewrite Z.opp_involutive, (pow10_split (Z.of_nat k')) by lia.
    revert H2 H5. generalize (2 ^ Z.of_nat k'), (5 ^ Z.of_nat k').
    intros a b Ha Hb. apply ltb_iff. nia.
Qed.

Lemma greater_than_dyadic_pos (m t k : Z) :
  0 <= t -> k < 2 ^ 1024 ->
  greater_than (dyadic m t) k = (k <? m * 2 ^ t).
Proof.
  intros Ht Hk. unfold dyadic.
  destruct (0 <=? t) eqn:E; [|apply Z.leb_gt in E; lia].
  destruct (2 ^ 1024 <=? m * 2 ^ t) eqn:E'.
  - apply Z.leb_le in E'. simpl. symmetry. apply Z.ltb_lt. lia.
  - simpl. now rewrite Z.mul_1_r.
Qed.

Lemma dyadic_not_negative (m t : Z) : 0 <= m -> not_negative (dyadic m t).
Proof.
  intros Hm. unfold dyadic. destruct (0 <=? t) eqn:E.
  - destruct (2 ^ 1024 <=? m * 2 ^ t); simpl; [reflexivity|].
    apply Z.leb_le in E. pose proof (pow2_pos t E). nia.
  - pose proof (reduce_spec (Z.to_nat (- t)) m) as Hr.
    destruct (reduce (Z.to_nat (- t)) m) as [m' k'].
    destruct Hr as [_ [_ [_ Hpos]]]. simpl.
    pose proof (pow5_pos (Z.of_nat k') ltac:(lia)). specialize (Hpos Hm). nia.
Qed.

Lemma significand_nonneg (p q : Z) : 0 <= p -> 0 < q -> 0 <= significand p q.
Proof.
  intros Hp Hq. unfold significand.
  destruct (0 <=? quantum p q) eqn:E.
  - apply Z.leb_le in E. pose proof (pow2_pos _ E).
    apply round_half_even_ge; nia.
  - apply Z.leb_gt in E. pose proof (pow2_pos (- quantum p q) ltac:(lia)).
    apply round_half_even_ge; nia.
Qed.

Lemma to_double_not_negative (p q : Z) :
  0 <= p -> 0 < q -> not_negative (to_double p q).
Proof.
  intros Hp Hq. unfold to_double. destruct (p =? 0); [simpl; lia|].
  apply dyadic_not_negative. now apply significand_nonneg.
Qed.

Lemma greater_than_negate (n : number) (k : Z) :
  not_negative n -> 0 <= k -> greater_than (negate n) k = false.
Proof.
  destruct n as [m e| |[|]]; simpl; try tauto; try discriminate.
  intros Hm Hk. destruct (0 <=? e) eqn:E.
  - apply Z.leb_le in E. pose proof (pow10_pos e E). apply Z.ltb_ge. nia.
  - apply Z.leb_gt in E. pose proof (pow10_pos (- e) ltac:(lia)).
    apply Z.ltb_ge. nia.
Qed.

(** The double nearest to [p / q] is greater than 300 exactly when
    [p / q] is greater than [300 + 2 ^ -45]: the doubles next to 300 are
    [2 ^ -44] apart, and the tie goes to 300. *)
Lemma to_double_above_window (p q : Z) :
  0 <= p -> 0 < q ->
  greater_than (to_double p q) VALID_AUTH_WINDOW = true
  <-> (300 * 2 ^ 45 + 1) * q < p * 2 ^ 45.
Proof.
  intros Hp Hq. unfold to_double, VALID_AUTH_WINDOW.
  destruct (p =? 0) eqn:E0.
  { apply Z.eqb_eq in E0. subst p. split; [discriminate | lia]. }
  apply Z.eqb_neq in E0. assert (Hp' : 0 < p) by lia.
  assert (He : log2_floor p q < 8 \/ log2_floor p q = 8 \/ 8 < log2_floor p q)
    by lia.
  destruct He as [He|[He|He]].
  - (* below 256 *)
    pose proof (log2_floor_below p q 8 0 8 Hp' Hq He ltac:(lia) ltac:(lia)
                  eq_refl) as Hlt.
    assert (Ht : quantum p q < 0) by (unfold quantum; lia).
    rewrite (greater_than_dyadic_neg _ _ _ Ht).
    unfold significand. destruct (0 <=? quantum p q) eqn:E;
      [apply Z.leb_le in E; lia|].
    pose proof (pow2_pos (- quantum p q) ltac:(lia)) as H2.
    pose proof (round_half_even_le (p * 2 ^ (- quantum p q)) q
                  (256 * 2 ^ (- quantum p q)) Hq ltac:(nia)) as Hm.
    split.
    + intros H. apply Z.ltb_lt in H. nia.
    + intros H. exfalso. change (2 ^ 8) with 256 in Hlt.
      change (2 ^ 0) with 1 in Hlt. lia.
  - (* between 256 and 512 *)
    assert (Ht : quantum p q = - 44) by (unfold quantum; lia).
    assert (Ht' : quantum p q < 0) by lia.
    rewrite (greater_than_dyadic_neg _ _ _ Ht').
    unfold significand. rewrite Ht. change (0 <=? - 44) with false. cbv iota.
    change (- - 44) with 44.
    rewrite Z.ltb_lt.
    rewrite (round_half_even_above_even (p * 2 ^ 44) q (300 * 2 ^ 44) Hq eq_refl).
    change (2 ^ 45) with (2 * 2 ^ 44). lia.
  - (* from 512 on *)
    pose proof (log2_floor_above p q 9 0 9 Hp' Hq ltac:(lia) ltac:(lia)
                  ltac:(lia) eq_refl) as Hge.
    change (2 ^ 9) with 512 in Hge. change (2 ^ 0) with 1 in Hge.
    split; [intros _; lia | intros _].
    destruct (Z.lt_ge_cases (quantum p q) 0) as [Ht|Ht].
    + rewrite (greater_than_dyadic_neg _ _ _ Ht).
      unfold significand. destruct (0 <=? quantum p q) eqn:E;
        [apply Z.leb_le in E; lia|].
      pose proof (pow2_pos (- quantum p q) ltac:(lia)) as H2.
      pose proof (round_half_even_ge (p * 2 ^ (- quantum p q)) q
                    (512 * 2 ^ (- quantum p q)) Hq ltac:(nia)) as Hm.
      apply Z.ltb_lt. nia.
    + assert (Hmax : 300 < 2 ^ 1024) by reflexivity.
      rewrite (greater_than_dyadic_pos _ _ _ Ht Hmax).
      unfold significand. destruct (0 <=? quantum p q) eqn:E;
        [|apply Z.leb_gt in E; lia].
      pose proof (pow2_pos (quantum p q) Ht) as H2.
      assert (Hq' : 0 < q * 2 ^ quantum p q) by nia.
      assert (Hq52 : quantum p q + 52 <= log2_floor p q)
        by (unfold quantum; lia).
      pose proof (log2_floor_above p q (quantum p q + 52) 0
                    (quantum p q + 52) Hp' Hq Hq52 ltac:(lia) ltac:(lia)
                    ltac:(lia)) as H'.
      rewrite (pow2_add (quantum p q) 52) in H' by lia.
      change (2 ^ 0) with 1 in H'. change (2 ^ 52) with 4503599627370496 in H'.
      pose proof (round_half_even_ge p (q * 2 ^ quantum p q)
                    4503599627370496 Hq' ltac:(lia)) as Hm.
      apply Z.ltb_lt. nia.
Qed.

Lemma exceeds_window_int (now z : Z) :
  exceeds_window now (Num z 0) = true <-> now - z > VALID_AUTH_WINDOW.
Proof.
  unfold exceeds_window, subtract_from.
  change (0 <=? 0) with true. cbv iota. change (10 ^ 0) with 1.
  rewrite Z.mul_1_r.
  destruct (0 <=? now - z) eqn:E.
  - apply Z.leb_le in E. rewrite (to_double_above_window _ 1 E ltac:(lia)).
    unfold VALID_AUTH_WINDOW. lia.
  - apply Z.leb_gt in E.
    rewrite greater_than_negate;
      [| apply to_double_not_negative; lia | unfold VALID_AUTH_WINDOW; lia].
    unfold VALID_AUTH_WINDOW. split; [discriminate | lia].
Qed.

(** The comparison for an auth date with a fraction. *)
Lemma exceeds_window_fraction (now m e : Z) :
  e < 0 ->
  exceeds_window now (Num m e) = true
  <-> (300 * 2 ^ 45 + 1) * 10 ^ (- e) < (now * 10 ^ (- e) - m) * 2 ^ 45.
Proof.
  intros He. unfold exceeds_window, subtract_from.
  destruct (0 <=? e) eqn:E; [apply Z.leb_le in E; lia|].
  pose proof (pow10_pos (- e) ltac:(lia)) as H10.
  destruct (0 <=? now * 10 ^ (- e) - m) eqn:E'.
  - apply Z.leb_le in E'. now rewrite (to_double_above_window _ _ E' H10).
  - apply Z.leb_gt in E'.
    rewrite greater_than_negate;
      [| apply to_double_not_negative; lia | unfold VALID_AUTH_WINDOW; lia].
    split; [discriminate | nia].
Qed.

(** The significand of a double has at most 53 bits. *)
Lemma significand_le (p q : Z) :
  0 < p -> 0 < q -> significand p q <= 2 ^ 53.
Proof.
  intros Hp Hq. unfold significand.
  assert (Hlt : log2_floor p q < quantum p q + 53) by (unfold quantum; lia).
  destruct (0 <=? quantum p q) eqn:E.
  - apply Z.leb_le in E. pose proof (pow2_pos _ E) as H2.
    pose proof (log2_floor_below p q (quantum p q + 53) 0 (quantum p q + 53)
                  Hp Hq Hlt ltac:(lia) ltac:(lia) ltac:(lia)) as H.
    rewrite (pow2_add (quantum p q) 53) in H by lia.
    change (2 ^ 0) with 1 in H.
    apply round_half_even_le; nia.
  - apply Z.leb_gt in E.
    pose proof (log2_floor_below p q (quantum p q + 53) (- quantum p q) 53
                  Hp Hq Hlt ltac:(lia) ltac:(lia) ltac:(lia)) as H.
    apply round_half_even_le; [exact Hq | lia].
Qed.

Lemma dyadic_grain (m t : Z) :
  0 <= m <= 2 ^ 53 -> double_grain (dyadic m t).
Proof.
  intros [Hm0 Hm]. unfold dyadic. destruct (0 <=? t) eqn:E.
  - destruct (2 ^ 1024 <=? m * 2 ^ t); simpl; [exact I|].
    split; [lia|]. intros _. exists (m * 2 ^ t * 2 ^ 44).
    change (10 ^ (- 0)) with 1. lia.
  - apply Z.leb_gt in E.
    pose proof (reduce_spec (Z.to_nat (- t)) m) as Hr.
    destruct (reduce (Z.to_nat (- t)) m) as [m' k'].
    destruct Hr as [Hle [Hmm [Hodd Hpos]]]. specialize (Hpos Hm0).
    cbn [double_grain]. split; [lia|]. rewrite Z.opp_involutive.
    pose proof (pow2_pos (Z.of_nat (Z.to_nat (- t) - k')) ltac:(lia)) as Hr.
    pose proof (pow2_pos (Z.of_nat k') ltac:(lia)) as H2.
    pose proof (pow5_pos (Z.of_nat k') ltac:(lia)) as H5.
    rewrite (pow10_split (Z.of_nat k')) by lia.
    intros Hbig. rewrite Z.abs_eq in Hbig by nia.
    assert (Hbig' : 256 * 2 ^ Z.of_nat k' <= m').
    { apply (Z.mul_le_mono_pos_r _ _ (5 ^ Z.of_nat k') H5). lia. }
    assert (Hk : (k' <= 44)%nat).
    { destruct (Nat.le_gt_cases k' 44) as [H|H]; [exact H | exfalso].
      assert (H45 : 2 ^ 45 <= 2 ^ Z.of_nat k')
        by (apply Z.pow_le_mono_r; lia).
      change (2 ^ 45) with 35184372088832 in H45.
      change (2 ^ 53) with 9007199254740992 in Hm.
      assert (Hm' : m' = 9007199254740992) by nia.
      rewrite Hm' in Hodd. specialize (Hodd ltac:(lia)). discriminate Hodd. }
    exists (m' * 2 ^ (44 - Z.of_nat k')).
    replace 44 with (Z.of_nat k' + (44 - Z.of_nat k')) at 1 by lia.
    rewrite (pow2_add (Z.of_nat k') (44 - Z.of_nat k')) by lia.
    ring.
Qed.

Lemma to_double_grain (p q : Z) :
  0 <= p -> 0 < q -> double_grain (to_double p q).
Proof.
  intros Hp Hq. unfold to_double. destruct (p =? 0) eqn:E.
  - simpl. split; [lia|]. change (10 ^ (- 0)) with 1. simpl. lia.
  - apply Z.eqb_neq in E. apply dyadic_grain. split.
    + now apply significand_nonneg.
    + apply significand_le; lia.
Qed.

Lemma negate_grain (n : number) : double_grain n -> double_grain (negate n).
Proof.
  destruct n as [m e| |b]; simpl; auto.
  intros [He H]. split; [exact He|]. rewrite Z.abs_opp. intros Hbig.
  destruct (H Hbig) as [g Hg]. exists (- g). lia.
Qed.

Lemma decimal_double_grain (m e : Z) : double_grain (decimal_double m e).
Proof.
  unfold decimal_double.
  assert (H : double_grain
                (if 0 <=? e then to_double (Z.abs m * 10 ^ e) 1
                 else to_double (Z.abs m) (10 ^ (- e)))).
  { destruct (0 <=? e) eqn:E.
    - apply Z.leb_le in E. pose proof (pow10_pos e E).
      apply to_double_grain; [|lia]. pose proof (Z.abs_nonneg m). nia.
    - apply Z.leb_gt in E. apply to_double_grain; [apply Z.abs_nonneg|].
      apply pow10_pos. lia. }
  destruct (m <? 0); [now apply negate_grain | exact H].
Qed.

Lemma hex_value_nonneg (c d : Z) : hex_value c = Some d -> 0 <= d.
Proof.
  unfold hex_value, in_range.
  destruct ((48 <=? c) && (c <=? 57)) eqn:E1.
  { intros H; injection H as <-. apply andb_true_iff in E1. lia. }
  destruct ((65 <=? c) && (c <=? 70)) eqn:E2.
  { intros H; injection H as <-. apply andb_true_iff in E2. lia. }
  destruct ((97 <=? c) && (c <=? 102)) eqn:E3; [|discriminate].
  intros H; injection H as <-. apply andb_true_iff in E3. lia.
Qed.

Lemma radix_value_nonneg (radix : Z) (ds : jsstring) :
  0 <= radix ->
  forall acc z, 0 <= acc -> radix_value radix ds acc = Some z -> 0 <= z.
Proof.
  intros Hr. induction ds as [|c ds IH]; intros acc z Hacc; simpl.
  - intros H; injection H as <-. exact Hacc.
  - unfold radix_digit. destruct (hex_value c) as [d|] eqn:Hd; [|discriminate].
    destruct (d <? radix); [|discriminate].
    apply IH. pose proof (hex_value_nonneg _ _ Hd). nia.
Qed.

Lemma radix_of_nonneg (c radix : Z) : radix_of c = Some radix -> 0 <= radix.
Proof.
  unfold radix_of.
  destruct ((c =? 98) || (c =? 66)); [intros H; injection H as <-; lia|].
  destruct ((c =? 111) || (c =? 79)); [intros H; injection H as <-; lia|].
  destruct ((c =? 120) || (c =? 88)); [intros H; injection H as <-; lia|].
  discriminate.
Qed.

Lemma radix_literal_nonneg (s : jsstring) (z : Z) :
  radix_literal s = Some (Some z) -> 0 <= z.
Proof.
  unfold radix_literal.
  destruct s as [|zero [|c ds]]; try discriminate.
  destruct (radix_of c) as [radix|] eqn:Hr; [|discriminate].
  destruct (zero =? 48); [|discriminate].
  destruct ds as [|d ds]; [discriminate|]. intros H. injection H as H.
  apply (radix_value_nonneg radix (d :: ds) (radix_of_nonneg _ _ Hr) 0 z);
    [lia | exact H].
Qed.

(** [Number_] always answers, and with a double. *)
Lemma Number_total (s : jsstring) : exists n, Number_ s = Some n.
Proof.
  unfold Number_. destruct (trim s) as [|c rest]; [eauto|].
  destruct (radix_literal (c :: rest)) as [[z|]|]; eauto.
  cbv zeta.
  destruct (str_eqb _ (str "Infinity")); eauto.
  destruct (decimal_literal _) as [[m e]|]; eauto.
Qed.

Lemma Number_grain (s : jsstring) (n : number) :
  Number_ s = Some n -> double_grain n.
Proof.
  unfold Number_. destruct (trim s) as [|c rest].
  { intros H; injection H as <-. simpl. split; [lia|].
    change (10 ^ (- 0)) with 1. simpl. lia. }
  destruct (radix_literal (c :: rest)) as [[z|]|] eqn:Hr.
  - intros H; injection H as <-.
    apply to_double_grain; [|lia]. now apply (radix_literal_nonneg _ _ Hr).
  - intros H; injection H as <-. exact I.
  - cbv zeta. destruct (str_eqb _ (str "Infinity")).
    + intros H; injection H as <-. exact I.
    + destruct (decimal_literal _) as [[m e]|].
      * intros H; injection H as <-. apply decimal_double_grain.
      * intros H; injection H as <-. exact I.
Qed.

(** From the clock value 557 on, the comparison made on doubles is the
    comparison of the real numbers: [now - m * 10 ^ e > 300]. *)
Lemma exceeds_window_real (now m e : Z) :
  double_grain (Num m e) -> e < 0 -> 557 <= now ->
  exceeds_window now (Num m e) = true <-> m < (now - 300) * 10 ^ (- e).
Proof.
  intros [_ Hg] He Hnow. rewrite (exceeds_window_fraction now m e He).
  pose proof (pow10_pos (- e) ltac:(lia)) as H10.
  change (2 ^ 45) with 35184372088832.
  split; [intros H; nia | intros H].
  destruct (Z.le_gt_cases (256 * 10 ^ (- e)) (Z.abs m)) as [Hbig|Hsmall].
  - destruct (Hg Hbig) as [g Hgm].
    change (2 ^ 44) with 17592186044416 in Hgm.
    assert (Hg' : g < (now - 300) * 17592186044416) by nia.
    nia.
  - assert (Hm : m < 256 * 10 ^ (- e)) by lia. nia.
Qed.

(** ** The verifier, case by case *)

Lemma verify_hash_missing (token : jsstring) (parsed : URLSearchParams)
    (now : Z) :
  present (get parsed (str "hash")) = false ->
  verify token parsed now = Some (reject "HASH_MISSING" 400).
Proof.
  unfold verify, present. destruct (get parsed (str "hash")) as [h|];
    [|reflexivity].
  destruct (str_eqb h []); [reflexivity | discriminate].
Qed.

Lemma verify_cases (token : jsstring) (parsed : URLSearchParams) (now : Z)
    (hash : jsstring) (authDate : number) :
  get parsed (str "hash") = Some hash ->
  str_eqb hash [] = false ->
  Number_ (or_default (get parsed (str "auth_date")) (str "0")) = Some authDate ->
  verify token parsed now =
    Some (if exceeds_window now authDate then reject "DATA_EXPIRED" 401
          else if timingSafeEqual hash (signature token parsed)
               then accepted (user_claims (parse_user (get parsed (str "user"))))
                             authDate
               else reject "INVALID_SIGNATURE" 401).
Proof.
  intros Hh Hne Hn. unfold verify. rewrite Hh, Hne, Hn.
  destruct (exceeds_window now authDate); [reflexivity|].
  fold (signature token parsed).
  destruct (timingSafeEqual hash (signature token parsed)); reflexivity.
Qed.

Lemma reject_inj (c1 c2 : string) (s1 s2 : Z) :
  reject c1 s1 = reject c2 s2 -> str c1 = str c2 /\ s1 = s2.
Proof.
  unfold reject, cors, json. simpl. intros H. inversion H. auto.
Qed.

Lemma accepted_not_reject (u : value) (a : number) (c : string) (s : Z) :
  accepted u a <> reject c s.
Proof.
  unfold accepted, reject, cors, json. simpl. intros H. inversion H.
Qed.

Lemma handleValidate_verify (request : Request) (env : Env) (now : Z)
    (botToken : jsstring) (body : value) (initData : jsstring) :
  BOT_TOKEN env = Some botToken ->
  str_eqb botToken [] = false ->
  JSON_parse (body_text request) = Some body ->
  get_prop body (str "initData") = VStr initData ->
  str_eqb initData [] = false ->
  handleValidate request env now
    = verify botToken (parseInitData initData) now.
Proof.
  intros Ht Hte Hb Hi Hne. unfold handleValidate.
  now rewrite Ht, Hte, Hb, Hi, Hne.
Qed.

(** ** Signed payloads *)

(** C1, as the claim states it, fails: a payload carrying the signature
    of its canonical string is answered DATA_EXPIRED when its auth_date
    is more than 300 seconds old; and a payload signed with the empty
    secret is answered SERVER_CONFIG_ERROR by a worker holding that
    secret, whatever its date. *)
Lemma signed_stale_payload_counterexample :
  get Sample.signed (str "hash") = Some (signature Sample.token Sample.signed) /\
  verify Sample.token Sample.signed 1700000500
    = Some (reject "DATA_EXPIRED" 401) /\
  handleValidate (Sample.request Sample.signed_raw) Sample.env 1700000500
    = Some (reject "DATA_EXPIRED" 401) /\
  get Sample.unkeyed (str "hash") = Some (signature [] Sample.unkeyed) /\
  handleValidate (Sample.request Sample.unkeyed_raw)
                 {| BOT_TOKEN := Some [] |} 1700000100
    = Some (reject "SERVER_CONFIG_ERROR" 500).
Proof. vm_compute. repeat split. Qed.

Lemma parseInitData_empty : parseInitData [] = [].
Proof. reflexivity. Qed.

(** A payload with a hash field was not read from the empty string. *)
Lemma hash_field_not_empty (initData hash : jsstring) :
  get (parseInitData initData) (str "hash") = Some hash ->
  str_eqb initData [] = false.
Proof.
  intros H. apply str_eqb_neq. intros ->.
  rewrite parseInitData_empty in H. discriminate H.
Qed.

(** C1, amended: when the worker holds a non-empty bot token and the
    request body is a JSON object whose initData is a payload whose hash
    field is the signature of its canonical string under the key derived
    from that token, and whose auth_date passes the freshness check, the
    answer of [handleValidate] is the accepted response. *)
Theorem signed_fresh_payload_accepted (request : Request) (env : Env)
    (now : Z) (token : jsstring) (body : value) (initData : jsstring)
    (authDate : number) :
  BOT_TOKEN env = Some token ->
  str_eqb token [] = false ->
  JSON_parse (body_text request) = Some body ->
  get_prop body (str "initData") = VStr initData ->
  get (parseInitData initData) (str "hash")
    = Some (signature token (parseInitData initData)) ->
  Number_ (or_default (get (parseInitData initData) (str "auth_date"))
                      (str "0")) = Some authDate ->
  exceeds_window now authDate = false ->
  handleValidate request env now
    = Some (accepted
              (user_claims
                 (parse_user (get (parseInitData initData) (str "user"))))
              authDate).
Proof.
  intros Ht Hte Hb Hi Hh Hn Hf.
  rewrite (handleValidate_verify request env now token body initData
             Ht Hte Hb Hi (hash_field_not_empty _ _ Hh)).
  rewrite (verify_cases token (parseInitData initData) now _ authDate Hh
             (signature_not_empty token (parseInitData initData)) Hn).
  now rewrite Hf, timingSafeEqual_refl.
Qed.

Lemma signed_fresh_payload_accepted_witness :
  BOT_TOKEN Sample.env = Some Sample.token /\
  str_eqb Sample.token [] = false /\
  JSON_parse (body_text (Sample.request Sample.signed_raw))
    = Some (VObj [(str "initData", VStr Sample.signed_raw)]) /\
  get_prop (VObj [(str "initData", VStr Sample.signed_raw)]) (str "initData")
    = VStr Sample.signed_raw /\
  get (parseInitData Sample.signed_raw) (str "hash")
    = Some (signature Sample.token (parseInitData Sample.signed_raw)) /\
  Number_ (or_default (get (parseInitData Sample.signed_raw) (str "auth_date"))
                      (str "0"))
    = Some (Num 1700000000 0) /\
  exceeds_window 1700000100 (Num 1700000000 0) = false /\
  handleValidate (Sample.request Sample.signed_raw) Sample.env 1700000100
    = Some (accepted
              (user_claims
                 (parse_user
                    (get (parseInitData Sample.signed_raw) (str "user"))))
              (Num 1700000000 0)).
Proof.
  assert (H1 : BOT_TOKEN Sample.env = Some Sample.token) by reflexivity.
  assert (H2 : str_eqb Sample.token [] = false) by (vm_compute; reflexivity).
  assert (H3 : JSON_parse (body_text (Sample.request Sample.signed_raw))
               = Some (VObj [(str "initData", VStr Sample.signed_raw)]))
    by (vm_compute; reflexivity).
  assert (H4 : get_prop (VObj [(str "initData", VStr Sample.signed_raw)])
                        (str "initData") = VStr Sample.signed_raw)
    by (vm_compute; reflexivity).
  assert (H5 : get (parseInitData Sample.signed_raw) (str "hash")
               = Some (signature Sample.token
                                 (parseInitData Sample.signed_raw)))
    by (vm_compute; reflexivity).
  assert (H6 : Number_ (or_default (get (parseInitData Sample.signed_raw)
                                        (str "auth_date")) (str "0"))
               = Some (Num 1700000000 0))
    by (vm_compute; reflexivity).
  assert (H7 : exceeds_window 1700000100 (Num 1700000000 0) = false)
    by (vm_compute; reflexivity).
  exact (conj H1 (conj H2 (conj H3 (conj H4 (conj H5 (conj H6 (conj H7
           (signed_fresh_payload_accepted _ _ _ _ _ _ _
              H1 H2 H3 H4 H5 H6 H7)))))))).
Defined.

(** ** Order of the checks *)

(** C3, as the claim states it, fails: a payload whose hash does not
    match and whose auth_date is stale is answered DATA_EXPIRED, not
    INVALID_SIGNATURE. *)
Lemma stale_forged_payload_counterexample :
  timingSafeEqual (or_default (get Sample.forged (str "hash")) [])
                  (signature Sample.token Sample.forged) = false /\
  verify Sample.token Sample.forged 1700000500
    = Some (reject "DATA_EXPIRED" 401) /\
  verify Sample.token Sample.forged 1700000500
    <> Some (reject "INVALID_SIGNATURE" 401).
Proof. vm_compute. repeat split. discriminate. Qed.

(** C3, amended: the freshness check comes before the signature
    comparison.  For a payload with a hash, DATA_EXPIRED is the answer
    exactly when the auth_date is stale, whatever the signature, and
    INVALID_SIGNATURE exactly when the auth_date is fresh and the hash is
    not the expected signature. *)
Theorem freshness_checked_before_signature (token : jsstring)
    (parsed : URLSearchParams) (now : Z) (hash : jsstring)
    (authDate : number) :
  get parsed (str "hash") = Some hash ->
  str_eqb hash [] = false ->
  Number_ (or_default (get parsed (str "auth_date")) (str "0")) = Some authDate ->
  (verify token parsed now = Some (reject "DATA_EXPIRED" 401)
   <-> exceeds_window now authDate = true) /\
  (verify token parsed now = Some (reject "INVALID_SIGNATURE" 401)
   <-> exceeds_window now authDate = false /\
       timingSafeEqual hash (signature token parsed) = false).
Proof.
  intros Hh Hne Hn.
  rewrite (verify_cases token parsed now hash authDate Hh Hne Hn).
  assert (Hde : Some (reject "DATA_EXPIRED" 401)
                <> Some (reject "INVALID_SIGNATURE" 401))
    by (vm_compute; discriminate).
  assert (Hacc : forall c s,
             Some (accepted (user_claims (parse_user (get parsed (str "user"))))
                            authDate) <> Some (reject c s)).
  { intros c s H.
    apply (accepted_not_reject
             (user_claims (parse_user (get parsed (str "user")))) authDate c s).
    congruence. }
  destruct (exceeds_window now authDate);
    destruct (timingSafeEqual hash (signature token parsed)); split; split;
    try reflexivity; try discriminate; try tauto; intros H;
    try (now apply Hacc in H); try (now apply Hde in H);
    try (symmetry in H; now apply Hde in H);
    destruct H; discriminate.
Qed.

Lemma freshness_checked_before_signature_witness :
  get Sample.forged (str "hash") = Some (str "00") /\
  str_eqb (str "00") [] = false /\
  Number_ (or_default (get Sample.forged (str "auth_date")) (str "0"))
    = Some (Num 1700000000 0) /\
  (verify Sample.token Sample.forged 1700000500
     = Some (reject "DATA_EXPIRED" 401)
   <-> exceeds_window 1700000500 (Num 1700000000 0) = true) /\
  (verify Sample.token Sample.forged 1700000500
     = Some (reject "INVALID_SIGNATURE" 401)
   <-> exceeds_window 1700000500 (Num 1700000000 0) = false /\
       timingSafeEqual (str "00") (signature Sample.token Sample.forged)
         = false).
Proof.
  assert (H1 : get Sample.forged (str "hash") = Some (str "00"))
    by (vm_compute; reflexivity).
  assert (H2 : str_eqb (str "00") [] = false) by (vm_compute; reflexivity).
  assert (H3 : Number_ (or_default (get Sample.forged (str "auth_date"))
                                   (str "0")) = Some (Num 1700000000 0))
    by (vm_compute; reflexivity).
  exact (conj H1 (conj H2 (conj H3
           (freshness_checked_before_signature
              Sample.token Sample.forged 1700000500 _ _ H1 H2 H3)))).
Defined.

(** ** The freshness window *)

(** The numbers that [Number_] gives: NaN, an Infinity, an integer
    [Num z 0], or a double with a fraction [Num m e], [e < 0]. *)
Lemma Number_forms (s : jsstring) (n : number) :
  Number_ s = Some n ->
  n = NaN \/ (exists b, n = Inf b) \/ (exists z, n = Num z 0) \/
  (exists m e, n = Num m e /\ e < 0).
Proof.
  intros H. pose proof (Number_grain s n H) as Hg.
  destruct n as [m e| |b]; [|now left | right; left; eauto].
  destruct Hg as [He _]. right; right.
  destruct (Z.eq_dec e 0) as [->|Hne]; [left; eauto | right].
  exists m, e. split; [reflexivity | lia].
Qed.

Lemma verify_expired (token : jsstring) (parsed : URLSearchParams) (now : Z)
    (hash : jsstring) (authDate : number) :
  get parsed (str "hash") = Some hash ->
  str_eqb hash [] = false ->
  Number_ (or_default (get parsed (str "auth_date")) (str "0")) = Some authDate ->
  verify token parsed now = Some (reject "DATA_EXPIRED" 401)
  <-> exceeds_window now authDate = true.
Proof.
  intros Hh Hne Hn.
  rewrite (verify_cases token parsed now hash authDate Hh Hne Hn).
  destruct (exceeds_window now authDate); [tauto|].
  split; [|discriminate]. intros H. exfalso.
  destruct (timingSafeEqual hash (signature token parsed)).
  - apply (accepted_not_reject
             (user_claims (parse_user (get parsed (str "user"))))
             authDate "DATA_EXPIRED" 401). congruence.
  - assert (Hr : reject "INVALID_SIGNATURE" 401 = reject "DATA_EXPIRED" 401)
      by congruence.
    vm_compute in Hr. discriminate.
Qed.

(** C4: for a payload with a hash, the answer is DATA_EXPIRED exactly
    when [now - authDate > 300] as the worker computes it, where
    [authDate] is the number [Number] reads from the auth_date field and
    a missing auth_date is read as 0.  That number is NaN, an Infinity,
    an integer or a double with a fraction.  For an integer the
    condition is [now - z > 300]; for a double with a fraction it is
    that of the real numbers, [now - m * 10 ^ e > 300], at every clock
    value from 557 on, and in general that the difference exceeds 300 by
    more than [2 ^ -45], below which the subtraction rounds to 300.  NaN
    and Infinity never exceed the window and -Infinity always does.  An
    auth_date of [now - 300] passes the check and one of [now - 301] is
    rejected with DATA_EXPIRED. *)
Theorem freshness_window (token : jsstring) (parsed : URLSearchParams)
    (now : Z) (hash : jsstring) (authDate : number) :
  get parsed (str "hash") = Some hash ->
  str_eqb hash [] = false ->
  Number_ (or_default (get parsed (str "auth_date")) (str "0")) = Some authDate ->
  (verify token parsed now = Some (reject "DATA_EXPIRED" 401)
   <-> greater_than (subtract_from now authDate) 300 = true) /\
  (authDate = NaN \/ (exists b, authDate = Inf b) \/
   (exists z, authDate = Num z 0) \/
   (exists m e, authDate = Num m e /\ e < 0)) /\
  (forall z, authDate = Num z 0 ->
     (verify token parsed now = Some (reject "DATA_EXPIRED" 401)
      <-> now - z > 300)) /\
  (forall m e, authDate = Num m e -> e < 0 -> 557 <= now ->
     (verify token parsed now = Some (reject "DATA_EXPIRED" 401)
      <-> m < (now - 300) * 10 ^ (- e))) /\
  (forall m e, authDate = Num m e -> e < 0 ->
     (verify token parsed now = Some (reject "DATA_EXPIRED" 401)
      <-> (300 * 2 ^ 45 + 1) * 10 ^ (- e)
          < (now * 10 ^ (- e) - m) * 2 ^ 45)) /\
  (authDate = NaN \/ authDate = Inf false ->
   verify token parsed now <> Some (reject "DATA_EXPIRED" 401)) /\
  (authDate = Inf true ->
   verify token parsed now = Some (reject "DATA_EXPIRED" 401)) /\
  (get parsed (str "auth_date") = None -> authDate = Num 0 0) /\
  (authDate = Num (now - 300) 0 ->
   verify token parsed now <> Some (reject "DATA_EXPIRED" 401)) /\
  (authDate = Num (now - 301) 0 ->
   verify token parsed now = Some (reject "DATA_EXPIRED" 401)).
Proof.
  intros Hh Hne Hn.
  pose proof (verify_expired token parsed now hash authDate Hh Hne Hn) as Hiff.
  assert (Hint : forall z, authDate = Num z 0 ->
             (verify token parsed now = Some (reject "DATA_EXPIRED" 401)
              <-> now - z > 300)).
  { intros z ->. rewrite Hiff. apply exceeds_window_int. }
  split; [exact Hiff|].
  split; [exact (Number_forms _ _ Hn)|].
  split; [exact Hint|].
  split.
  { intros m e -> He Hnow. rewrite Hiff.
    apply exceeds_window_real; [exact (Number_grain _ _ Hn) | exact He
                               | exact Hnow]. }
  split.
  { intros m e -> He. rewrite Hiff. now apply exceeds_window_fraction. }
  split.
  { intros [->| ->]; rewrite Hiff; discriminate. }
  split.
  { intros ->. now rewrite Hiff. }
  split.
  { intros Hnone. rewrite Hnone in Hn. vm_compute in Hn. congruence. }
  split.
  - intros Heq. rewrite (Hint _ Heq). lia.
  - intros Heq. apply (Hint _ Heq). lia.
Qed.

Lemma freshness_window_witness :
  (get Sample.signed (str "hash")
     = Some (signature Sample.token Sample.signed) /\
   str_eqb (signature Sample.token Sample.signed) [] = false /\
   Number_ (or_default (get Sample.signed (str "auth_date")) (str "0"))
     = Some (Num (1700000300 - 300) 0) /\
   verify Sample.token Sample.signed 1700000300
     <> Some (reject "DATA_EXPIRED" 401) /\
   Number_ (or_default (get Sample.signed (str "auth_date")) (str "0"))
     = Some (Num (1700000301 - 301) 0) /\
   verify Sample.token Sample.signed 1700000301
     = Some (reject "DATA_EXPIRED" 401)) /\
  (get Sample.halfway (str "hash")
     = Some (signature Sample.token Sample.halfway) /\
   str_eqb (signature Sample.token Sample.halfway) [] = false /\
   Number_ (or_default (get Sample.halfway (str "auth_date")) (str "0"))
     = Some (Num 17000000005 (- 1)) /\
   - 1 < 0 /\
   557 <= 1700000300 /\
   verify Sample.token Sample.halfway 1700000300
     <> Some (reject "DATA_EXPIRED" 401) /\
   verify Sample.token Sample.halfway 1700000301
     = Some (reject "DATA_EXPIRED" 401)).
Proof.
  assert (H1 : get Sample.signed (str "hash")
               = Some (signature Sample.token Sample.signed))
    by (vm_compute; reflexivity).
  assert (H2 : str_eqb (signature Sample.token Sample.signed) [] = false)
    by (vm_compute; reflexivity).
  assert (H3 : Number_ (or_default (get Sample.signed (str "auth_date"))
                                   (str "0"))
               = Some (Num (1700000300 - 300) 0))
    by (vm_compute; reflexivity).
  assert (H4 : Number_ (or_default (get Sample.signed (str "auth_date"))
                                   (str "0"))
               = Some (Num (1700000301 - 301) 0))
    by (vm_compute; reflexivity).
  assert (G1 : get Sample.halfway (str "hash")
               = Some (signature Sample.token Sample.halfway))
    by (vm_compute; reflexivity).
  assert (G2 : str_eqb (signature Sample.token Sample.halfway) [] = false)
    by (vm_compute; reflexivity).
  assert (G3 : Number_ (or_default (get Sample.halfway (str "auth_date"))
                                   (str "0"))
               = Some (Num 17000000005 (- 1)))
    by (vm_compute; reflexivity).
  assert (G4 : - 1 < 0) by reflexivity.
  assert (G5 : 557 <= 1700000300) by (vm_compute; discriminate).
  assert (G6 : 557 <= 1700000301) by (vm_compute; discriminate).
  pose proof (proj1 (proj2 (proj2 (proj2
                (freshness_window Sample.token Sample.halfway 1700000300 _ _
                                  G1 G2 G3)))) _ _ eq_refl G4 G5) as K1.
  pose proof (proj1 (proj2 (proj2 (proj2
                (freshness_window Sample.token Sample.halfway 1700000301 _ _
                                  G1 G2 G3)))) _ _ eq_refl G4 G6) as K2.
  refine (conj (conj H1 (conj H2 (conj H3 (conj _ (conj H4 _)))))
               (conj G1 (conj G2 (conj G3 (conj G4 (conj G5 (conj _ _))))))).
  - exact (proj1 (proj2 (proj2 (proj2 (proj2 (proj2 (proj2 (proj2 (proj2
             (freshness_window Sample.token Sample.signed 1700000300 _ _
                               H1 H2 H3))))))))) eq_refl).
  - exact (proj2 (proj2 (proj2 (proj2 (proj2 (proj2 (proj2 (proj2 (proj2
             (freshness_window Sample.token Sample.signed 1700000301 _ _
                               H1 H2 H4))))))))) eq_refl).
  - intros H. apply K1 in H. vm_compute in H. discriminate H.
  - apply K2. reflexivity.
Defined.

(** ** The parsing stage *)

Lemma verify_reject_codes (token : jsstring) (parsed : URLSearchParams)
    (now : Z) (code : string) (status : Z) :
  verify token parsed now = Some (reject code status) ->
  In (str code) error_codes.
Proof.
  unfold verify.
  destruct (get parsed (str "hash")) as [hash|].
  2:{ intros H. assert (Hr : reject "HASH_MISSING" 400 = reject code status)
        by congruence.
      apply reject_inj in Hr. destruct Hr as [<- _]. simpl. tauto. }
  destruct (str_eqb hash []).
  { intros H. assert (Hr : reject "HASH_MISSING" 400 = reject code status)
      by congruence.
    apply reject_inj in Hr. destruct Hr as [<- _]. simpl. tauto. }
  destruct (Number_ _) as [authDate|]; [|discriminate].
  destruct (exceeds_window now authDate).
  { intros H. assert (Hr : reject "DATA_EXPIRED" 401 = reject code status)
      by congruence.
    apply reject_inj in Hr. destruct Hr as [<- _]. simpl. tauto. }
  destruct (negb _).
  { intros H. assert (Hr : reject "INVALID_SIGNATURE" 401 = reject code status)
      by congruence.
    apply reject_inj in Hr. destruct Hr as [<- _]. simpl. tauto. }
  intros H. exfalso.
  apply (accepted_not_reject
           (user_claims (parse_user (get parsed (str "user"))))
           authDate code status).
  unfold accepted. congruence.
Qed.

Lemma handleValidate_reject_codes (request : Request) (env : Env) (now : Z)
    (code : string) (status : Z) :
  handleValidate request env now = Some (reject code status) ->
  In (str code) error_codes.
Proof.
  unfold handleValidate.
  assert (Hk : forall c s,
             Some (reject c s) = Some (reject code status) ->
             In (str c) error_codes -> In (str code) error_codes).
  { intros c s H Hin. assert (Hr : reject c s = reject code status)
      by congruence.
    apply reject_inj in Hr. destruct Hr as [<- _]. exact Hin. }
  destruct (BOT_TOKEN env) as [botToken|].
  2:{ intros H. apply (Hk _ _ H). simpl. tauto. }
  destruct (str_eqb botToken []).
  { intros H. apply (Hk _ _ H). simpl. tauto. }
  destruct (JSON_parse (body_text request)) as [body|].
  2:{ intros H. apply (Hk _ _ H). simpl. tauto. }
  destruct (get_prop body (str "initData")) as [| |b|n|initData|items|props];
    try (intros H; apply (Hk _ _ H); simpl; tauto).
  destruct (str_eqb initData []).
  { intros H. apply (Hk _ _ H). simpl. tauto. }
  apply verify_reject_codes.
Qed.

(** C7, as the claim states it, fails: no raw string is rejected as
    malformed.  A string of separators, from which no pair can be read,
    is answered HASH_MISSING, and no answer of [handleValidate] carries
    an error code other than the six of [error_codes]. *)
Lemma unparseable_payload_counterexample :
  parseInitData Sample.separators_raw = [] /\
  handleValidate (Sample.request Sample.separators_raw) Sample.env 1700000100
    = Some (reject "HASH_MISSING" 400) /\
  ~ In (str "MALFORMED_PAYLOAD") error_codes /\
  (forall request env now code status,
     handleValidate request env now = Some (reject code status) ->
     In (str code) error_codes).
Proof.
  split; [vm_compute; reflexivity|].
  split; [vm_compute; reflexivity|].
  split; [vm_compute; intuition discriminate|].
  apply handleValidate_reject_codes.
Qed.

(** C7, amended: every raw string is read as a list of pairs, and a
    request whose initData has no pair named hash is answered
    HASH_MISSING. *)
Theorem missing_hash_rejected (request : Request) (env : Env) (now : Z)
    (botToken : jsstring) (body : value) (initData : jsstring) :
  BOT_TOKEN env = Some botToken ->
  str_eqb botToken [] = false ->
  JSON_parse (body_text request) = Some body ->
  get_prop body (str "initData") = VStr initData ->
  str_eqb initData [] = false ->
  get (parseInitData initData) (str "hash") = None ->
  handleValidate request env now = Some (reject "HASH_MISSING" 400).
Proof.
  intros Ht Hte Hb Hi Hne Hh.
  rewrite (handleValidate_verify request env now botToken body initData
             Ht Hte Hb Hi Hne).
  apply verify_hash_missing. now rewrite Hh.
Qed.

Lemma missing_hash_rejected_witness :
  BOT_TOKEN Sample.env = Some Sample.token /\
  str_eqb Sample.token [] = false /\
  JSON_parse (body_text (Sample.request Sample.no_hash_raw))
    = Some (VObj [(str "initData", VStr Sample.no_hash_raw)]) /\
  get_prop (VObj [(str "initData", VStr Sample.no_hash_raw)]) (str "initData")
    = VStr Sample.no_hash_raw /\
  str_eqb Sample.no_hash_raw [] = false /\
  get (parseInitData Sample.no_hash_raw) (str "hash") = None /\
  handleValidate (Sample.request Sample.no_hash_raw) Sample.env 1700000100
    = Some (reject "HASH_MISSING" 400).
Proof.
  assert (H1 : BOT_TOKEN Sample.env = Some Sample.token) by reflexivity.
  assert (H2 : str_eqb Sample.token [] = false) by (vm_compute; reflexivity).
  assert (H3 : JSON_parse (body_text (Sample.request Sample.no_hash_raw))
               = Some (VObj [(str "initData", VStr Sample.no_hash_raw)]))
    by (vm_compute; reflexivity).
  assert (H4 : get_prop (VObj [(str "initData", VStr Sample.no_hash_raw)])
                        (str "initData") = VStr Sample.no_hash_raw)
    by (vm_compute; reflexivity).
  assert (H5 : str_eqb Sample.no_hash_raw [] = false)
    by (vm_compute; reflexivity).
  assert (H6 : get (parseInitData Sample.no_hash_raw) (str "hash") = None)
    by (vm_compute; reflexivity).
  exact (conj H1 (conj H2 (conj H3 (conj H4 (conj H5 (conj H6
           (missing_hash_rejected _ _ 1700000100 _ _ _
              H1 H2 H3 H4 H5 H6))))))).
Defined.

(** ** The user of an accepted payload *)

(** C8: a payload that passes the freshness check and the signature
    comparison and whose user field is not valid JSON is accepted, with
    user null. *)
Theorem malformed_user_accepted_null (token : jsstring)
    (parsed : URLSearchParams) (now : Z) (hash : jsstring)
    (authDate : number) (text : jsstring) :
  get parsed (str "hash") = Some hash ->
  str_eqb hash [] = false ->
  Number_ (or_default (get parsed (str "auth_date")) (str "0")) = Some authDate ->
  exceeds_window now authDate = false ->
  timingSafeEqual hash (signature token parsed) = true ->
  get parsed (str "user") = Some text ->
  JSON_parse text = None ->
  verify token parsed now = Some (accepted VNull authDate).
Proof.
  intros Hh Hne Hn Hf Hs Hu Hj.
  rewrite (verify_cases token parsed now hash authDate Hh Hne Hn).
  rewrite Hf, Hs, Hu. unfold parse_user. rewrite Hj.
  now destruct (str_eqb text []).
Qed.

Lemma malformed_user_accepted_null_witness :
  get Sample.bad_user (str "hash")
    = Some (signature Sample.token Sample.bad_user) /\
  str_eqb (signature Sample.token Sample.bad_user) [] = false /\
  Number_ (or_default (get Sample.bad_user (str "auth_date")) (str "0"))
    = Some (Num 1700000000 0) /\
  exceeds_window 1700000100 (Num 1700000000 0) = false /\
  timingSafeEqual (signature Sample.token Sample.bad_user)
                  (signature Sample.token Sample.bad_user) = true /\
  get Sample.bad_user (str "user") = Some (str "{bad") /\
  JSON_parse (str "{bad") = None /\
  verify Sample.token Sample.bad_user 1700000100
    = Some (accepted VNull (Num 1700000000 0)).
Proof.
  assert (H1 : get Sample.bad_user (str "hash")
               = Some (signature Sample.token Sample.bad_user))
    by (vm_compute; reflexivity).
  assert (H2 : str_eqb (signature Sample.token Sample.bad_user) [] = false)
    by (vm_compute; reflexivity).
  assert (H3 : Number_ (or_default (get Sample.bad_user (str "auth_date"))
                                   (str "0")) = Some (Num 1700000000 0))
    by (vm_compute; reflexivity).
  assert (H4 : exceeds_window 1700000100 (Num 1700000000 0) = false)
    by (vm_compute; reflexivity).
  assert (H5 : timingSafeEqual (signature Sample.token Sample.bad_user)
                               (signature Sample.token Sample.bad_user) = true)
    by (vm_compute; reflexivity).
  assert (H6 : get Sample.bad_user (str "user") = Some (str "{bad"))
    by (vm_compute; reflexivity).
  assert (H7 : JSON_parse (str "{bad") = None) by (vm_compute; reflexivity).
  exact (conj H1 (conj H2 (conj H3 (conj H4 (conj H5 (conj H6 (conj H7
           (malformed_user_accepted_null _ _ 1700000100 _ _ _
              H1 H2 H3 H4 H5 H6 H7)))))))).
Defined.

Lemma accepted_ok (u : value) (a : number) :
  get_prop (resp_body (accepted u a)) (str "ok") = VBool true.
Proof. reflexivity. Qed.

Lemma accepted_user (u : value) (a : number) :
  get_prop (resp_body (accepted u a)) (str "user") = u.
Proof. reflexivity. Qed.

Lemma reject_ok (c : string) (s : Z) :
  get_prop (resp_body (reject c s)) (str "ok") = VBool false.
Proof. reflexivity. Qed.

Lemma parse_user_not_null (field : option jsstring) :
  parse_user field <> VNull ->
  exists text, field = Some text /\ JSON_parse text = Some (parse_user field).
Proof.
  unfold parse_user. destruct field as [text|]; [|congruence].
  destruct (str_eqb text []); [congruence|].
  destruct (JSON_parse text) as [v|] eqn:Hj; [|congruence].
  intros _. now exists text.
Qed.

(** C9: when the answer is an acceptance with a user that is not null,
    the user field of the payload parses as JSON and the returned user is
    the object of exactly the five properties id, first_name, last_name,
    username and language_code, each read from the parsed user. *)
Theorem accepted_user_allowlist (token : jsstring) (parsed : URLSearchParams)
    (now : Z) (r : Response) :
  verify token parsed now = Some r ->
  get_prop (resp_body r) (str "ok") = VBool true ->
  get_prop (resp_body r) (str "user") <> VNull ->
  exists text user,
    get parsed (str "user") = Some text /\
    JSON_parse text = Some user /\
    get_prop (resp_body r) (str "user")
      = VObj [ (str "id", get_prop user (str "id"));
               (str "first_name", get_prop user (str "first_name"));
               (str "last_name", get_prop user (str "last_name"));
               (str "username", get_prop user (str "username"));
               (str "language_code", get_prop user (str "language_code")) ].
Proof.
  intros Hv Hok Huser.
  destruct (get parsed (str "hash")) as [hash|] eqn:Hh.
  2:{ rewrite verify_hash_missing in Hv by (now rewrite Hh).
      injection Hv as <-. rewrite reject_ok in Hok. discriminate. }
  destruct (str_eqb hash []) eqn:Hne.
  { rewrite verify_hash_missing in Hv
      by (rewrite Hh; unfold present; now rewrite Hne).
    injection Hv as <-. rewrite reject_ok in Hok. discriminate. }
  destruct (Number_ (or_default (get parsed (str "auth_date")) (str "0")))
    as [authDate|] eqn:Hn.
  2:{ unfold verify in Hv. rewrite Hh, Hne, Hn in Hv. discriminate. }
  rewrite (verify_cases token parsed now hash authDate Hh Hne Hn) in Hv.
  destruct (exceeds_window now authDate).
  { injection Hv as <-. rewrite reject_ok in Hok. discriminate. }
  destruct (timingSafeEqual hash (signature token parsed)).
  2:{ injection Hv as <-. rewrite reject_ok in Hok. discriminate. }
  injection Hv as <-. rewrite accepted_user in *.
  unfold user_claims in *.
  destruct (truthy (parse_user (get parsed (str "user")))) eqn:Ht;
    [|congruence].
  assert (Hnn : parse_user (get parsed (str "user")) <> VNull).
  { intros Hnull. rewrite Hnull in Ht. discriminate. }
  destruct (parse_user_not_null _ Hnn) as [text [Hf Hj]].
  exists text, (parse_user (get parsed (str "user"))). auto.
Qed.

Lemma accepted_user_allowlist_witness :
  verify Sample.token Sample.admin 1700000100
    = Some (accepted
              (VObj [ (str "id", VNum (Num 1 0));
                      (str "first_name", VStr (str "Ann"));
                      (str "last_name", VUndefined);
                      (str "username", VUndefined);
                      (str "language_code", VUndefined) ])
              (Num 1700000000 0)) /\
  exists text user,
    get Sample.admin (str "user") = Some text /\
    JSON_parse text = Some user /\
    get_prop user (str "is_admin") = VBool true /\
    VObj [ (str "id", VNum (Num 1 0));
           (str "first_name", VStr (str "Ann"));
           (str "last_name", VUndefined);
           (str "username", VUndefined);
           (str "language_code", VUndefined) ]
      = VObj [ (str "id", get_prop user (str "id"));
               (str "first_name", get_prop user (str "first_name"));
               (str "last_name", get_prop user (str "last_name"));
               (str "username", get_prop user (str "username"));
               (str "language_code", get_prop user (str "language_code")) ].
Proof.
  assert (H1 : verify Sample.token Sample.admin 1700000100
               = Some (accepted
                         (VObj [ (str "id", VNum (Num 1 0));
                                 (str "first_name", VStr (str "Ann"));
                                 (str "last_name", VUndefined);
                                 (str "username", VUndefined);
                                 (str "language_code", VUndefined) ])
                         (Num 1700000000 0)))
    by (vm_compute; reflexivity).
  split; [exact H1|].
  destruct (accepted_user_allowlist _ _ _ _ H1 eq_refl)
    as [text [user [Hf [Hj Hu]]]].
  - discriminate.
  - exists text, user. repeat split; try assumption.
    assert (Hf' : get Sample.admin (str "user")
                  = Some (quoted "{'id':1,'first_name':'Ann','is_admin':true}"))
      by (vm_compute; reflexivity).
    rewrite Hf' in Hf. injection Hf as <-.
    vm_compute in Hj. injection Hj as <-. reflexivity.
Defined.

(** ** Tampering with a signed value *)

Lemma join_cons (sep y : jsstring) (ys : list jsstring) :
  join sep (y :: ys) = y ++ concat (map (fun z => sep ++ z) ys).
Proof.
  revert y. induction ys as [|z ys IH]; intros y.
  - simpl. now rewrite app_nil_r.
  - change (join sep (y :: z :: ys)) with (y ++ sep ++ join sep (z :: ys)).
    rewrite IH. simpl. now rewrite <- !app_assoc.
Qed.

Lemma join_app_cons (sep y : jsstring) (xs ys : list jsstring) :
  join sep (xs ++ y :: ys)
  = concat (map (fun x => x ++ sep) xs) ++ y
      ++ concat (map (fun z => sep ++ z) ys).
Proof.
  induction xs as [|x xs IH].
  - apply join_cons.
  - change ((x :: xs) ++ y :: ys) with (x :: (xs ++ y :: ys)).
    destruct (xs ++ y :: ys) as [|p rest] eqn:E.
    + now destruct xs.
    + change (join sep (x :: p :: rest))
        with (x ++ sep ++ join sep (p :: rest)).
      rewrite IH. simpl. now rewrite <- !app_assoc.
Qed.

Lemma signed_pairs_app_cons (l1 l2 : URLSearchParams) (k v : jsstring) :
  str_eqb k (str "hash") = false ->
  signed_pairs (l1 ++ (k, v) :: l2)
  = signed_pairs l1 ++ (k, v) :: signed_pairs l2.
Proof.
  intros Hk. unfold signed_pairs. rewrite filter_app. simpl.
  now rewrite Hk.
Qed.

Lemma compare_keys_fst (a a' b b' : jsstring * jsstring) :
  fst a = fst a' -> fst b = fst b' -> compare_keys a b = compare_keys a' b'.
Proof. unfold compare_keys. now intros -> ->. Qed.

Lemma sort_insert_changed_value (k v v' : jsstring) l :
  exists a b,
    sort_insert compare_keys (k, v) l = a ++ (k, v) :: b /\
    sort_insert compare_keys (k, v') l = a ++ (k, v') :: b.
Proof.
  induction l as [|y l [a [b [H1 H2]]]]; simpl.
  - now exists [], [].
  - rewrite (compare_keys_fst (k, v') (k, v) y y eq_refl eq_refl).
    destruct (compare_keys (k, v) y <=? 0).
    + now exists [], (y :: l).
    + exists (y :: a), b. simpl. now rewrite H1, H2.
Qed.

Lemma sort_insert_into_changed (x : jsstring * jsstring) (k v v' : jsstring) a :
  forall b, exists a' b',
    sort_insert compare_keys x (a ++ (k, v) :: b) = a' ++ (k, v) :: b' /\
    sort_insert compare_keys x (a ++ (k, v') :: b) = a' ++ (k, v') :: b'.
Proof.
  induction a as [|y a IH]; intros b; simpl.
  - rewrite (compare_keys_fst x x (k, v') (k, v) eq_refl eq_refl).
    destruct (compare_keys x (k, v) <=? 0).
    + now exists [x], b.
    + now exists [], (sort_insert compare_keys x b).
  - destruct (compare_keys x y <=? 0).
    + now exists (x :: y :: a), b.
    + destruct (IH b) as [a' [b' [H1 H2]]].
      exists (y :: a'), b'. simpl. now rewrite H1, H2.
Qed.

Lemma Array_sort_changed_value (k v v' : jsstring) a b :
  exists a' b',
    Array_sort compare_keys (a ++ (k, v) :: b) = a' ++ (k, v) :: b' /\
    Array_sort compare_keys (a ++ (k, v') :: b) = a' ++ (k, v') :: b'.
Proof.
  induction a as [|y a [a' [b' [H1 H2]]]]; simpl.
  - apply sort_insert_changed_value.
  - rewrite H1, H2. apply sort_insert_into_changed.
Qed.

(** Changing a value of a field other than hash changes the canonical
    string. *)
Lemma buildDataCheckString_changed_value (l1 l2 : URLSearchParams)
    (k v v' : jsstring) :
  str_eqb k (str "hash") = false ->
  v' <> v ->
  buildDataCheckString (l1 ++ (k, v') :: l2)
    <> buildDataCheckString (l1 ++ (k, v) :: l2).
Proof.
  intros Hk Hv. unfold buildDataCheckString.
  rewrite !collect_entries_filter, !signed_pairs_app_cons by exact Hk.
  destruct (Array_sort_changed_value k v v' (signed_pairs l1) (signed_pairs l2))
    as [a [b [-> ->]]].
  rewrite !map_app. simpl map. rewrite !join_app_cons.
  intros H. apply app_inv_head in H. apply app_inv_tail in H.
  unfold render_entry in H. simpl in H.
  apply app_inv_head in H. injection H as H. now apply Hv.
Qed.

Lemma mutate_changes (s : jsstring) (i : nat) (c : Z) :
  (i < length s)%nat -> nth i s 0 <> c -> mutate s i c <> s.
Proof.
  intros Hi Hc H. apply Hc. rewrite <- H at 1. unfold mutate.
  rewrite app_nth2; rewrite length_firstn, Nat.min_l by lia; [|lia].
  now rewrite Nat.sub_diag.
Qed.

Lemma get_changed_value (l1 l2 : URLSearchParams) (k v v' name : jsstring) :
  str_eqb k name = false ->
  get (l1 ++ (k, v') :: l2) name = get (l1 ++ (k, v) :: l2) name.
Proof.
  intros Hk. induction l1 as [|[k1 v1] l1 IH]; simpl.
  - now rewrite Hk.
  - now rewrite IH.
Qed.


(* ================================================================== *)
(** * Part III: further properties of the code                         *)
(* ================================================================== *)

(** ** What an acceptance means *)

Lemma verify_accepted_inv (token : jsstring) (parsed : URLSearchParams)
    (now : Z) (r : Response) :
  verify token parsed now = Some r ->
  get_prop (resp_body r) (str "ok") = VBool true ->
  exists authDate,
    get parsed (str "hash") = Some (signature token parsed) /\
    Number_ (or_default (get parsed (str "auth_date")) (str "0"))
      = Some authDate /\
    exceeds_window now authDate = false /\
    r = accepted (user_claims (parse_user (get parsed (str "user")))) authDate.
Proof.
  intros Hv Hok.
  destruct (get parsed (str "hash")) as [hash|] eqn:Hh.
  2:{ rewrite verify_hash_missing in Hv by (now rewrite Hh).
      injection Hv as <-. rewrite reject_ok in Hok. discriminate. }
  destruct (str_eqb hash []) eqn:Hne.
  { rewrite verify_hash_missing in Hv
      by (rewrite Hh; unfold present; now rewrite Hne).
    injection Hv as <-. rewrite reject_ok in Hok. discriminate. }
  destruct (Number_ (or_default (get parsed (str "auth_date")) (str "0")))
    as [authDate|] eqn:Hn.
  2:{ unfold verify in Hv. rewrite Hh, Hne, Hn in Hv. discriminate. }
  rewrite (verify_cases token parsed now hash authDate Hh Hne Hn) in Hv.
  destruct (exceeds_window now authDate) eqn:Hf.
  { injection Hv as <-. rewrite reject_ok in Hok. discriminate. }
  destruct (timingSafeEqual hash (signature token parsed)) eqn:Ht.
  2:{ injection Hv as <-. rewrite reject_ok in Hok. discriminate. }
  apply timingSafeEqual_true_iff in Ht. subst hash.
  exists authDate. repeat split; congruence.
Qed.

(** X1: an answer of [handleValidate] with ok true means that every check
    has passed: the bot token is set, the body is JSON with a non-empty
    string initData, the first hash of the payload is the signature of
    its canonical string under that token, and the auth_date is within
    the window; the status is then 200. *)
Theorem handleValidate_accepts_only_signed (request : Request) (env : Env)
    (now : Z) (r : Response) :
  handleValidate request env now = Some r ->
  get_prop (resp_body r) (str "ok") = VBool true ->
  exists botToken body initData authDate,
    BOT_TOKEN env = Some botToken /\ str_eqb botToken [] = false /\
    JSON_parse (body_text request) = Some body /\
    get_prop body (str "initData") = VStr initData /\
    str_eqb initData [] = false /\
    get (parseInitData initData) (str "hash")
      = Some (signature botToken (parseInitData initData)) /\
    Number_ (or_default (get (parseInitData initData) (str "auth_date"))
                        (str "0")) = Some authDate /\
    exceeds_window now authDate = false /\
    resp_status r = 200.
Proof.
  unfold handleValidate. intros Hv Hok.
  destruct (BOT_TOKEN env) as [botToken|].
  2:{ injection Hv as <-. rewrite reject_ok in Hok. discriminate. }
  destruct (str_eqb botToken []) eqn:Hte.
  { injection Hv as <-. rewrite reject_ok in Hok. discriminate. }
  destruct (JSON_parse (body_text request)) as [body|].
  2:{ injection Hv as <-. rewrite reject_ok in Hok. discriminate. }
  destruct (get_prop body (str "initData"))
    as [| |b|n|initData|items|props] eqn:Hi;
    try (injection Hv as <-; rewrite reject_ok in Hok; discriminate).
  destruct (str_eqb initData []) eqn:Hne.
  { injection Hv as <-. rewrite reject_ok in Hok. discriminate. }
  destruct (verify_accepted_inv _ _ _ _ Hv Hok) as [authDate [Hh [Hn [Hf ->]]]].
  exists botToken, body, initData, authDate.
  repeat (split; [assumption || reflexivity|]). reflexivity.
Qed.

Lemma handleValidate_accepts_only_signed_witness :
  handleValidate (Sample.request Sample.signed_raw) Sample.env 1700000100
    = Some Case.signed_answer /\
  get_prop (resp_body Case.signed_answer) (str "ok") = VBool true /\
  exists botToken body initData authDate,
    BOT_TOKEN Sample.env = Some botToken /\ str_eqb botToken [] = false /\
    JSON_parse (body_text (Sample.request Sample.signed_raw)) = Some body /\
    get_prop body (str "initData") = VStr initData /\
    str_eqb initData [] = false /\
    get (parseInitData initData) (str "hash")
      = Some (signature botToken (parseInitData initData)) /\
    Number_ (or_default (get (parseInitData initData) (str "auth_date"))
                        (str "0")) = Some authDate /\
    exceeds_window 1700000100 authDate = false /\
    resp_status Case.signed_answer = 200.
Proof.
  assert (H : handleValidate (Sample.request Sample.signed_raw) Sample.env
                             1700000100 = Some Case.signed_answer)
    by (vm_compute; reflexivity).
  assert (Hok : get_prop (resp_body Case.signed_answer) (str "ok") = VBool true)
    by reflexivity.
  exact (conj H (conj Hok
           (handleValidate_accepts_only_signed _ _ _ _ H Hok))).
Defined.

(** ** The answers of [handleValidate] *)

Lemma verify_answers (token : jsstring) (parsed : URLSearchParams) (now : Z)
    (r : Response) :
  verify token parsed now = Some r ->
  (exists user authDate, r = accepted user authDate) \/
  In r [ reject "HASH_MISSING" 400; reject "DATA_EXPIRED" 401;
         reject "INVALID_SIGNATURE" 401 ].
Proof.
  unfold verify.
  destruct (get parsed (str "hash")) as [hash|].
  2:{ intros H; injection H as <-. right. simpl. tauto. }
  destruct (str_eqb hash []).
  { intros H; injection H as <-. right. simpl. tauto. }
  destruct (Number_ _) as [authDate|]; [|discriminate].
  destruct (exceeds_window now authDate).
  { intros H; injection H as <-. right. simpl. tauto. }
  destruct (negb _).
  { intros H; injection H as <-. right. simpl. tauto. }
  intros H; injection H as <-. left.
  exists (user_claims (parse_user (get parsed (str "user")))), authDate.
  reflexivity.
Qed.

Lemma handleValidate_cases (request : Request) (env : Env) (now : Z)
    (r : Response) :
  handleValidate request env now = Some r ->
  (exists user authDate, r = accepted user authDate) \/
  In r [ reject "SERVER_CONFIG_ERROR" 500; reject "INVALID_JSON" 400;
         reject "INIT_DATA_REQUIRED" 400; reject "HASH_MISSING" 400;
         reject "DATA_EXPIRED" 401; reject "INVALID_SIGNATURE" 401 ].
Proof.
  intros Hv. unfold handleValidate in Hv.
  destruct (BOT_TOKEN env) as [botToken|].
  2:{ injection Hv as <-. right. simpl. tauto. }
  destruct (str_eqb botToken []).
  { injection Hv as <-. right. simpl. tauto. }
  destruct (JSON_parse (body_text request)) as [body|].
  2:{ injection Hv as <-. right. simpl. tauto. }
  destruct (get_prop body (str "initData")) as [| |b|n|initData|items|props];
    try (injection Hv as <-; right; simpl; tauto).
  destruct (str_eqb initData []).
  { injection Hv as <-. right. simpl. tauto. }
  destruct (verify_answers _ _ _ _ Hv) as [Ha|Hin]; [now left|].
  right. simpl in *. tauto.
Qed.

(** X2: every answer of [handleValidate] is either an acceptance, with
    status 200, or one of six rejections, each with its own status: 500
    for SERVER_CONFIG_ERROR, 400 for INVALID_JSON, INIT_DATA_REQUIRED and
    HASH_MISSING, 401 for DATA_EXPIRED and INVALID_SIGNATURE.  So the
    status is 200 exactly when ok is true. *)
Theorem handleValidate_answers (request : Request) (env : Env) (now : Z)
    (r : Response) :
  handleValidate request env now = Some r ->
  ((exists user authDate, r = accepted user authDate) \/
   In r [ reject "SERVER_CONFIG_ERROR" 500; reject "INVALID_JSON" 400;
          reject "INIT_DATA_REQUIRED" 400; reject "HASH_MISSING" 400;
          reject "DATA_EXPIRED" 401; reject "INVALID_SIGNATURE" 401 ]) /\
  (resp_status r = 200 <-> get_prop (resp_body r) (str "ok") = VBool true).
Proof.
  intros Hv. pose proof (handleValidate_cases _ _ _ _ Hv) as Hcases.
  split; [exact Hcases|].
  destruct Hcases as [[user [authDate ->]]|Hin].
  - split; reflexivity.
  - simpl in Hin.
    repeat (destruct Hin as [<-|Hin]; [split; discriminate|]).
    contradiction.
Qed.

Lemma handleValidate_answers_witness :
  handleValidate (Sample.request Sample.forged_raw) Sample.env 1700000100
    = Some (reject "INVALID_SIGNATURE" 401) /\
  (resp_status (reject "INVALID_SIGNATURE" 401) = 200
   <-> get_prop (resp_body (reject "INVALID_SIGNATURE" 401)) (str "ok")
       = VBool true).
Proof.
  assert (H : handleValidate (Sample.request Sample.forged_raw) Sample.env
                             1700000100
              = Some (reject "INVALID_SIGNATURE" 401))
    by (vm_compute; reflexivity).
  exact (conj H (proj2 (handleValidate_answers _ _ _ _ H))).
Defined.

(** ** The first three guards of [handleValidate] *)

Ltac reject_clash H :=
  exfalso;
  let E := fresh "E" in
  pose proof (f_equal (fun o => match o with
                                | Some r => resp_body r
                                | None => VNull
                                end) H) as E;
  vm_compute in E; discriminate E.

Lemma verify_not_guard (token : jsstring) (parsed : URLSearchParams)
    (now : Z) (code : string) (status : Z) :
  In (reject code status)
     [ reject "SERVER_CONFIG_ERROR" 500; reject "INVALID_JSON" 400;
       reject "INIT_DATA_REQUIRED" 400 ] ->
  verify token parsed now <> Some (reject code status).
Proof.
  intros Hin Hv. apply verify_answers in Hv.
  destruct Hv as [[user [authDate Ha]]|Hr].
  - symmetry in Ha. now apply accepted_not_reject in Ha.
  - simpl in Hin, Hr.
    destruct Hin as [Hc|[Hc|[Hc|[]]]]; rewrite <- Hc in Hr;
      destruct Hr as [Hr|[Hr|[Hr|[]]]]; vm_compute in Hr; discriminate Hr.
Qed.

(** X3: the first three rejections, exactly.  SERVER_CONFIG_ERROR is the
    answer exactly when the bot token is unset or empty, whatever the
    request; INVALID_JSON exactly when the token is set and the body is
    not JSON; INIT_DATA_REQUIRED exactly when the token is set, the body
    is JSON and its initData is not a non-empty string. *)
Theorem handleValidate_guards (request : Request) (env : Env) (now : Z) :
  (handleValidate request env now = Some (reject "SERVER_CONFIG_ERROR" 500)
   <-> present (BOT_TOKEN env) = false) /\
  (handleValidate request env now = Some (reject "INVALID_JSON" 400)
   <-> present (BOT_TOKEN env) = true /\
       JSON_parse (body_text request) = None) /\
  (handleValidate request env now = Some (reject "INIT_DATA_REQUIRED" 400)
   <-> present (BOT_TOKEN env) = true /\
       exists body,
         JSON_parse (body_text request) = Some body /\
         forall initData,
           get_prop body (str "initData") = VStr initData -> initData = []).
Proof.
  unfold handleValidate, present.
  destruct (BOT_TOKEN env) as [botToken|].
  2:{ split; [|split]; (split; intros H);
        first [ reflexivity | reject_clash H | destruct H; discriminate ]. }
  destruct (str_eqb botToken []); simpl.
  { split; [|split]; (split; intros H);
      first [ reflexivity | reject_clash H | destruct H; discriminate ]. }
  destruct (JSON_parse (body_text request)) as [body|].
  2:{ split; [|split]; (split; intros H);
        first [ reflexivity | discriminate H | reject_clash H
              | now split
              | destruct H as [_ [b [Hx _]]]; discriminate Hx ]. }
  assert (Hnot : forall initData c s,
             In (reject c s)
                [ reject "SERVER_CONFIG_ERROR" 500; reject "INVALID_JSON" 400;
                  reject "INIT_DATA_REQUIRED" 400 ] ->
             verify botToken (parseInitData initData) now
               <> Some (reject c s))
    by (intros; now apply verify_not_guard).
  destruct (get_prop body (str "initData"))
    as [| |b|n|initData|items|props] eqn:Hi.
  1-4,6-7:
    (split; [|split]; (split; intros H);
     first [ reflexivity | discriminate H | reject_clash H
           | destruct H; discriminate
           | split; [reflexivity|]; exists body;
             split; [reflexivity | intros ? Hs; rewrite Hi in Hs; discriminate Hs] ]).
  destruct (str_eqb initData []) eqn:Hne.
  - apply str_eqb_eq in Hne. subst initData.
    split; [|split]; (split; intros H);
      first [ reflexivity | discriminate H | reject_clash H
            | destruct H; discriminate
            | split; [reflexivity|]; exists body;
              split; [reflexivity | intros ? Hs; rewrite Hi in Hs; congruence] ].
  - apply str_eqb_neq in Hne.
    split; [|split]; (split; intros H).
    + exfalso. apply (Hnot initData _ _ (or_introl eq_refl) H).
    + discriminate H.
    + exfalso. apply (Hnot initData _ _ (or_intror (or_introl eq_refl)) H).
    + destruct H; discriminate.
    + exfalso.
      apply (Hnot initData _ _ (or_intror (or_intror (or_introl eq_refl))) H).
    + destruct H as [_ [body' [Hb Hall]]]. injection Hb as <-.
      elim Hne. now apply Hall.
Qed.

(** ** Hex strings: [toHex] and [hmacHex] *)

Lemma join_nil_concat (parts : list jsstring) : join [] parts = concat parts.
Proof.
  induction parts as [|p parts IH]; [reflexivity|].
  destruct parts as [|q parts].
  - simpl. now rewrite app_nil_r.
  - change (join [] (p :: q :: parts)) with (p ++ [] ++ join [] (q :: parts)).
    rewrite IH. reflexivity.
Qed.

Lemma toHex_concat (bytes : list Z) :
  toHex bytes = concat (map (fun b => padStart0 2 (toString16 b)) bytes).
Proof. apply join_nil_concat. Qed.

Lemma MVP_toHex_concat (bytes : list Z) :
  MVP.toHex bytes = concat (map (fun b => padStart0 2 (toString16 b)) bytes).
Proof.
  unfold MVP.toHex.
  enough (H : forall out,
             fold_left (fun out b => out ++ padStart0 2 (toString16 b))
                       bytes out
             = out ++ concat (map (fun b => padStart0 2 (toString16 b)) bytes))
    by apply (H []).
  induction bytes as [|b bytes IH]; intros out; simpl.
  - now rewrite app_nil_r.
  - rewrite IH. now rewrite <- app_assoc.
Qed.

(** X4: the loop of [toHex] in [src/front/app.js] and the map and join
    of [toHex] in [src/worker/src/index.js] give the same string for
    every array, and so do the two [hmacHex]. *)
Theorem toHex_loop_agrees (keyBytes bytes : list Z) (data : jsstring) :
  MVP.toHex bytes = toHex bytes /\
  MVP.hmacHex keyBytes data = hmacHex keyBytes data.
Proof.
  unfold MVP.hmacHex, hmacHex.
  now rewrite !MVP_toHex_concat, !toHex_concat.
Qed.

Lemma hex_digit_spec (d : Z) :
  0 <= d < 16 ->
  is_lower_hex (hex_digit d) = true /\ hex_value (hex_digit d) = Some d.
Proof.
  intros Hd. unfold hex_digit.
  assert (Hn : (Z.to_nat d < 16)%nat) by lia.
  rewrite <- (Z2Nat.id d) at 3 by lia.
  generalize dependent (Z.to_nat d). intros n Hn.
  do 16 (destruct n as [|n]; [vm_compute; split; reflexivity|]).
  lia.
Qed.

Lemma byte_hex (b : Z) :
  is_byte b ->
  padStart0 2 (toString16 b) = [hex_digit (b / 16); hex_digit (b mod 16)].
Proof.
  intros [Hlo Hhi]. unfold toString16, padStart0.
  destruct (b <? 16) eqn:E.
  - apply Z.ltb_lt in E. rewrite Z.div_small, Z.mod_small by lia. reflexivity.
  - reflexivity.
Qed.

Lemma byte_digits (b : Z) :
  is_byte b -> 0 <= b / 16 < 16 /\ 0 <= b mod 16 < 16.
Proof.
  intros [Hlo Hhi]. split.
  - split; [apply Z.div_pos; lia | apply Z.div_lt_upper_bound; lia].
  - apply Z.mod_pos_bound. lia.
Qed.

Lemma sha256_bytes (msg : list Z) : Forall is_byte (SHA256.sha256 msg).
Proof.
  unfold SHA256.sha256.
  generalize (fold_left SHA256.compress
                (SHA256.blocks (length (SHA256.pad msg) / 64) (SHA256.pad msg))
                SHA256.H0).
  intros ws. induction ws as [|w ws IH]; simpl; [constructor|].
  unfold is_byte.
  repeat (constructor; [apply Z.mod_pos_bound; lia|]).
  exact IH.
Qed.

Lemma toHex_lower_hex (bytes : list Z) :
  Forall is_byte bytes -> forallb is_lower_hex (toHex bytes) = true.
Proof.
  rewrite toHex_concat.
  induction 1 as [|b bytes Hb _ IH]; [reflexivity|].
  simpl. rewrite forallb_app, IH, (byte_hex b Hb).
  destruct (byte_digits b Hb) as [Hh Hl].
  simpl. rewrite (proj1 (hex_digit_spec _ Hh)), (proj1 (hex_digit_spec _ Hl)).
  reflexivity.
Qed.

Lemma hmacHex_lower_hex (keyBytes : list Z) (data : jsstring) :
  forallb is_lower_hex (hmacHex keyBytes data) = true.
Proof.
  unfold hmacHex, SHA256.hmac. apply toHex_lower_hex, sha256_bytes.
Qed.

(** X5: the expected signature is always 64 characters, each a digit or
    a letter from a to f in lower case. *)
Theorem hmacHex_format (keyBytes : list Z) (data : jsstring) :
  length (hmacHex keyBytes data) = 64%nat /\
  forallb is_lower_hex (hmacHex keyBytes data) = true.
Proof.
  split; [apply hmacHex_length | apply hmacHex_lower_hex].
Qed.

Lemma hex_bytes_toHex (bytes : list Z) :
  Forall is_byte bytes -> hex_bytes (toHex bytes) = Some bytes.
Proof.
  rewrite toHex_concat.
  induction 1 as [|b bytes Hb _ IH]; [reflexivity|].
  simpl concat. rewrite (byte_hex b Hb).
  destruct (byte_digits b Hb) as [Hh Hl].
  cbn [app hex_bytes].
  rewrite (proj2 (hex_digit_spec _ Hh)), (proj2 (hex_digit_spec _ Hl)), IH.
  do 2 f_equal. symmetry. apply Z.div_mod. lia.
Qed.

(** X6: [toHex] loses nothing: two byte arrays with the same hex string
    are the same array. *)
Theorem toHex_injective (a b : list Z) :
  Forall is_byte a -> Forall is_byte b -> toHex a = toHex b -> a = b.
Proof.
  intros Ha Hb H.
  pose proof (hex_bytes_toHex a Ha) as Ea.
  rewrite H, (hex_bytes_toHex b Hb) in Ea. congruence.
Qed.

Lemma toHex_injective_witness :
  Forall is_byte [0; 10; 255] /\
  toHex [0; 10; 255] = toHex [0; 10; 255] /\
  toHex [0; 10; 255] = str "000aff" /\
  [0; 10; 255] = [0; 10; 255].
Proof.
  assert (Ha : Forall is_byte [0; 10; 255])
    by (repeat constructor; unfold is_byte; lia).
  assert (He : toHex [0; 10; 255] = toHex [0; 10; 255]) by reflexivity.
  assert (Hs : toHex [0; 10; 255] = str "000aff") by (vm_compute; reflexivity).
  exact (conj Ha (conj He (conj Hs (toHex_injective _ _ Ha Ha He)))).
Defined.

(** X7: a payload whose hash is not 64 lower-case hex digits is never
    accepted. *)
Theorem malformed_hash_never_accepted (token : jsstring)
    (parsed : URLSearchParams) (now : Z) (hash : jsstring) (r : Response) :
  get parsed (str "hash") = Some hash ->
  Nat.eqb (length hash) 64 && forallb is_lower_hex hash = false ->
  verify token parsed now = Some r ->
  get_prop (resp_body r) (str "ok") = VBool false.
Proof.
  intros Hh Hbad Hv.
  destruct (verify_answers _ _ _ _ Hv) as [[user [authDate ->]]|Hin].
  - exfalso.
    destruct (verify_accepted_inv _ _ _ _ Hv (accepted_ok user authDate))
      as [a [Hs _]].
    rewrite Hh in Hs. injection Hs as ->.
    unfold signature in Hbad.
    rewrite hmacHex_length, hmacHex_lower_hex in Hbad. discriminate.
  - simpl in Hin.
    repeat (destruct Hin as [<-|Hin]; [reflexivity|]). contradiction.
Qed.

Lemma malformed_hash_never_accepted_witness :
  get Case.uppercase (str "hash")
    = Some (str "7D8D236AA74C0791334DCC4648406257F0493DE6487E540B7A339D3FA1900150") /\
  Nat.eqb (length (str "7D8D236AA74C0791334DCC4648406257F0493DE6487E540B7A339D3FA1900150")) 64
  && forallb is_lower_hex
       (str "7D8D236AA74C0791334DCC4648406257F0493DE6487E540B7A339D3FA1900150")
    = false /\
  verify Sample.token Case.uppercase 1700000100
    = Some (reject "INVALID_SIGNATURE" 401) /\
  get_prop (resp_body (reject "INVALID_SIGNATURE" 401)) (str "ok") = VBool false.
Proof.
  assert (H1 : get Case.uppercase (str "hash")
               = Some (str "7D8D236AA74C0791334DCC4648406257F0493DE6487E540B7A339D3FA1900150"))
    by (vm_compute; reflexivity).
  assert (H2 : Nat.eqb (length (str "7D8D236AA74C0791334DCC4648406257F0493DE6487E540B7A339D3FA1900150")) 64
               && forallb is_lower_hex
                    (str "7D8D236AA74C0791334DCC4648406257F0493DE6487E540B7A339D3FA1900150")
               = false)
    by (vm_compute; reflexivity).
  assert (H3 : verify Sample.token Case.uppercase 1700000100
               = Some (reject "INVALID_SIGNATURE" 401))
    by (vm_compute; reflexivity).
  exact (conj H1 (conj H2 (conj H3
           (malformed_hash_never_accepted _ _ _ _ _ H1 H2 H3)))).
Defined.

(** ** More on the canonical string *)

(** X8: pairs named hash have no part in the canonical string, so the
    signature of a payload does not depend on the hash fields it
    carries. *)
Theorem buildDataCheckString_ignores_hash (token : jsstring)
    (l1 l2 : URLSearchParams) (h : jsstring) :
  buildDataCheckString (l1 ++ (str "hash", h) :: l2)
    = buildDataCheckString (l1 ++ l2) /\
  signature token (l1 ++ (str "hash", h) :: l2) = signature token (l1 ++ l2).
Proof.
  assert (H : buildDataCheckString (l1 ++ (str "hash", h) :: l2)
              = buildDataCheckString (l1 ++ l2)).
  { unfold buildDataCheckString. rewrite !collect_entries_filter.
    unfold signed_pairs. rewrite !filter_app. reflexivity. }
  split; [exact H|]. unfold signature. now rewrite H.
Qed.

(** X9: values are written into the canonical string as they are, so a
    line break inside a value reads like the start of the next field: the
    one pair [k = v, line break, k' = v'] and the two pairs [k = v] and
    [k' = v'] have the same canonical string and the same signature. *)
Theorem canonical_string_line_break (token k v k' v' : jsstring) :
  str_eqb k (str "hash") = false ->
  str_eqb k' (str "hash") = false ->
  str_ltb k' k = false ->
  buildDataCheckString [(k, v ++ [10] ++ k' ++ str "=" ++ v')]
    = buildDataCheckString [(k, v); (k', v')] /\
  signature token [(k, v ++ [10] ++ k' ++ str "=" ++ v')]
    = signature token [(k, v); (k', v')].
Proof.
  intros Hk Hk' Hle.
  assert (H : buildDataCheckString [(k, v ++ [10] ++ k' ++ str "=" ++ v')]
              = buildDataCheckString [(k, v); (k', v')]).
  { unfold buildDataCheckString, collect_entries. simpl.
    rewrite Hk, Hk'. simpl. rewrite compare_keys_le. simpl. rewrite Hle.
    simpl. unfold render_entry. simpl. now rewrite <- !app_assoc. }
  split; [exact H|]. unfold signature. now rewrite H.
Qed.

Lemma canonical_string_line_break_witness :
  str_eqb (str "a") (str "hash") = false /\
  str_eqb (str "b") (str "hash") = false /\
  str_ltb (str "b") (str "a") = false /\
  buildDataCheckString [(str "a", str "1" ++ [10] ++ str "b" ++ str "=" ++ str "2")]
    = buildDataCheckString [(str "a", str "1"); (str "b", str "2")] /\
  signature Sample.token
            [(str "a", str "1" ++ [10] ++ str "b" ++ str "=" ++ str "2")]
    = signature Sample.token [(str "a", str "1"); (str "b", str "2")].
Proof.
  assert (H1 : str_eqb (str "a") (str "hash") = false) by reflexivity.
  assert (H2 : str_eqb (str "b") (str "hash") = false) by reflexivity.
  assert (H3 : str_ltb (str "b") (str "a") = false) by reflexivity.
  exact (conj H1 (conj H2 (conj H3
           (canonical_string_line_break Sample.token _ (str "1") _ (str "2")
              H1 H2 H3)))).
Defined.

(** ** Edges of the freshness check and of the user *)

(** X10: an auth_date that is not a number never expires: a signed
    payload whose auth_date reads as NaN is accepted at every time, with
    auth_date NaN in the answer. *)
Theorem non_numeric_auth_date_never_expires (token : jsstring)
    (parsed : URLSearchParams) :
  get parsed (str "hash") = Some (signature token parsed) ->
  Number_ (or_default (get parsed (str "auth_date")) (str "0")) = Some NaN ->
  forall now,
    verify token parsed now
      = Some (accepted (user_claims (parse_user (get parsed (str "user"))))
                       NaN).
Proof.
  intros Hh Hn now.
  rewrite (verify_cases token parsed now _ NaN Hh
             (signature_not_empty token parsed) Hn).
  now rewrite timingSafeEqual_refl.
Qed.

Lemma non_numeric_auth_date_never_expires_witness :
  get Case.undated (str "hash") = Some (signature Sample.token Case.undated) /\
  Number_ (or_default (get Case.undated (str "auth_date")) (str "0"))
    = Some NaN /\
  verify Sample.token Case.undated 0 = Some (accepted VNull NaN) /\
  verify Sample.token Case.undated 4102444800 = Some (accepted VNull NaN).
Proof.
  assert (H1 : get Case.undated (str "hash")
               = Some (signature Sample.token Case.undated))
    by (vm_compute; reflexivity).
  assert (H2 : Number_ (or_default (get Case.undated (str "auth_date"))
                                   (str "0")) = Some NaN)
    by (vm_compute; reflexivity).
  exact (conj H1 (conj H2
           (conj (non_numeric_auth_date_never_expires _ _ H1 H2 0)
                 (non_numeric_auth_date_never_expires _ _ H1 H2 4102444800)))).
Defined.

Lemma JSON_parse_empty : JSON_parse [] = None.
Proof. reflexivity. Qed.

(** X11: a user field that is JSON but not an object never reaches the
    answer as it is: in an accepted payload the user is null when the
    value is falsy (null, false, 0, the empty string) and otherwise the
    object of the five properties, all undefined. *)
Theorem non_object_user_claims (token : jsstring) (parsed : URLSearchParams)
    (now : Z) (authDate : number) (text : jsstring) (v : value) :
  get parsed (str "hash") = Some (signature token parsed) ->
  Number_ (or_default (get parsed (str "auth_date")) (str "0")) = Some authDate ->
  exceeds_window now authDate = false ->
  get parsed (str "user") = Some text ->
  JSON_parse text = Some v ->
  (forall props, v <> VObj props) ->
  verify token parsed now
    = Some (accepted (if truthy v then Case.empty_claims else VNull) authDate).
Proof.
  intros Hh Hn Hf Hu Hj Hobj.
  rewrite (verify_cases token parsed now _ authDate Hh
             (signature_not_empty token parsed) Hn).
  rewrite Hf, timingSafeEqual_refl, Hu. unfold parse_user.
  destruct (str_eqb text []) eqn:He.
  { apply str_eqb_eq in He. subst text. rewrite JSON_parse_empty in Hj.
    discriminate. }
  rewrite Hj. unfold user_claims.
  destruct (truthy v); [|reflexivity].
  destruct v; try reflexivity. now elim (Hobj props).
Qed.

Lemma non_object_user_claims_witness :
  get Case.number_user (str "hash")
    = Some (signature Sample.token Case.number_user) /\
  Number_ (or_default (get Case.number_user (str "auth_date")) (str "0"))
    = Some (Num 1700000000 0) /\
  exceeds_window 1700000100 (Num 1700000000 0) = false /\
  get Case.number_user (str "user") = Some (str "5") /\
  JSON_parse (str "5") = Some (VNum (Num 5 0)) /\
  verify Sample.token Case.number_user 1700000100
    = Some (accepted Case.empty_claims (Num 1700000000 0)).
Proof.
  assert (H1 : get Case.number_user (str "hash")
               = Some (signature Sample.token Case.number_user))
    by (vm_compute; reflexivity).
  assert (H2 : Number_ (or_default (get Case.number_user (str "auth_date"))
                                   (str "0")) = Some (Num 1700000000 0))
    by (vm_compute; reflexivity).
  assert (H3 : exceeds_window 1700000100 (Num 1700000000 0) = false)
    by (vm_compute; reflexivity).
  assert (H4 : get Case.number_user (str "user") = Some (str "5"))
    by (vm_compute; reflexivity).
  assert (H5 : JSON_parse (str "5") = Some (VNum (Num 5 0)))
    by (vm_compute; reflexivity).
  assert (H6 : forall props, VNum (Num 5 0) <> VObj props)
    by (intros props; discriminate).
  exact (conj H1 (conj H2 (conj H3 (conj H4 (conj H5
           (non_object_user_claims _ _ 1700000100 _ _ _
              H1 H2 H3 H4 H5 H6)))))).
Defined.

(** ** The router *)

Lemma handleValidate_not_other (request : Request) (env : Env) (now : Z)
    (r : Response) :
  In r [ cors no_content; reject "NOT_FOUND" 404 ] ->
  handleValidate request env now <> Some r.
Proof.
  intros Hin Hv. apply handleValidate_cases in Hv.
  simpl in Hin. destruct Hin as [<-|[<-|[]]];
    (destruct Hv as [[u [a Ha]]|Hr];
     [ vm_compute in Ha; discriminate Ha
     | simpl in Hr;
       repeat (destruct Hr as [Hr|Hr]; [vm_compute in Hr; discriminate Hr|]);
       contradiction ]).
Qed.

(** X12: the routes of [fetch].  A request of method OPTIONS is answered
    204 without a body, whatever the path and the configuration, and no
    other request is; NOT_FOUND is the answer exactly when the method is
    not OPTIONS, the path is not /api/health and the request is not a
    POST to /api/validate; and a POST to /api/validate is answered by
    [handleValidate] at the second [Math.floor(now_ms / 1000)]. *)
Theorem fetch_routes (request : Incoming) (env : Env) (now_ms : Z) :
  (fetch request env now_ms = Some (cors no_content)
   <-> req_method request = str "OPTIONS") /\
  (fetch request env now_ms = Some (reject "NOT_FOUND" 404)
   <-> req_method request <> str "OPTIONS" /\
       req_pathname request <> str "/api/health" /\
       ~ (req_pathname request = str "/api/validate" /\
          req_method request = str "POST")) /\
  (req_pathname request = str "/api/validate" ->
   req_method request = str "POST" ->
   fetch request env now_ms
     = handleValidate (req_request request) env (now_ms / 1000)).
Proof.
  unfold fetch.
  destruct (str_eqb (req_method request) (str "OPTIONS")) eqn:Ho.
  { apply str_eqb_eq in Ho. split; [tauto|]. split.
    - split; [intros H; vm_compute in H; discriminate H | tauto].
    - intros _ Hp. rewrite Hp in Ho. vm_compute in Ho. discriminate Ho. }
  apply str_eqb_neq in Ho.
  destruct (str_eqb (req_pathname request) (str "/api/health")) eqn:Hh.
  { apply str_eqb_eq in Hh. split; [|split].
    - split; [intros H; vm_compute in H; discriminate H | tauto].
    - split; [intros H; vm_compute in H; discriminate H | tauto].
    - intros Hv _. rewrite Hv in Hh. vm_compute in Hh. discriminate Hh. }
  apply str_eqb_neq in Hh.
  destruct (str_eqb (req_pathname request) (str "/api/validate")) eqn:Hv;
    [destruct (str_eqb (req_method request) (str "POST")) eqn:Hp|]; simpl.
  - apply str_eqb_eq in Hv, Hp. split; [|split].
    + split; [|tauto]. intros H. exfalso.
      apply (handleValidate_not_other _ _ _ _ (or_introl eq_refl) H).
    + split; [|tauto]. intros H. exfalso.
      apply (handleValidate_not_other _ _ _ _ (or_intror (or_introl eq_refl)) H).
    + reflexivity.
  - apply str_eqb_neq in Hp. split; [|split].
    + split; [intros H; vm_compute in H; discriminate H | tauto].
    + split; [tauto|reflexivity].
    + tauto.
  - apply str_eqb_neq in Hv. split; [|split].
    + split; [intros H; vm_compute in H; discriminate H | tauto].
    + split; [tauto|reflexivity].
    + tauto.
Qed.

Lemma verify_expired_iff (token : jsstring) (parsed : URLSearchParams)
    (now : Z) (hash : jsstring) (authDate : number) :
  get parsed (str "hash") = Some hash ->
  str_eqb hash [] = false ->
  Number_ (or_default (get parsed (str "auth_date")) (str "0")) = Some authDate ->
  (verify token parsed now = Some (reject "DATA_EXPIRED" 401)
   <-> exceeds_window now authDate = true).
Proof.
  intros Hh Hne Hn.
  rewrite (verify_cases token parsed now hash authDate Hh Hne Hn).
  destruct (exceeds_window now authDate); [tauto|].
  split; [|discriminate]. intros H. exfalso.
  destruct (timingSafeEqual hash (signature token parsed)).
  - apply (accepted_not_reject
             (user_claims (parse_user (get parsed (str "user"))))
             authDate "DATA_EXPIRED" 401). congruence.
  - assert (Hr : reject "INVALID_SIGNATURE" 401 = reject "DATA_EXPIRED" 401)
      by congruence.
    vm_compute in Hr. discriminate.
Qed.

(** X13: the window in milliseconds.  [handleValidate] compares whole
    seconds, so a POST to /api/validate with a payload that has a hash
    and the integer auth_date [z] is answered DATA_EXPIRED exactly from
    the millisecond [(z + 301) * 1000] on. *)
Theorem fetch_expiry_in_milliseconds (request : Incoming) (env : Env)
    (now_ms : Z) (botToken : jsstring) (body : value)
    (initData hash : jsstring) (z : Z) :
  req_pathname request = str "/api/validate" ->
  req_method request = str "POST" ->
  BOT_TOKEN env = Some botToken ->
  str_eqb botToken [] = false ->
  JSON_parse (body_text (req_request request)) = Some body ->
  get_prop body (str "initData") = VStr initData ->
  str_eqb initData [] = false ->
  get (parseInitData initData) (str "hash") = Some hash ->
  str_eqb hash [] = false ->
  Number_ (or_default (get (parseInitData initData) (str "auth_date"))
                      (str "0")) = Some (Num z 0) ->
  (fetch request env now_ms = Some (reject "DATA_EXPIRED" 401)
   <-> (z + 301) * 1000 <= now_ms).
Proof.
  intros Hp Hm Ht Hte Hb Hi Hne Hh Hhe Hn.
  unfold fetch. rewrite Hp, Hm.
  change (str_eqb (str "POST") (str "OPTIONS")) with false.
  change (str_eqb (str "/api/validate") (str "/api/health")) with false.
  change (str_eqb (str "/api/validate") (str "/api/validate")) with true.
  change (str_eqb (str "POST") (str "POST")) with true.
  cbn [andb].
  rewrite (handleValidate_verify _ env (now_ms / 1000) botToken body initData
             Ht Hte Hb Hi Hne).
  rewrite (verify_expired_iff botToken _ (now_ms / 1000) hash (Num z 0)
             Hh Hhe Hn).
  rewrite exceeds_window_int. unfold VALID_AUTH_WINDOW.
  pose proof (Z.div_mod now_ms 1000 ltac:(lia)) as Hd.
  pose proof (Z.mod_pos_bound now_ms 1000 ltac:(lia)) as Hm'.
  lia.
Qed.

Lemma fetch_expiry_in_milliseconds_witness :
  (fetch Case.validate_call Sample.env 1700000300999
     = Some (reject "DATA_EXPIRED" 401)
   <-> (1700000000 + 301) * 1000 <= 1700000300999) /\
  fetch Case.validate_call Sample.env 1700000300999 = Some Case.signed_answer /\
  fetch Case.validate_call Sample.env 1700000301000
    = Some (reject "DATA_EXPIRED" 401).
Proof.
  assert (H : forall now_ms,
             fetch Case.validate_call Sample.env now_ms
               = Some (reject "DATA_EXPIRED" 401)
             <-> (1700000000 + 301) * 1000 <= now_ms).
  { intros now_ms.
    apply (fetch_expiry_in_milliseconds Case.validate_call Sample.env now_ms
             Sample.token
             (VObj [(str "initData", VStr Sample.signed_raw)])
             Sample.signed_raw
             (signature Sample.token Sample.signed) 1700000000);
      vm_compute; reflexivity. }
  split; [apply H|]. split; [vm_compute; reflexivity|].
  apply H. lia.
Defined.

(** ** Headers *)

Lemma same_name_sym (a b : jsstring) : same_name a b = same_name b a.
Proof. unfold same_name. apply str_eqb_sym. Qed.

Lemma same_name_trans (a b c : jsstring) :
  same_name a b = true -> same_name b c = true -> same_name a c = true.
Proof.
  unfold same_name. rewrite !str_eqb_eq. congruence.
Qed.

Lemma same_name_other (a b c : jsstring) :
  same_name a b = true -> same_name b c = false -> same_name a c = false.
Proof.
  intros Hab Hbc. destruct (same_name a c) eqn:Hac; [|reflexivity].
  rewrite same_name_sym in Hab.
  now rewrite (same_name_trans b a c Hab Hac) in Hbc.
Qed.

Lemma filter_name_removed (h : Headers) (name name' : jsstring) :
  same_name name name' = true ->
  filter (fun kv => same_name (fst kv) name')
         (filter (fun kv => negb (same_name (fst kv) name)) h) = [].
Proof.
  intros Hn. induction h as [|[k v] h IH]; simpl; [reflexivity|].
  destruct (same_name k name) eqn:Hk; simpl; [exact IH|].
  destruct (same_name k name') eqn:Hk'; [|exact IH].
  rewrite same_name_sym in Hn.
  now rewrite (same_name_trans k name' name Hk' Hn) in Hk.
Qed.

Lemma filter_name_kept (h : Headers) (name name' : jsstring) :
  same_name name name' = false ->
  filter (fun kv => same_name (fst kv) name')
         (filter (fun kv => negb (same_name (fst kv) name)) h)
  = filter (fun kv => same_name (fst kv) name') h.
Proof.
  intros Hn. induction h as [|[k v] h IH]; simpl; [reflexivity|].
  destruct (same_name k name) eqn:Hk; simpl.
  - rewrite (same_name_other k name name' Hk Hn). exact IH.
  - now rewrite IH.
Qed.

Lemma Headers_get_set_same (h : Headers) (name name' value : jsstring) :
  same_name name name' = true ->
  Headers_get (Headers_set h name value) name' = Some value.
Proof.
  intros Hn. unfold Headers_get.
  induction h as [|[k v] h IH]; simpl.
  - now rewrite Hn.
  - destruct (same_name k name) eqn:Hk; simpl.
    + rewrite (same_name_trans k name name' Hk Hn).
      now rewrite (filter_name_removed h name name' Hn).
    + destruct (same_name k name') eqn:Hk'; [|exact IH].
      rewrite same_name_sym in Hn.
      now rewrite (same_name_trans k name' name Hk' Hn) in Hk.
Qed.

Lemma Headers_get_set_other (h : Headers) (name name' value : jsstring) :
  same_name name name' = false ->
  Headers_get (Headers_set h name value) name' = Headers_get h name'.
Proof.
  intros Hn. unfold Headers_get.
  enough (H : filter (fun kv => same_name (fst kv) name')
                     (Headers_set h name value)
              = filter (fun kv => same_name (fst kv) name') h)
    by now rewrite H.
  induction h as [|[k v] h IH]; simpl.
  - now rewrite Hn.
  - destruct (same_name k name) eqn:Hk; simpl.
    + rewrite (same_name_other k name name' Hk Hn).
      now apply filter_name_kept.
    + now rewrite IH.
Qed.

(** X14: whatever headers a response has, after [cors] it has exactly
    one value for each of the three Access-Control headers, the one
    [cors] sets, under any spelling of the name, and every header of
    another name reads as before; so the Content-Type of [json] stays. *)
Theorem cors_headers_spec (h : Headers) (name : jsstring) :
  (same_name name (str "Access-Control-Allow-Origin") = true ->
   Headers_get (cors_headers h) name = Some (str "*")) /\
  (same_name name (str "Access-Control-Allow-Methods") = true ->
   Headers_get (cors_headers h) name = Some (str "GET,POST,OPTIONS")) /\
  (same_name name (str "Access-Control-Allow-Headers") = true ->
   Headers_get (cors_headers h) name = Some (str "Content-Type")) /\
  (same_name name (str "Access-Control-Allow-Origin") = false ->
   same_name name (str "Access-Control-Allow-Methods") = false ->
   same_name name (str "Access-Control-Allow-Headers") = false ->
   Headers_get (cors_headers h) name = Headers_get h name) /\
  Headers_get (cors_headers json_headers) (str "content-type")
    = Some (str "application/json; charset=utf-8").
Proof.
  unfold cors_headers.
  assert (Hom : same_name (str "Access-Control-Allow-Origin")
                          (str "Access-Control-Allow-Methods") = false)
    by reflexivity.
  assert (Hoh : same_name (str "Access-Control-Allow-Origin")
                          (str "Access-Control-Allow-Headers") = false)
    by reflexivity.
  assert (Hmh : same_name (str "Access-Control-Allow-Methods")
                          (str "Access-Control-Allow-Headers") = false)
    by reflexivity.
  assert (Hmo : same_name (str "Access-Control-Allow-Methods")
                          (str "Access-Control-Allow-Origin") = false)
    by reflexivity.
  assert (Hother : forall a b, same_name name a = true ->
                               same_name a b = false ->
                               same_name b name = false).
  { intros a b Ha Hab. rewrite same_name_sym.
    exact (same_name_other name a b Ha Hab). }
  repeat split.
  - intros Ho.
    rewrite (Headers_get_set_other _ _ name _ (Hother _ _ Ho Hoh)).
    rewrite (Headers_get_set_other _ _ name _ (Hother _ _ Ho Hom)).
    apply Headers_get_set_same. now rewrite same_name_sym.
  - intros Hm.
    rewrite (Headers_get_set_other _ _ name _ (Hother _ _ Hm Hmh)).
    apply Headers_get_set_same. now rewrite same_name_sym.
  - intros Hh. apply Headers_get_set_same. now rewrite same_name_sym.
  - intros Ho Hm Hh. rewrite same_name_sym in Ho, Hm, Hh.
    now rewrite (Headers_get_set_other _ _ name _ Hh),
                (Headers_get_set_other _ _ name _ Hm),
                (Headers_get_set_other _ _ name _ Ho).
Qed.

(** ** The first worker, [src/front/app.js] *)

Lemma MVP_hmacHex_eq (keyBytes : list Z) (data : jsstring) :
  MVP.hmacHex keyBytes data = hmacHex keyBytes data.
Proof.
  unfold MVP.hmacHex, hmacHex. now rewrite MVP_toHex_concat, toHex_concat.
Qed.

Lemma MVP_validate_cases (token : jsstring) (parsed : URLSearchParams)
    (hash : jsstring) :
  get parsed (str "hash") = Some hash ->
  str_eqb hash [] = false ->
  MVP.validate token parsed =
    if timingSafeEqual hash (signature token parsed) then
      match Number_ (or_default (get parsed (str "auth_date")) (str "0")) with
      | None => None
      | Some authDate =>
          Some (cors (json (VObj [ (str "ok", VBool true);
                                   (str "auth_date", VNum authDate);
                                   (str "user",
                                    parse_user (get parsed (str "user")));
                                   (str "raw",
                                    VObj (MVP.Object_fromEntries parsed)) ])
                           200))
      end
    else Some (MVP.failure "initData signature invalid" 401).
Proof.
  intros Hh Hne. unfold MVP.validate. rewrite Hh, Hne, MVP_hmacHex_eq.
  fold (signature token parsed).
  now destruct (timingSafeEqual hash (signature token parsed)).
Qed.

(** X15: the two workers on a signed payload.  The first worker accepts
    it whatever its age and answers with the parsed user as it is; the
    second answers DATA_EXPIRED when the auth_date is stale and otherwise
    accepts, with the same auth_date and with the five listed properties
    of the user the first worker answers with. *)
Theorem workers_on_signed_payload (token : jsstring)
    (parsed : URLSearchParams) (now : Z) (authDate : number) :
  get parsed (str "hash") = Some (signature token parsed) ->
  Number_ (or_default (get parsed (str "auth_date")) (str "0")) = Some authDate ->
  exists r,
    MVP.validate token parsed = Some r /\
    resp_status r = 200 /\
    get_prop (resp_body r) (str "ok") = VBool true /\
    get_prop (resp_body r) (str "auth_date") = VNum authDate /\
    get_prop (resp_body r) (str "user") = parse_user (get parsed (str "user")) /\
    verify token parsed now
      = Some (if exceeds_window now authDate
              then reject "DATA_EXPIRED" 401
              else accepted (user_claims (get_prop (resp_body r) (str "user")))
                            authDate).
Proof.
  intros Hh Hn.
  rewrite (MVP_validate_cases token parsed _ Hh (signature_not_empty _ _)).
  rewrite timingSafeEqual_refl, Hn.
  eexists. split; [reflexivity|].
  repeat (split; [reflexivity|]).
  rewrite (verify_cases token parsed now _ authDate Hh
             (signature_not_empty token parsed) Hn).
  now rewrite timingSafeEqual_refl.
Qed.

Lemma workers_on_signed_payload_witness :
  get Sample.admin (str "hash") = Some (signature Sample.token Sample.admin) /\
  Number_ (or_default (get Sample.admin (str "auth_date")) (str "0"))
    = Some (Num 1700000000 0) /\
  exists r,
    MVP.validate Sample.token Sample.admin = Some r /\
    resp_status r = 200 /\
    get_prop (resp_body r) (str "ok") = VBool true /\
    get_prop (resp_body r) (str "auth_date") = VNum (Num 1700000000 0) /\
    get_prop (resp_body r) (str "user")
      = parse_user (get Sample.admin (str "user")) /\
    verify Sample.token Sample.admin 1700000500
      = Some (if exceeds_window 1700000500 (Num 1700000000 0)
              then reject "DATA_EXPIRED" 401
              else accepted
                     (user_claims (get_prop (resp_body r) (str "user")))
                     (Num 1700000000 0)).
Proof.
  assert (H1 : get Sample.admin (str "hash")
               = Some (signature Sample.token Sample.admin))
    by (vm_compute; reflexivity).
  assert (H2 : Number_ (or_default (get Sample.admin (str "auth_date"))
                                   (str "0")) = Some (Num 1700000000 0))
    by (vm_compute; reflexivity).
  exact (conj H1 (conj H2
           (workers_on_signed_payload Sample.token Sample.admin 1700000500
              (Num 1700000000 0) H1 H2))).
Defined.

Lemma lookup_set_prop_same (obj : list (jsstring * value)) (k : jsstring)
    (v : value) :
  lookup (set_prop obj k v) k = v.
Proof.
  induction obj as [|[k' v'] obj IH]; simpl.
  - now rewrite str_eqb_refl.
  - destruct (str_eqb k' k) eqn:E; simpl; rewrite E; [reflexivity | exact IH].
Qed.

Lemma lookup_set_prop_other (obj : list (jsstring * value)) (k k' : jsstring)
    (v : value) :
  str_eqb k k' = false ->
  lookup (set_prop obj k v) k' = lookup obj k'.
Proof.
  intros Hk. induction obj as [|[k0 v0] obj IH]; simpl.
  - now rewrite Hk.
  - destruct (str_eqb k0 k) eqn:E; simpl.
    + apply str_eqb_eq in E. subst k0. now rewrite Hk.
    + now rewrite IH.
Qed.

Lemma Object_fromEntries_snoc (entries : list (jsstring * jsstring))
    (kv : jsstring * jsstring) :
  MVP.Object_fromEntries (entries ++ [kv])
  = set_prop (MVP.Object_fromEntries entries) (fst kv) (VStr (snd kv)).
Proof. unfold MVP.Object_fromEntries. now rewrite fold_left_app. Qed.

(** X16: in the [raw] object of the first worker a repeated key shows the
    value of its last pair, while [get], by which the hash is verified,
    gives that of the first; a key of the payload is never missing from
    [raw] and no other key is in it. *)
Theorem raw_shows_last_value (entries : URLSearchParams) (k : jsstring) :
  lookup (MVP.Object_fromEntries entries) k
    = match rev (map snd (pairs_named k entries)) with
      | [] => VUndefined
      | v :: _ => VStr v
      end /\
  get entries k = hd_error (map snd (pairs_named k entries)).
Proof.
  split; [|apply get_first_named].
  induction entries as [|[k1 v1] entries IH] using rev_ind; [reflexivity|].
  rewrite Object_fromEntries_snoc. unfold pairs_named in *.
  rewrite filter_app, map_app, rev_app_distr. simpl.
  destruct (str_eqb k1 k) eqn:E.
  - apply str_eqb_eq in E. subst k1. simpl. apply lookup_set_prop_same.
  - simpl. rewrite (lookup_set_prop_other _ _ _ _ E). exact IH.
Qed.

(** ** Reading query strings *)

Lemma split_on_app (sep : Z) (x y : list Z) :
  split_on sep (x ++ sep :: y) = split_on sep x ++ split_on sep y.
Proof.
  induction x as [|c x IH]; simpl.
  - now rewrite Z.eqb_refl.
  - destruct (c =? sep); [now rewrite IH|].
    rewrite IH. destruct (split_on sep x) as [|cur others] eqn:E.
    + destruct x; simpl in E; [discriminate|].
      destruct (z =? sep); [discriminate|].
      destruct (split_on sep x); discriminate.
    + reflexivity.
Qed.

Lemma code_points_app_amp (n : nat) :
  forall a b, (length a <= n)%nat ->
    code_points (a ++ 38 :: b) = code_points a ++ 38 :: code_points b.
Proof.
  induction n as [|n IH]; intros a b Hn.
  - destruct a; [reflexivity | simpl in Hn; lia].
  - destruct a as [|c rest]; [reflexivity|].
    simpl in Hn. cbn [app code_points].
    destruct (in_range 0xD800 0xDBFF c).
    + destruct rest as [|d rest'].
      * reflexivity.
      * cbn [app]. destruct (in_range 0xDC00 0xDFFF d).
        -- simpl in Hn. now rewrite (IH rest' b) by lia.
        -- change (d :: rest' ++ 38 :: b) with ((d :: rest') ++ 38 :: b).
           now rewrite (IH (d :: rest') b) by lia.
    + destruct (in_range 0xDC00 0xDFFF c); now rewrite (IH rest b) by lia.
Qed.

Lemma encodeUtf8_app_amp (a b : jsstring) :
  encodeUtf8 (a ++ 38 :: b) = encodeUtf8 a ++ 38 :: encodeUtf8 b.
Proof.
  unfold encodeUtf8.
  rewrite (code_points_app_amp (length a) a b (le_n _)).
  now rewrite flat_map_app.
Qed.

Lemma urlencoded_parse_app (x y : list Z) :
  urlencoded_parse (x ++ 38 :: y) = urlencoded_parse x ++ urlencoded_parse y.
Proof.
  unfold urlencoded_parse. now rewrite split_on_app, flat_map_app.
Qed.

Lemma keep_without_question (c : Z) (t : jsstring) :
  c <> 63 ->
  match c :: t with 63 :: rest => rest | _ => c :: t end = c :: t.
Proof.
  intros Hc. destruct c as [|p|p]; try reflexivity.
  repeat (destruct p as [p|p|]; try reflexivity; try congruence).
Qed.

(** X17: fields joined by an ampersand are read one after the other: the
    pairs of [a & b] are those of [a] followed by those of [b], for every
    [a] and every [b] that does not start with a question mark. *)
Theorem parseInitData_app (a b : jsstring) :
  starts_with_question b = false ->
  parseInitData (a ++ str "&" ++ b) = parseInitData a ++ parseInitData b.
Proof.
  intros Hb. unfold parseInitData, new_URLSearchParams.
  change (a ++ str "&" ++ b) with (a ++ 38 :: b).
  assert (Eb : match b with 63 :: rest => rest | _ => b end = b).
  { destruct b as [|c b]; [reflexivity|]. simpl in Hb.
    apply keep_without_question. now apply Z.eqb_neq. }
  rewrite Eb.
  destruct a as [|c a].
  - cbn [app]. change (38 :: b) with ([] ++ 38 :: b).
    rewrite (encodeUtf8_app_amp [] b). apply urlencoded_parse_app.
  - destruct (Z.eq_dec c 63) as [->|Hc].
    + cbn [app]. rewrite encodeUtf8_app_amp. apply urlencoded_parse_app.
    + change ((c :: a) ++ 38 :: b) with (c :: (a ++ 38 :: b)).
      rewrite !keep_without_question by exact Hc.
      change (c :: (a ++ 38 :: b)) with ((c :: a) ++ 38 :: b).
      rewrite encodeUtf8_app_amp. apply urlencoded_parse_app.
Qed.

Lemma parseInitData_app_witness :
  starts_with_question (str "hash=00") = false /\
  parseInitData (str "auth_date=1700000000&query_id=AA" ++ str "&" ++ str "hash=00")
    = parseInitData (str "auth_date=1700000000&query_id=AA")
        ++ parseInitData (str "hash=00").
Proof.
  assert (H : starts_with_question (str "hash=00") = false) by reflexivity.
  exact (conj H (parseInitData_app _ _ H)).
Defined.

Lemma plain_value_char_spec (c : Z) :
  plain_value_char c = true ->
  in_range 0 127 c = true /\ c <> 38 /\ c <> 43 /\ c <> 37.
Proof.
  unfold plain_value_char. rewrite !andb_true_iff, !negb_true_iff, !Z.eqb_neq.
  tauto.
Qed.

Lemma plain_key_char_spec (c : Z) :
  plain_key_char c = true -> plain_value_char c = true /\ c <> 61.
Proof.
  unfold plain_key_char. rewrite andb_true_iff, negb_true_iff, Z.eqb_neq.
  tauto.
Qed.

Lemma ascii_bounds (c : Z) : in_range 0 127 c = true -> 0 <= c <= 127.
Proof. unfold in_range. rewrite andb_true_iff, !Z.leb_le. tauto. Qed.

Lemma code_points_ascii (s : jsstring) :
  forallb (in_range 0 127) s = true -> code_points s = s.
Proof.
  induction s as [|c s IH]; [reflexivity|]. simpl.
  rewrite andb_true_iff. intros [Hc Hs]. apply ascii_bounds in Hc.
  unfold in_range.
  replace (0xD800 <=? c) with false by (symmetry; apply Z.leb_gt; lia).
  replace (0xDC00 <=? c) with false by (symmetry; apply Z.leb_gt; lia).
  simpl. now rewrite IH.
Qed.

Lemma encodeUtf8_ascii (s : jsstring) :
  forallb (in_range 0 127) s = true -> encodeUtf8 s = s.
Proof.
  intros Hs. unfold encodeUtf8. rewrite (code_points_ascii s Hs).
  induction s as [|c s IH]; [reflexivity|].
  simpl in Hs. apply andb_true_iff in Hs. destruct Hs as [Hc Hs].
  apply ascii_bounds in Hc. simpl. unfold utf8_bytes at 1.
  replace (c <? 0x80) with true by (symmetry; apply Z.ltb_lt; lia).
  simpl. now rewrite IH.
Qed.

Lemma decodeUtf8_ascii (s : list Z) :
  forallb (in_range 0 127) s = true -> decodeUtf8 s = s.
Proof.
  intros Hs. unfold decodeUtf8, utf8_decode.
  assert (H : forall acc,
             fold_left (fun acc b =>
                          let (o, st') := decoder_step (snd acc) b in
                          (fst acc ++ o, st'))
                       s (acc, decoder_init)
             = (acc ++ s, decoder_init)).
  { induction s as [|c s IH]; intros acc; simpl.
    - now rewrite app_nil_r.
    - simpl in Hs. apply andb_true_iff in Hs. destruct Hs as [Hc Hs].
      unfold decoder_step at 2. simpl. unfold decoder_lead.
      change (in_range 0 127 c) with (in_range 0 127 c) in Hc.
      rewrite Hc. rewrite (IH Hs). now rewrite <- app_assoc. }
  rewrite (H []). simpl. rewrite app_nil_r.
  clear H. induction s as [|c s IH]; [reflexivity|].
  simpl in Hs. apply andb_true_iff in Hs. destruct Hs as [Hc Hs].
  apply ascii_bounds in Hc. simpl. unfold utf16_units at 1.
  replace (c <? 0x10000) with true by (symmetry; apply Z.ltb_lt; lia).
  simpl. now rewrite IH.
Qed.

Lemma percent_decode_plain (s : list Z) :
  Forall (fun c => c <> 37) s -> percent_decode s = s.
Proof.
  induction 1 as [|c s Hc _ IH]; [reflexivity|]. simpl.
  apply Z.eqb_neq in Hc. now rewrite Hc, IH.
Qed.

Lemma form_component_plain (s : list Z) :
  forallb plain_value_char s = true -> form_component s = s.
Proof.
  intros Hs. unfold form_component.
  assert (Hall : Forall (fun c => plain_value_char c = true) s)
    by (apply Forall_forall; now apply forallb_forall).
  clear Hs.
  assert (Hmap : map (fun b => if b =? 43 then 32 else b) s = s).
  { induction Hall as [|c s Hc _ IH]; [reflexivity|]. simpl.
    destruct (plain_value_char_spec c Hc) as [_ [_ [H43 _]]].
    apply Z.eqb_neq in H43. now rewrite H43, IH. }
  rewrite Hmap, percent_decode_plain.
  - apply decodeUtf8_ascii. apply forallb_forall. intros c Hin.
    rewrite Forall_forall in Hall.
    now destruct (plain_value_char_spec c (Hall c Hin)).
  - eapply Forall_impl; [|exact Hall]. intros c Hc.
    now destruct (plain_value_char_spec c Hc) as [_ [_ [_ H37]]].
Qed.

Lemma cut_at_plain (k v : list Z) :
  forallb plain_key_char k = true -> cut_at 61 (k ++ 61 :: v) = (k, Some v).
Proof.
  induction k as [|c k IH]; simpl; [reflexivity|].
  rewrite andb_true_iff. intros [Hc Hk].
  destruct (plain_key_char_spec c Hc) as [_ H61].
  apply Z.eqb_neq in H61. now rewrite H61, (IH Hk).
Qed.

Lemma split_on_none (sep : Z) (s : list Z) :
  Forall (fun c => c <> sep) s -> split_on sep s = [s].
Proof.
  induction 1 as [|c s Hc _ IH]; [reflexivity|]. simpl.
  apply Z.eqb_neq in Hc. now rewrite Hc, IH.
Qed.

Lemma plain_key_is_value (k : list Z) :
  forallb plain_key_char k = true -> forallb plain_value_char k = true.
Proof.
  rewrite !forallb_forall. intros H c Hin.
  now destruct (plain_key_char_spec c (H c Hin)).
Qed.

Lemma urlencoded_parse_pair (kv : jsstring * jsstring) :
  plain_pair kv = true -> urlencoded_parse (render_entry kv) = [kv].
Proof.
  destruct kv as [k v]. unfold plain_pair, render_entry. simpl fst; simpl snd.
  rewrite andb_true_iff. intros [Hk Hv].
  change (k ++ str "=" ++ v) with (k ++ 61 :: v).
  unfold urlencoded_parse. rewrite split_on_none.
  - simpl flat_map. rewrite app_nil_r.
    destruct (k ++ 61 :: v) as [|c rest] eqn:E.
    + now destruct k.
    + rewrite <- E, (cut_at_plain k v Hk).
      now rewrite (form_component_plain k (plain_key_is_value k Hk)),
                  (form_component_plain v Hv).
  - apply Forall_app. split.
    + apply Forall_forall. intros c Hin.
      rewrite forallb_forall in Hk.
      destruct (plain_key_char_spec c (Hk c Hin)) as [Hc _].
      now destruct (plain_value_char_spec c Hc) as [_ [H38 _]].
    + constructor; [discriminate|].
      apply Forall_forall. intros c Hin. rewrite forallb_forall in Hv.
      now destruct (plain_value_char_spec c (Hv c Hin)) as [_ [H38 _]].
Qed.

Lemma urlencoded_parse_join (pairs : list (jsstring * jsstring)) :
  forallb plain_pair pairs = true ->
  urlencoded_parse (join (str "&") (map render_entry pairs)) = pairs.
Proof.
  induction pairs as [|p pairs IH]; [reflexivity|].
  simpl forallb. rewrite andb_true_iff. intros [Hp Hps].
  destruct pairs as [|q pairs].
  - simpl. now apply urlencoded_parse_pair.
  - change (join (str "&") (map render_entry (p :: q :: pairs)))
      with (render_entry p ++ 38 :: join (str "&") (map render_entry (q :: pairs))).
    rewrite urlencoded_parse_app, (urlencoded_parse_pair p Hp), (IH Hps).
    reflexivity.
Qed.

Lemma join_ascii (pairs : list (jsstring * jsstring)) :
  forallb plain_pair pairs = true ->
  forallb (in_range 0 127) (join (str "&") (map render_entry pairs)) = true.
Proof.
  assert (Hv : forall s, forallb plain_value_char s = true ->
                         forallb (in_range 0 127) s = true).
  { intros s Hs. rewrite forallb_forall in *. intros c Hin.
    now destruct (plain_value_char_spec c (Hs c Hin)). }
  assert (Hr : forall p, plain_pair p = true ->
                         forallb (in_range 0 127) (render_entry p) = true).
  { intros [k v]. unfold plain_pair, render_entry. simpl fst; simpl snd.
    rewrite andb_true_iff. intros [Hk Hvv].
    rewrite !forallb_app, (Hv k (plain_key_is_value k Hk)), (Hv v Hvv).
    reflexivity. }
  induction pairs as [|p pairs IH]; [reflexivity|].
  intros H. cbn [forallb] in H. apply andb_true_iff in H.
  destruct H as [Hp Hps].
  destruct pairs as [|q pairs].
  - simpl. now apply Hr.
  - change (join (str "&") (map render_entry (p :: q :: pairs)))
      with (render_entry p ++ str "&"
              ++ join (str "&") (map render_entry (q :: pairs))).
    rewrite !forallb_app, (Hr p Hp), (IH Hps). reflexivity.
Qed.

(** X18: plain fields come back as they were written: when every key and
    value is ASCII without ampersand, plus or percent (and a key without
    an equals sign), the string of the pairs written [key=value] and
    joined by ampersands, if it does not start with a question mark, is
    read by [parseInitData] as exactly those pairs. *)
Theorem parseInitData_plain_fields (pairs : list (jsstring * jsstring)) :
  forallb plain_pair pairs = true ->
  starts_with_question (join (str "&") (map render_entry pairs)) = false ->
  parseInitData (join (str "&") (map render_entry pairs)) = pairs.
Proof.
  intros Hp Hq. unfold parseInitData, new_URLSearchParams.
  assert (E : match join (str "&") (map render_entry pairs) with
              | 63 :: rest => rest
              | _ => join (str "&") (map render_entry pairs)
              end = join (str "&") (map render_entry pairs)).
  { destruct (join (str "&") (map render_entry pairs)) as [|c s];
      [reflexivity|].
    simpl in Hq. apply keep_without_question. now apply Z.eqb_neq. }
  rewrite E, (encodeUtf8_ascii _ (join_ascii pairs Hp)).
  now apply urlencoded_parse_join.
Qed.

Lemma parseInitData_plain_fields_witness :
  forallb plain_pair [ (str "auth_date", str "1700000000");
                       (str "query_id", str "A=A"); (str "hash", str "00") ]
    = true /\
  starts_with_question
    (join (str "&")
          (map render_entry [ (str "auth_date", str "1700000000");
                              (str "query_id", str "A=A");
                              (str "hash", str "00") ])) = false /\
  parseInitData (str "auth_date=1700000000&query_id=A=A&hash=00")
    = [ (str "auth_date", str "1700000000"); (str "query_id", str "A=A");
        (str "hash", str "00") ].
Proof.
  assert (H1 : forallb plain_pair [ (str "auth_date", str "1700000000");
                                    (str "query_id", str "A=A");
                                    (str "hash", str "00") ] = true)
    by (vm_compute; reflexivity).
  assert (H2 : starts_with_question
                 (join (str "&")
                       (map render_entry [ (str "auth_date", str "1700000000");
                                           (str "query_id", str "A=A");
                                           (str "hash", str "00") ])) = false)
    by (vm_compute; reflexivity).
  exact (conj H1 (conj H2 (parseInitData_plain_fields _ H1 H2))).
Defined.

(** ** The derived key *)

(** X19: the key derived from any bot token is 32 bytes, each in 0..255;
    being shorter than the 64-byte block of HMAC, it is used as it is,
    padded with 32 zero bytes, when the canonical string is signed. *)
Theorem telegramWebAppSecretKey_size (botToken : jsstring) :
  length (telegramWebAppSecretKey botToken) = 32%nat /\
  Forall is_byte (telegramWebAppSecretKey botToken) /\
  SHA256.block_key (telegramWebAppSecretKey botToken)
    = telegramWebAppSecretKey botToken ++ repeat 0 32.
Proof.
  assert (Hl : length (telegramWebAppSecretKey botToken) = 32%nat)
    by apply sha256_length.
  split; [exact Hl|]. split; [apply sha256_bytes|].
  unfold SHA256.block_key. rewrite Hl.
  change (64 <? 32)%nat with false. cbv iota. rewrite Hl. reflexivity.
Qed.

(* ================================================================== *)
(** * Part IV: UTF-8 and tampered payloads                             *)
(* ================================================================== *)

(** ** Bit operations as arithmetic *)

Lemma land_low_zero (h y n : Z) :
  0 <= n -> 0 <= y < 2 ^ n -> Z.land (h * 2 ^ n) y = 0.
Proof.
  intros Hn Hy. apply Z.bits_inj'. intros k Hk.
  rewrite Z.land_spec, Z.bits_0.
  destruct (Z.lt_ge_cases k n) as [Hlt|Hge].
  - rewrite Z.mul_pow2_bits_low by lia. reflexivity.
  - rewrite <- (Z.mod_small y (2 ^ n)) by lia.
    rewrite Z.mod_pow2_bits_high by lia. apply andb_false_r.
Qed.

Lemma lor_add (h y n : Z) :
  0 <= n -> 0 <= y < 2 ^ n -> Z.lor (h * 2 ^ n) y = h * 2 ^ n + y.
Proof.
  intros Hn Hy. pose proof (Z.add_lor_land (h * 2 ^ n) y) as H.
  rewrite (land_low_zero h y n Hn Hy) in H. lia.
Qed.

Lemma land_ones_mod (x n : Z) : 0 <= n -> Z.land x (2 ^ n - 1) = x mod 2 ^ n.
Proof.
  intros Hn. rewrite <- Z.land_ones by exact Hn.
  now rewrite Z.ones_equiv, <- Z.sub_1_r.
Qed.

Lemma continuation_byte (x : Z) : Z.lor 0x80 (Z.land x 0x3F) = 128 + x mod 64.
Proof.
  change 0x3F with (2 ^ 6 - 1). rewrite land_ones_mod by lia.
  change 0x80 with (2 * 2 ^ 6). rewrite lor_add; [reflexivity | lia |].
  apply Z.mod_pos_bound. reflexivity.
Qed.

Lemma utf8_bytes_eq (cp : Z) :
  0 <= cp < 0x110000 ->
  utf8_bytes cp =
    if cp <? 0x80 then [cp]
    else if cp <? 0x800 then [192 + cp / 64; 128 + cp mod 64]
    else if cp <? 0x10000 then
      [224 + cp / 4096; 128 + (cp / 64) mod 64; 128 + cp mod 64]
    else
      [240 + cp / 262144; 128 + (cp / 4096) mod 64; 128 + (cp / 64) mod 64;
       128 + cp mod 64].
Proof.
  intros Hcp. unfold utf8_bytes. rewrite !continuation_byte.
  rewrite !Z.shiftr_div_pow2 by lia.
  change (2 ^ 6) with 64. change (2 ^ 12) with 4096.
  change (2 ^ 18) with 262144.
  destruct (cp <? 0x80) eqn:E1; [reflexivity|].
  destruct (cp <? 0x800) eqn:E2.
  { apply Z.ltb_lt in E2. change 0xC0 with (3 * 2 ^ 6).
    rewrite lor_add; [reflexivity | lia |].
    change (2 ^ 6) with 64. Z.div_mod_to_equations. lia. }
  destruct (cp <? 0x10000) eqn:E3.
  { apply Z.ltb_lt in E3. change 0xE0 with (14 * 2 ^ 4).
    rewrite lor_add; [reflexivity | lia |].
    change (2 ^ 4) with 16. Z.div_mod_to_equations. lia. }
  change 0xF0 with (30 * 2 ^ 3).
  rewrite lor_add; [reflexivity | lia |].
  change (2 ^ 3) with 8. Z.div_mod_to_equations. lia.
Qed.

Lemma decoder_lead_eq (b : Z) :
  decoder_lead b =
    if in_range 0x00 0x7F b then ([b], decoder_init)
    else if in_range 0xC2 0xDF b then
      ([], {| dec_cp := b mod 32; dec_needed := 1; dec_seen := 0;
              dec_lower := 0x80; dec_upper := 0xBF |})
    else if in_range 0xE0 0xEF b then
      ([], {| dec_cp := b mod 16; dec_needed := 2; dec_seen := 0;
              dec_lower := if b =? 0xE0 then 0xA0 else 0x80;
              dec_upper := if b =? 0xED then 0x9F else 0xBF |})
    else if in_range 0xF0 0xF4 b then
      ([], {| dec_cp := b mod 8; dec_needed := 3; dec_seen := 0;
              dec_lower := if b =? 0xF0 then 0x90 else 0x80;
              dec_upper := if b =? 0xF4 then 0x8F else 0xBF |})
    else ([0xFFFD], decoder_init).
Proof.
  unfold decoder_lead.
  change 0x1F with (2 ^ 5 - 1). change 0xF with (2 ^ 4 - 1).
  change 0x7 with (2 ^ 3 - 1).
  rewrite !land_ones_mod by lia. reflexivity.
Qed.

Lemma decoder_step_eq (st : decoder) (b : Z) :
  decoder_step st b =
    if dec_needed st =? 0 then decoder_lead b
    else if negb (in_range (dec_lower st) (dec_upper st) b) then
      let (out, st') := decoder_lead b in (0xFFFD :: out, st')
    else
      let cp := dec_cp st * 64 + b mod 64 in
      if dec_seen st + 1 =? dec_needed st then ([cp], decoder_init)
      else ([], {| dec_cp := cp; dec_needed := dec_needed st;
                   dec_seen := dec_seen st + 1;
                   dec_lower := 0x80; dec_upper := 0xBF |}).
Proof.
  unfold decoder_step.
  change 0x3F with (2 ^ 6 - 1). rewrite land_ones_mod by lia.
  rewrite Z.shiftl_mul_pow2 by lia.
  rewrite lor_add; [reflexivity | lia |].
  apply Z.mod_pos_bound. reflexivity.
Qed.

(** ** The UTF-8 decoder gives scalar values *)

Ltac bool_arith :=
  repeat match goal with
  | H : in_range _ _ _ = _ |- _ => unfold in_range in H
  | H : scalar _ = _ |- _ => unfold scalar, in_range in H
  | H : negb _ = true |- _ => apply negb_true_iff in H
  | H : negb _ = false |- _ => apply negb_false_iff in H
  | H : _ && _ = true |- _ => apply andb_true_iff in H; destruct H as [? ?]
  | H : _ && _ = false |- _ => apply andb_false_iff in H
  | H : _ || _ = true |- _ => apply orb_true_iff in H
  | H : _ || _ = false |- _ => apply orb_false_iff in H; destruct H as [? ?]
  | H : (_ <=? _) = true |- _ => apply Z.leb_le in H
  | H : (_ <=? _) = false |- _ => apply Z.leb_gt in H
  | H : (_ <? _) = true |- _ => apply Z.ltb_lt in H
  | H : (_ <? _) = false |- _ => apply Z.ltb_ge in H
  | H : (_ =? _) = true |- _ => apply Z.eqb_eq in H
  | H : (_ =? _) = false |- _ => apply Z.eqb_neq in H
  end.

Ltac arith := Z.div_mod_to_equations; lia.

Lemma scalar_intro (cp : Z) :
  0 <= cp <= 0xD7FF \/ 0xE000 <= cp <= 0x10FFFF -> scalar cp = true.
Proof.
  intros H. unfold scalar, in_range.
  apply orb_true_iff. rewrite !andb_true_iff, !Z.leb_le. lia.
Qed.

Lemma decoder_init_ok : decoder_ok decoder_init.
Proof. unfold decoder_ok. simpl. lia. Qed.

Ltac proj_simpl :=
  cbn [fst snd dec_cp dec_needed dec_seen dec_lower dec_upper decoder_init].

Lemma decoder_lead_ok (b : Z) :
  Forall (fun cp => scalar cp = true) (fst (decoder_lead b)) /\
  decoder_ok (snd (decoder_lead b)).
Proof.
  rewrite decoder_lead_eq.
  destruct (in_range 0x00 0x7F b) eqn:E1.
  { proj_simpl. split; [|apply decoder_init_ok].
    constructor; [|constructor]. bool_arith. apply scalar_intro. lia. }
  destruct (in_range 0xC2 0xDF b) eqn:E2.
  { proj_simpl. split; [constructor|]. unfold decoder_ok. proj_simpl.
    bool_arith. split; [lia|]. split; [lia|]. right; left. arith. }
  destruct (in_range 0xE0 0xEF b) eqn:E3.
  { proj_simpl. split; [constructor|]. unfold decoder_ok. proj_simpl.
    bool_arith.
    destruct (b =? 0xE0) eqn:Ea; destruct (b =? 0xED) eqn:Eb; bool_arith;
      (split; [lia|]; split; [lia|]; right; right; left; arith). }
  destruct (in_range 0xF0 0xF4 b) eqn:E4.
  { proj_simpl. split; [constructor|]. unfold decoder_ok. proj_simpl.
    bool_arith.
    destruct (b =? 0xF0) eqn:Ea; destruct (b =? 0xF4) eqn:Eb; bool_arith;
      (split; [lia|]; split; [lia|]; do 4 right; left; arith). }
  proj_simpl. split; [|apply decoder_init_ok].
  constructor; [|constructor]. reflexivity.
Qed.

Lemma decoder_step_ok (st : decoder) (b : Z) :
  decoder_ok st ->
  Forall (fun cp => scalar cp = true) (fst (decoder_step st b)) /\
  decoder_ok (snd (decoder_step st b)).
Proof.
  intros Hok. rewrite decoder_step_eq.
  destruct (dec_needed st =? 0) eqn:E0; [apply decoder_lead_ok|].
  destruct (negb (in_range (dec_lower st) (dec_upper st) b)) eqn:E1.
  { pose proof (decoder_lead_ok b) as [Hout Hst].
    destruct (decoder_lead b) as [out st']. cbn [fst snd] in *.
    split; [|exact Hst]. constructor; [reflexivity | exact Hout]. }
  cbv zeta. unfold decoder_ok in Hok. bool_arith.
  destruct Hok as [Hlo [Hhi Hok]].
  destruct (dec_seen st + 1 =? dec_needed st) eqn:E2; proj_simpl; bool_arith.
  - split; [|apply decoder_init_ok].
    constructor; [|constructor]. apply scalar_intro.
    destruct Hok as [K|[K|[K|[K|[K|[K|K]]]]]]; arith.
  - split; [constructor|]. unfold decoder_ok. proj_simpl.
    split; [lia|]. split; [lia|].
    destruct Hok as [K|[K|[K|[K|[K|[K|K]]]]]].
    + exfalso. lia.
    + exfalso. lia.
    + do 3 right; left. arith.
    + exfalso. lia.
    + do 5 right; left. arith.
    + do 6 right. arith.
    + exfalso. lia.
Qed.

Lemma feed_eq (acc : list Z) (st : decoder) (b : Z) :
  feed (acc, st) b
  = (acc ++ fst (decoder_step st b), snd (decoder_step st b)).
Proof. unfold feed. simpl. now destruct (decoder_step st b). Qed.

Lemma feed_ok (bs : list Z) :
  forall acc st,
    Forall (fun cp => scalar cp = true) acc -> decoder_ok st ->
    Forall (fun cp => scalar cp = true) (fst (fold_left feed bs (acc, st))) /\
    decoder_ok (snd (fold_left feed bs (acc, st))).
Proof.
  induction bs as [|b bs IH]; intros acc st Hacc Hst; [simpl; auto|].
  cbn [fold_left]. rewrite feed_eq.
  pose proof (decoder_step_ok st b Hst) as [Hout Hst'].
  apply IH; [|exact Hst']. apply Forall_app. auto.
Qed.

Lemma utf8_decode_fold (bs : list Z) :
  utf8_decode bs =
    fst (fold_left feed bs ([], decoder_init))
    ++ (if dec_needed (snd (fold_left feed bs ([], decoder_init))) =? 0
        then [] else [0xFFFD]).
Proof.
  unfold utf8_decode. fold feed.
  now destruct (fold_left feed bs ([], decoder_init)).
Qed.

Lemma utf8_decode_scalar (bs : list Z) :
  Forall (fun cp => scalar cp = true) (utf8_decode bs).
Proof.
  rewrite utf8_decode_fold.
  pose proof (feed_ok bs [] decoder_init (Forall_nil _) decoder_init_ok)
    as [Hout _].
  apply Forall_app. split; [exact Hout|].
  destruct (_ =? 0); constructor; [reflexivity | constructor].
Qed.

Lemma decodeUtf8_well_formed (bs : list Z) : well_formed (decodeUtf8 bs).
Proof.
  exists (utf8_decode bs). split; [apply utf8_decode_scalar | reflexivity].
Qed.

(** ** Encoding, then decoding *)

Lemma utf16_units_eq (cp : Z) :
  utf16_units cp =
    if cp <? 0x10000 then [cp]
    else [0xD800 + (cp - 0x10000) / 1024; 0xDC00 + (cp - 0x10000) mod 1024].
Proof.
  unfold utf16_units. change 0x3FF with (2 ^ 10 - 1).
  rewrite land_ones_mod, Z.shiftr_div_pow2 by lia. reflexivity.
Qed.

Lemma code_points_units (cp : Z) (rest : jsstring) :
  scalar cp = true ->
  code_points (utf16_units cp ++ rest) = cp :: code_points rest.
Proof.
  intros Hs. rewrite utf16_units_eq. bool_arith.
  destruct (cp <? 0x10000) eqn:E; bool_arith.
  - cbn [app code_points].
    assert (H1 : in_range 0xD800 0xDBFF cp = false).
    { unfold in_range. apply andb_false_iff. rewrite !Z.leb_gt. lia. }
    assert (H2 : in_range 0xDC00 0xDFFF cp = false).
    { unfold in_range. apply andb_false_iff. rewrite !Z.leb_gt. lia. }
    now rewrite H1, H2.
  - cbn [app code_points].
    assert (H1 : in_range 0xD800 0xDBFF (0xD800 + (cp - 0x10000) / 1024)
                 = true).
    { unfold in_range. apply andb_true_iff. rewrite !Z.leb_le. arith. }
    assert (H2 : in_range 0xDC00 0xDFFF (0xDC00 + (cp - 0x10000) mod 1024)
                 = true).
    { unfold in_range. apply andb_true_iff. rewrite !Z.leb_le. arith. }
    rewrite H1, H2. f_equal. arith.
Qed.

Lemma code_points_utf16 (cps : list Z) :
  Forall (fun cp => scalar cp = true) cps ->
  code_points (flat_map utf16_units cps) = cps.
Proof.
  induction 1 as [|cp cps Hcp _ IH]; [reflexivity|].
  cbn [flat_map]. now rewrite code_points_units, IH.
Qed.

Lemma in_range_true (lo hi c : Z) : lo <= c <= hi -> in_range lo hi c = true.
Proof.
  intros H. unfold in_range. apply andb_true_iff. rewrite !Z.leb_le. lia.
Qed.

Lemma in_range_false (lo hi c : Z) :
  c < lo \/ hi < c -> in_range lo hi c = false.
Proof.
  intros H. unfold in_range. apply andb_false_iff. rewrite !Z.leb_gt. lia.
Qed.

Lemma step_lead_ascii (b : Z) :
  0 <= b <= 127 -> decoder_step decoder_init b = ([b], decoder_init).
Proof.
  intros H. rewrite decoder_step_eq. cbn [dec_needed decoder_init].
  change (0 =? 0) with true. cbv iota. rewrite decoder_lead_eq.
  now rewrite in_range_true by lia.
Qed.

Lemma step_lead2 (a : Z) :
  2 <= a <= 31 ->
  decoder_step decoder_init (192 + a)
  = ([], {| dec_cp := a; dec_needed := 1; dec_seen := 0;
            dec_lower := 0x80; dec_upper := 0xBF |}).
Proof.
  intros H. rewrite decoder_step_eq. cbn [dec_needed decoder_init].
  change (0 =? 0) with true. cbv iota. rewrite decoder_lead_eq.
  rewrite in_range_false by lia. rewrite in_range_true by lia.
  do 2 f_equal. arith.
Qed.

Lemma step_lead3 (a : Z) :
  0 <= a <= 15 ->
  decoder_step decoder_init (224 + a)
  = ([], {| dec_cp := a; dec_needed := 2; dec_seen := 0;
            dec_lower := if a =? 0 then 0xA0 else 0x80;
            dec_upper := if a =? 13 then 0x9F else 0xBF |}).
Proof.
  intros H. rewrite decoder_step_eq. cbn [dec_needed decoder_init].
  change (0 =? 0) with true. cbv iota. rewrite decoder_lead_eq.
  rewrite !in_range_false by lia. rewrite in_range_true by lia.
  assert (H1 : (224 + a =? 0xE0) = (a =? 0)).
  { destruct (a =? 0) eqn:E; bool_arith; [apply Z.eqb_eq | apply Z.eqb_neq];
      lia. }
  assert (H2 : (224 + a =? 0xED) = (a =? 13)).
  { destruct (a =? 13) eqn:E; bool_arith; [apply Z.eqb_eq | apply Z.eqb_neq];
      lia. }
  rewrite H1, H2. do 2 f_equal. arith.
Qed.

Lemma step_lead4 (a : Z) :
  0 <= a <= 4 ->
  decoder_step decoder_init (240 + a)
  = ([], {| dec_cp := a; dec_needed := 3; dec_seen := 0;
            dec_lower := if a =? 0 then 0x90 else 0x80;
            dec_upper := if a =? 4 then 0x8F else 0xBF |}).
Proof.
  intros H. rewrite decoder_step_eq. cbn [dec_needed decoder_init].
  change (0 =? 0) with true. cbv iota. rewrite decoder_lead_eq.
  rewrite !in_range_false by lia. rewrite in_range_true by lia.
  assert (H1 : (240 + a =? 0xF0) = (a =? 0)).
  { destruct (a =? 0) eqn:E; bool_arith; [apply Z.eqb_eq | apply Z.eqb_neq];
      lia. }
  assert (H2 : (240 + a =? 0xF4) = (a =? 4)).
  { destruct (a =? 4) eqn:E; bool_arith; [apply Z.eqb_eq | apply Z.eqb_neq];
      lia. }
  rewrite H1, H2. do 2 f_equal. arith.
Qed.

Lemma step_continue (cp needed seen lower upper x : Z) :
  needed <> 0 -> lower <= 128 + x <= upper -> 0 <= x < 64 ->
  decoder_step {| dec_cp := cp; dec_needed := needed; dec_seen := seen;
                  dec_lower := lower; dec_upper := upper |} (128 + x)
  = if seen + 1 =? needed then ([cp * 64 + x], decoder_init)
    else ([], {| dec_cp := cp * 64 + x; dec_needed := needed;
                 dec_seen := seen + 1;
                 dec_lower := 0x80; dec_upper := 0xBF |}).
Proof.
  intros Hn Hb Hx. rewrite decoder_step_eq.
  cbn [dec_cp dec_needed dec_seen dec_lower dec_upper].
  destruct (needed =? 0) eqn:E; [bool_arith; lia|].
  rewrite in_range_true by lia. cbn [negb]. cbv zeta.
  replace ((128 + x) mod 64) with x by arith. reflexivity.
Qed.

(** The decoder reads the encoding of a scalar value back as it. *)
Lemma feed_encoded (cp : Z) (acc rest : list Z) :
  scalar cp = true ->
  fold_left feed (utf8_bytes cp ++ rest) (acc, decoder_init)
  = fold_left feed rest (acc ++ [cp], decoder_init).
Proof.
  intros Hs. bool_arith. rewrite utf8_bytes_eq by lia.
  destruct (cp <? 0x80) eqn:E1; bool_arith.
  { cbn [app fold_left]. rewrite feed_eq, step_lead_ascii by lia.
    reflexivity. }
  destruct (cp <? 0x800) eqn:E2; bool_arith.
  { cbn [app fold_left].
    rewrite feed_eq, step_lead2 by arith. cbn [fst snd].
    rewrite feed_eq, step_continue by (try discriminate; arith).
    change (0 + 1 =? 1) with true. cbv iota. cbn [fst snd].
    rewrite app_nil_r.
    replace (cp / 64 * 64 + cp mod 64) with cp by arith. reflexivity. }
  destruct (cp <? 0x10000) eqn:E3; bool_arith.
  { cbn [app fold_left].
    rewrite feed_eq, step_lead3 by arith. cbn [fst snd].
    rewrite feed_eq, step_continue.
    2: discriminate.
    2:{ destruct (cp / 4096 =? 0) eqn:Ea; destruct (cp / 4096 =? 13) eqn:Eb;
          bool_arith; arith. }
    2: arith.
    change (0 + 1 =? 2) with false. cbv iota. cbn [fst snd].
    rewrite feed_eq, step_continue by (try discriminate; arith).
    change (0 + 1 + 1 =? 2) with true. cbv iota. cbn [fst snd].
    rewrite !app_nil_r.
    replace ((cp / 4096 * 64 + (cp / 64) mod 64) * 64 + cp mod 64)
      with cp by arith.
    reflexivity. }
  cbn [app fold_left].
  rewrite feed_eq, step_lead4 by arith. cbn [fst snd].
  rewrite feed_eq, step_continue.
  2: discriminate.
  2:{ destruct (cp / 262144 =? 0) eqn:Ea; destruct (cp / 262144 =? 4) eqn:Eb;
        bool_arith; arith. }
  2: arith.
  change (0 + 1 =? 3) with false. cbv iota. cbn [fst snd].
  rewrite feed_eq, step_continue by (try discriminate; arith).
  change (0 + 1 + 1 =? 3) with false. cbv iota. cbn [fst snd].
  rewrite feed_eq, step_continue by (try discriminate; arith).
  change (0 + 1 + 1 + 1 =? 3) with true. cbv iota. cbn [fst snd].
  rewrite !app_nil_r.
  replace (((cp / 262144 * 64 + (cp / 4096) mod 64) * 64 + (cp / 64) mod 64)
           * 64 + cp mod 64) with cp by arith.
  reflexivity.
Qed.

Lemma feed_encoded_all (cps : list Z) :
  Forall (fun cp => scalar cp = true) cps ->
  forall acc,
    fold_left feed (flat_map utf8_bytes cps) (acc, decoder_init)
    = (acc ++ cps, decoder_init).
Proof.
  induction 1 as [|cp cps Hcp _ IH]; intros acc.
  - simpl. now rewrite app_nil_r.
  - cbn [flat_map]. rewrite feed_encoded by exact Hcp.
    rewrite IH, <- app_assoc. reflexivity.
Qed.

Lemma utf8_decode_encode (cps : list Z) :
  Forall (fun cp => scalar cp = true) cps ->
  utf8_decode (flat_map utf8_bytes cps) = cps.
Proof.
  intros H. rewrite utf8_decode_fold, (feed_encoded_all cps H []).
  simpl. apply app_nil_r.
Qed.

(** ** Well-formed strings *)

(** Decoding the UTF-8 encoding of a well-formed string gives it back;
    hence [encodeUtf8] is injective on well-formed strings. *)
Lemma decode_encode (s : jsstring) :
  well_formed s -> decodeUtf8 (encodeUtf8 s) = s.
Proof.
  intros [cps [Hcps ->]]. unfold decodeUtf8, encodeUtf8.
  now rewrite code_points_utf16, utf8_decode_encode.
Qed.

Lemma encodeUtf8_injective (s s' : jsstring) :
  well_formed s -> well_formed s' ->
  encodeUtf8 s = encodeUtf8 s' -> s = s'.
Proof.
  intros Hs Hs' H.
  rewrite <- (decode_encode s Hs), <- (decode_encode s' Hs'). now rewrite H.
Qed.

Lemma well_formed_app (a b : jsstring) :
  well_formed a -> well_formed b -> well_formed (a ++ b).
Proof.
  intros [ca [Ha ->]] [cb [Hb ->]]. exists (ca ++ cb). split.
  - apply Forall_app. auto.
  - now rewrite flat_map_app.
Qed.

Lemma well_formed_nil : well_formed [].
Proof. exists []. split; [constructor | reflexivity]. Qed.

Lemma well_formed_bmp (c : Z) : scalar c = true -> c < 0x10000 ->
  well_formed [c].
Proof.
  intros Hs Hc. exists [c]. split; [now constructor|].
  cbn [flat_map]. rewrite utf16_units_eq.
  apply Z.ltb_lt in Hc. now rewrite Hc.
Qed.

Lemma well_formed_join (sep : jsstring) (parts : list jsstring) :
  well_formed sep -> Forall well_formed parts -> well_formed (join sep parts).
Proof.
  intros Hsep. induction 1 as [|p parts Hp Hparts IH]; [apply well_formed_nil|].
  destruct parts as [|p' parts]; [exact Hp|].
  change (join sep (p :: p' :: parts)) with (p ++ sep ++ join sep (p' :: parts)).
  auto using well_formed_app.
Qed.

(** Every key and value that the query-string parser gives is well
    formed: it comes out of the UTF-8 decoder. *)
Lemma urlencoded_parse_well_formed (input : list Z) :
  Forall well_formed_pair (urlencoded_parse input).
Proof.
  unfold urlencoded_parse. apply Forall_flat_map.
  apply Forall_forall. intros bytes _.
  destruct bytes as [|b bytes]; [constructor|].
  destruct (cut_at 61 (b :: bytes)) as [name value].
  constructor; [|constructor].
  split; apply decodeUtf8_well_formed.
Qed.

Lemma parseInitData_well_formed (initData : jsstring) :
  Forall well_formed_pair (parseInitData initData).
Proof. apply urlencoded_parse_well_formed. Qed.

Lemma buildDataCheckString_well_formed (params : URLSearchParams) :
  Forall well_formed_pair params ->
  well_formed (buildDataCheckString params).
Proof.
  intros H. unfold buildDataCheckString. rewrite collect_entries_filter.
  apply well_formed_join.
  - apply well_formed_bmp; [reflexivity | lia].
  - apply Forall_map.
    apply (Permutation_Forall
             (Permutation_sym (Array_sort_perm (signed_pairs params)))).
    unfold signed_pairs.
    apply Forall_forall. intros kv Hin. apply filter_In in Hin.
    destruct Hin as [Hin _]. rewrite Forall_forall in H.
    destruct (H kv Hin) as [Hk Hv]. unfold render_entry.
    apply well_formed_app; [exact Hk|].
    apply well_formed_app; [|exact Hv].
    apply well_formed_bmp; [reflexivity | reflexivity].
Qed.

(** The bytes that are signed determine a payload's canonical string. *)
Lemma signed_bytes_injective (original tampered : jsstring) :
  encodeUtf8 (buildDataCheckString (parseInitData tampered))
  = encodeUtf8 (buildDataCheckString (parseInitData original)) ->
  buildDataCheckString (parseInitData tampered)
  = buildDataCheckString (parseInitData original).
Proof.
  apply encodeUtf8_injective;
    apply buildDataCheckString_well_formed, parseInitData_well_formed.
Qed.

Lemma hmac_bytes (key msg : list Z) : Forall is_byte (SHA256.hmac key msg).
Proof. unfold SHA256.hmac. apply sha256_bytes. Qed.

Lemma toHex_same_bytes (a b : list Z) :
  Forall is_byte a -> Forall is_byte b -> toHex a = toHex b -> a = b.
Proof.
  intros Ha Hb H. apply hex_bytes_toHex in Ha, Hb.
  rewrite H in Ha. congruence.
Qed.

(** Two signatures under one key are equal exactly when the HMAC-SHA256
    digests of the two canonical byte strings are. *)
Lemma signature_eq_iff (token : jsstring) (p q : URLSearchParams) :
  signature token p = signature token q
  <-> SHA256.hmac (telegramWebAppSecretKey token)
                  (encodeUtf8 (buildDataCheckString p))
      = SHA256.hmac (telegramWebAppSecretKey token)
                    (encodeUtf8 (buildDataCheckString q)).
Proof.
  unfold signature, hmacHex. split; [|now intros ->].
  apply toHex_same_bytes; apply hmac_bytes.
Qed.

(** ** Tampering with a value of a signed payload *)

(** The text of a payload can change without the payload changing: the
    case of the hex digits of a percent escape is not part of the decoded
    value, and the answer stays the accepted one. *)
Example escapes_in_lower_case :
  Tampered.escapes_raw <> Sample.signed_raw /\
  parseInitData Tampered.escapes_raw = parseInitData Sample.signed_raw /\
  handleValidate (Sample.request Tampered.escapes_raw) Sample.env 1700000100
    = Some Case.signed_answer.
Proof. vm_compute. repeat split. discriminate. Qed.


